(** * Honey Badger delivery engine: lifecycle, progress evaluation, sweeps, chat

  A shallow embedding of the delivery ("badger") lifecycle code of the
  backend: the status routes, the task-submission and fitness-sync routes with
  their two progress evaluators, the cron sweeps that force-expire
  deliveries, and the chat pagination and engagement analytics.

  Conventions of the embedding.
  - JavaScript numbers are binary64 doubles: NaN, the two infinities, and
    the finite doubles, each standing as the rational it denotes. Division,
    multiplication and addition round the exact result to the nearest double,
    ties to even, with overflow to infinity and gradual underflow. The sign
    of zero is not modelled. Array lengths are whole numbers.
  - Dates are integers (milliseconds since the epoch); a null date is [None];
    every [new Date()] of a handler is a clock reading of its own. The
    calendar arithmetic of the chat and cron code (differences of dates,
    counts of messages, and their quotients as far as they are compared with
    or rounded to whole numbers) is on these integers and exact.
  - String enums (status, requirement type, ...) stay strings, compared with
    [String.eqb] as the source compares them with [===] and [includes].
  - The Mongo collection is a finite map from [_id] to document; [findOne]
    is a lookup followed by the query's filter, [save] writes the in-memory
    document back under its [_id], [updateMany] maps over the collection.
    Stored documents satisfy the schema; where a route stores a percentage it
    has just computed, the schema's bounds on it are checked as [save] checks
    them, and a failed check is the exception the route catches.
    The [createdAt]/[updatedAt] stamps, the metadata of submissions and chat
    messages, and the fields of a badger that no modelled route reads (name,
    avatar, personality, reward) are left out.
  - External collaborators (object storage, text generation, the fitness
    platforms, push notifications) are inputs of the handlers; the
    notification and reminder calls, which write no status, are left out. *)

From Stdlib Require Import ZArith QArith Qround Qpower Bool List Lia Lqa.
From stdpp Require Import gmap strings list.

Local Open Scope string_scope.
Local Open Scope Z_scope.

(** ** JavaScript values *)

Module JS.

Inductive number : Type :=
| NaN
| NegInf
| PosInf
| Fin (q : Q).

Definition of_Z (z : Z) : number := Fin (inject_Z z).
Definition of_nat (n : nat) : number := of_Z (Z.of_nat n).

(** *** binary64: the double nearest to a rational, ties to even *)

Definition pow2 (k : Z) : Q := Qpower 2 k.

(** The exponent of the leading bit of [x > 0], that is the floor of its
    binary logarithm: the difference of the bit lengths of numerator and
    denominator, or one less. *)
Definition ilog2 (x : Q) : Z :=
  let e := Z.log2 (Qnum x) - Z.log2 (Z.pos (Qden x)) in
  if Qle_bool (pow2 e) x then e else e - 1.

(** The exponent of the last bit of the doubles next to [x > 0]: 52 below
    the leading bit (53 bits of precision), and never below -1074, the last
    bit of the subnormal doubles. *)
Definition ulp_exp (x : Q) : Z := Z.max (ilog2 x - 52) (-1074).

(** The integer nearest to [m]; of two at the same distance, the even one. *)
Definition nearest_even (m : Q) : Z :=
  let f := Qfloor m in
  match (m - inject_Z f ?= 1 # 2)%Q with
  | Lt => f
  | Gt => f + 1
  | Eq => if Z.even f then f else f + 1
  end.

(** The double nearest to [x > 0]; [None] when rounding reaches 2^1024. *)
Definition round_pos (x : Q) : option Q :=
  let u := ulp_exp x in
  let r := (inject_Z (nearest_even (x / pow2 u)) * pow2 u)%Q in
  if Qle_bool (pow2 1024) r then None else Some r.

(** The double a rational rounds to, as a reduced fraction. *)
Definition round64 (x : Q) : number :=
  match (x ?= 0)%Q with
  | Eq => Fin 0
  | Gt => match round_pos x with
          | Some r => Fin (Qred r)
          | None => PosInf
          end
  | Lt => match round_pos (- x) with
          | Some r => Fin (Qred (- r))
          | None => NegInf
          end
  end.

(** The rationals that are doubles: those that rounding leaves alone. Every
    number of the program is one; of a number that comes from outside (a
    metric, a target) this is said where it matters. *)
Definition is_double (q : Q) : Prop := round64 q = Fin (Qred q).

(** [a / b] *)
Definition div (a b : number) : number :=
  match a, b with
  | NaN, _ | _, NaN => NaN
  | Fin x, Fin y =>
      if Qeq_bool y 0
      then match (x ?= 0)%Q with Eq => NaN | Gt => PosInf | Lt => NegInf end
      else round64 (x / y)
  | Fin _, _ => Fin 0
  | PosInf, Fin y => if Qle_bool 0 y then PosInf else NegInf
  | NegInf, Fin y => if Qle_bool 0 y then NegInf else PosInf
  | _, _ => NaN
  end.

(** [a + b] *)
Definition add (a b : number) : number :=
  match a, b with
  | NaN, _ | _, NaN => NaN
  | PosInf, NegInf | NegInf, PosInf => NaN
  | PosInf, _ | _, PosInf => PosInf
  | NegInf, _ | _, NegInf => NegInf
  | Fin x, Fin y => round64 (x + y)
  end.

Definition sign_mul (pos : bool) (y : Q) : number :=
  match (y ?= 0)%Q with
  | Eq => NaN
  | Gt => if pos then PosInf else NegInf
  | Lt => if pos then NegInf else PosInf
  end.

(** [a * b] *)
Definition mul (a b : number) : number :=
  match a, b with
  | NaN, _ | _, NaN => NaN
  | Fin x, Fin y => round64 (x * y)
  | PosInf, Fin y | Fin y, PosInf => sign_mul true y
  | NegInf, Fin y | Fin y, NegInf => sign_mul false y
  | PosInf, PosInf | NegInf, NegInf => PosInf
  | _, _ => NegInf
  end.

(** [Math.min(a, b)] *)
Definition min (a b : number) : number :=
  match a, b with
  | NaN, _ | _, NaN => NaN
  | NegInf, _ | _, NegInf => NegInf
  | PosInf, x | x, PosInf => x
  | Fin x, Fin y => if Qle_bool x y then Fin x else Fin y
  end.

(** [Math.round(a)]: the nearest integer, halves towards plus infinity
    (the result is a whole number, so a double whenever [a] is one). *)
Definition round (a : number) : number :=
  match a with
  | Fin x => of_Z (Qfloor (x + (1 # 2)))
  | _ => a
  end.

(** [a >= b] *)
Definition geb (a b : number) : bool :=
  match a, b with
  | NaN, _ | _, NaN => false
  | PosInf, _ | _, NegInf => true
  | NegInf, _ | _, PosInf => false
  | Fin x, Fin y => Qle_bool y x
  end.

(** [a === b] on numbers *)
Definition strict_eq (a b : number) : bool :=
  match a, b with
  | Fin x, Fin y => Qeq_bool x y
  | PosInf, PosInf | NegInf, NegInf => true
  | _, _ => false
  end.

(** A value that is either a number or a string: the requirement's
    [target] (number | string) and a submission's [content] as the evaluator
    sniffs it with [typeof]. *)
Inductive value : Type :=
| VNum (n : number)
| VStr (s : string).

(** [typeof v === 'number'] *)
Definition is_number (v : value) : bool :=
  match v with VNum _ => true | VStr _ => false end.

(** Truthiness of a value in a condition. *)
Definition truthy (v : value) : bool :=
  match v with
  | VStr s => negb (String.eqb s "")
  | VNum NaN => false
  | VNum (Fin x) => negb (Qeq_bool x 0)
  | VNum _ => true
  end.

(** [a >= b] on values that are both numbers (the only use in the source is
    behind two [typeof ... === 'number'] tests). *)
Definition value_geb (a b : value) : bool :=
  match a, b with
  | VNum x, VNum y => geb x y
  | _, _ => false
  end.

(** [arr.includes(s)] on an array of strings. *)
Definition includes (arr : list string) (s : string) : bool :=
  existsb (String.eqb s) arr.

(** [Array.prototype.slice(start, end)] on integer arguments: a negative
    bound counts from the end of the array, and both are clamped to it. *)
Definition relative_index (len k : Z) : Z :=
  if k <? 0 then Z.max (len + k) 0 else Z.min k len.

Definition slice {A : Type} (arr : list A) (start end_ : Z) : list A :=
  let len := Z.of_nat (length arr) in
  let k := relative_index len start in
  let final := relative_index len end_ in
  take (Z.to_nat (final - k)) (drop (Z.to_nat k) arr).

End JS.

(** ** Documents (types/index.ts and the Mongoose schemas) *)

Module Model.

Record TaskRequirement : Type := {
  rtype : string;        (* step-count | exercise-minutes | distance | calories | photo | video | text *)
  target : JS.value;     (* number | string *)
  description : string
}.

Record TaskSubmission : Type := {
  stype : string;        (* photo | video | text | data *)
  content : JS.value;
  timestamp : Z
}.

Record TaskProgress : Type := {
  completed : bool;
  percentage : JS.number;
  submissions : list TaskSubmission;
  verificationStatus : string;
  lastUpdated : Z
}.

Record Task : Type := {
  ttype : string;        (* fitness | photo | video | location | habit | custom *)
  requirements : list TaskRequirement;
  verificationMethod : string;
  deadline : option Z;
  progress : TaskProgress
}.

Record ChatMessage : Type := {
  msg_senderId : string; (* 'badger' for the companion *)
  msg_content : string;
  msg_type : string;
  msg_timestamp : Z
}.

Record HoneyBadger : Type := {
  _id : string;
  senderId : string;
  recipientId : string;
  status : string;
  task : Task;
  chat : list ChatMessage;
  expiresAt : option Z;
  completedAt : option Z
}.

(** The eight wire values of [BadgerStatus]. *)
Definition BadgerStatus : list string :=
  ["created"; "sent"; "received"; "in-progress"; "awaiting-verification";
   "completed"; "expired"; "cancelled"].

(** Field assignments. *)
Definition set_status (s : string) (b : HoneyBadger) : HoneyBadger :=
  {| _id := _id b; senderId := senderId b; recipientId := recipientId b;
     status := s; task := task b; chat := chat b;
     expiresAt := expiresAt b; completedAt := completedAt b |}.

Definition set_completedAt (d : option Z) (b : HoneyBadger) : HoneyBadger :=
  {| _id := _id b; senderId := senderId b; recipientId := recipientId b;
     status := status b; task := task b; chat := chat b;
     expiresAt := expiresAt b; completedAt := d |}.

Definition set_chat (c : list ChatMessage) (b : HoneyBadger) : HoneyBadger :=
  {| _id := _id b; senderId := senderId b; recipientId := recipientId b;
     status := status b; task := task b; chat := c;
     expiresAt := expiresAt b; completedAt := completedAt b |}.

Definition set_progress (p : TaskProgress) (b : HoneyBadger) : HoneyBadger :=
  {| _id := _id b; senderId := senderId b; recipientId := recipientId b;
     status := status b;
     task := {| ttype := ttype (task b); requirements := requirements (task b);
                verificationMethod := verificationMethod (task b);
                deadline := deadline (task b); progress := p |};
     chat := chat b; expiresAt := expiresAt b; completedAt := completedAt b |}.

Definition set_completed (c : bool) (p : TaskProgress) : TaskProgress :=
  {| completed := c; percentage := percentage p; submissions := submissions p;
     verificationStatus := verificationStatus p; lastUpdated := lastUpdated p |}.

Definition set_percentage (n : JS.number) (p : TaskProgress) : TaskProgress :=
  {| completed := completed p; percentage := n; submissions := submissions p;
     verificationStatus := verificationStatus p; lastUpdated := lastUpdated p |}.

Definition set_submissions (l : list TaskSubmission) (p : TaskProgress) : TaskProgress :=
  {| completed := completed p; percentage := percentage p; submissions := l;
     verificationStatus := verificationStatus p; lastUpdated := lastUpdated p |}.

Definition set_verificationStatus (v : string) (p : TaskProgress) : TaskProgress :=
  {| completed := completed p; percentage := percentage p; submissions := submissions p;
     verificationStatus := v; lastUpdated := lastUpdated p |}.

Definition set_lastUpdated (d : Z) (p : TaskProgress) : TaskProgress :=
  {| completed := completed p; percentage := percentage p; submissions := submissions p;
     verificationStatus := verificationStatus p; lastUpdated := d |}.

(** The JSON answer of a route: HTTP status, [success], and the [error]
    text when there is one. *)
Record Response : Type := {
  http_status : Z;
  success : bool;
  error : option string
}.

Definition ok : Response :=
  {| http_status := 200; success := true; error := None |}.

Definition failure (code : Z) (msg : string) : Response :=
  {| http_status := code; success := false; error := Some msg |}.

(** The collection, [findOne] by [_id] with the rest of the query as a
    filter, and [save] of a loaded document. *)
Definition findOne (db : gmap string HoneyBadger) (id : string)
    (query : HoneyBadger -> bool) : option HoneyBadger :=
  match db !! id with
  | Some b => if query b then Some b else None
  | None => None
  end.

Definition save (b : HoneyBadger) (db : gmap string HoneyBadger)
    : gmap string HoneyBadger :=
  <[_id b := b]> db.

(** [updateMany(filter, update)]: the new collection and [modifiedCount]. *)
Definition updateMany (filter : HoneyBadger -> bool)
    (update : HoneyBadger -> HoneyBadger) (db : gmap string HoneyBadger)
    : gmap string HoneyBadger * nat :=
  ((fun b => if filter b then update b else b) <$> db,
   length (List.filter (fun kb => filter (snd kb)) (map_to_list db))).

(** The status stored under an [_id], if a document is. *)
Definition status_of (db : gmap string HoneyBadger) (id : string) : option string :=
  status <$> db !! id.

(** Every document is stored under its own [_id]. *)
Definition well_keyed (db : gmap string HoneyBadger) : Prop :=
  forall k b, db !! k = Some b -> _id b = k.

(** The terminal statuses. *)
Definition terminal : list string := ["completed"; "cancelled"; "expired"].

(** What a handler does once its document is loaded: an answer, and the
    document it saves when it saves one. *)
Definition finish (db : gmap string HoneyBadger)
    (r : Response * option HoneyBadger) : Response * gmap string HoneyBadger :=
  match r with
  | (resp, Some b) => (resp, save b db)
  | (resp, None) => (resp, db)
  end.

(** A handler that saves more than once: its answer and the documents it
    saves, in the order of the saves. *)
Definition finish_all (db : gmap string HoneyBadger)
    (r : Response * list HoneyBadger) : Response * gmap string HoneyBadger :=
  (fst r, fold_left (fun db b => save b db) (snd r) db).

(** The schema declares [task.progress.percentage] a Number with [min: 0]
    and [max: 100]: NaN fails the cast to Number and a value out of the range
    fails the validators, and [save] then throws without writing. *)
Definition percentage_valid (p : JS.number) : bool :=
  match p with
  | JS.Fin q => Qle_bool 0 q && Qle_bool q 100
  | _ => false
  end.

Definition validates (b : HoneyBadger) : bool :=
  percentage_valid (percentage (progress (task b))).

End Model.

(** ** The badger routes: view, status update, cancel *)

Module Badgers.
Import Model.

(** [$or: [{ senderId: user }, { recipientId: user }]] *)
Definition sender_or_recipient (user : string) (b : HoneyBadger) : bool :=
  String.eqb (senderId b) user || String.eqb (recipientId b) user.

Definition is_sender (user : string) (b : HoneyBadger) : bool :=
  String.eqb (senderId b) user.

Definition is_recipient (user : string) (b : HoneyBadger) : bool :=
  String.eqb (recipientId b) user.

(** GET /:id, on the loaded document: the first view by the recipient marks
    a sent badger as received. *)
Definition view_loaded (user : string) (badger : HoneyBadger)
    : Response * option HoneyBadger :=
  if String.eqb (recipientId badger) user && String.eqb (status badger) "sent"
  then (ok, Some (set_status "received" badger))
  else (ok, None).

Definition view (db : gmap string HoneyBadger) (id user : string)
    : Response * gmap string HoneyBadger :=
  match findOne db id (sender_or_recipient user) with
  | None => (failure 404 "Badger not found", db)
  | Some badger => finish db (view_loaded user badger)
  end.

(** PATCH /:id/status *)
Definition allowedTransitions : list (string * list string) :=
  [ ("sent", ["received"; "cancelled"]);
    ("received", ["in-progress"; "cancelled"]);
    ("in-progress", ["awaiting-verification"; "cancelled"]);
    ("awaiting-verification", ["completed"; "in-progress"]) ].

(** [record[key]], [None] for [undefined]. *)
Fixpoint record_get (record : list (string * list string)) (key : string)
    : option (list string) :=
  match record with
  | [] => None
  | (k, v) :: rest => if String.eqb k key then Some v else record_get rest key
  end.

(** [allowedTransitions[from]?.includes(to)], [undefined] read as false. *)
Definition transition_allowed (from to : string) : bool :=
  match record_get allowedTransitions from with
  | Some targets => JS.includes targets to
  | None => false
  end.

Definition invalid_transition (from to : string) : Response :=
  failure 400 ("Invalid status transition from " ++ from ++ " to " ++ to).

Definition updateStatus_loaded (badger : HoneyBadger) (status' : string) (now : Z)
    : Response * option HoneyBadger :=
  if negb (transition_allowed (status badger) status')
  then (invalid_transition (status badger) status', None)
  else
    let badger := set_status status' badger in
    let badger :=
      if String.eqb status' "completed"
      then
        let badger := set_completedAt (Some now) badger in
        let badger := set_progress (set_completed true (progress (task badger))) badger in
        set_progress (set_percentage (JS.of_Z 100) (progress (task badger))) badger
      else badger in
    (ok, Some badger).

Definition updateStatus (db : gmap string HoneyBadger) (id user status' : string)
    (now : Z) : Response * gmap string HoneyBadger :=
  match findOne db id (sender_or_recipient user) with
  | None => (failure 404 "Badger not found", db)
  | Some badger => finish db (updateStatus_loaded badger status' now)
  end.

(** DELETE /:id (only for the sender) *)
Definition cancel_loaded (badger : HoneyBadger) : Response * option HoneyBadger :=
  if String.eqb (status badger) "completed"
  then (failure 400 "Cannot cancel completed badger", None)
  else (ok, Some (set_status "cancelled" badger)).

Definition cancel (db : gmap string HoneyBadger) (id user : string)
    : Response * gmap string HoneyBadger :=
  match findOne db id (is_sender user) with
  | None => (failure 404 "Badger not found or not authorized", db)
  | Some badger => finish db (cancel_loaded badger)
  end.

End Badgers.

(** ** Model methods (the HoneyBadger schema) *)

Module Methods.
Import Model.

(** [addChatMessage(message)]: push the message with a fresh timestamp
    (the method then saves the document). *)
Definition addChatMessage (message : ChatMessage) (now : Z) (b : HoneyBadger)
    : HoneyBadger :=
  set_chat (chat b ++ [{| msg_senderId := msg_senderId message;
                          msg_content := msg_content message;
                          msg_type := msg_type message;
                          msg_timestamp := now |}]) b.

End Methods.

(** ** The task routes: submission, fitness sync, and the two evaluators *)

Module Tasks.
Import Model.

Record TaskProgressResult : Type := {
  tp_percentage : JS.number;
  tp_completed : bool;
  tp_verificationStatus : string
}.

Record FitnessProgressResult : Type := {
  fp_percentage : JS.number;
  fp_completed : bool
}.

Record FitnessData : Type := {
  steps : JS.number;
  exerciseMinutes : JS.number;
  distance : JS.number;
  calories : JS.number
}.

(** One turn of the inner loop of [calculateTaskProgress]: the new value of
    [requirementMet] after looking at one submission. *)
Definition check_submission (requirement : TaskRequirement) (requirementMet : bool)
    (submission : TaskSubmission) : bool :=
  if String.eqb (rtype requirement) (stype submission) then
    if String.eqb (rtype requirement) "photo" || String.eqb (rtype requirement) "video"
    then true
    else if JS.is_number (target requirement) && JS.is_number (content submission)
    then JS.value_geb (content submission) (target requirement)
    else if String.eqb (rtype requirement) "text" && JS.truthy (content submission)
    then true
    else requirementMet
  else requirementMet.

Definition requirement_met (requirement : TaskRequirement)
    (submissions : list TaskSubmission) : bool :=
  fold_left (check_submission requirement) submissions false.

(** The outer loop: [completedRequirements++] for each requirement met. *)
Definition count_completed (reqs : list TaskRequirement)
    (submissions : list TaskSubmission) : JS.number :=
  fold_left
    (fun completedRequirements requirement =>
       if requirement_met requirement submissions
       then JS.add completedRequirements (JS.of_Z 1) else completedRequirements)
    reqs (JS.of_Z 0).

Definition calculateTaskProgress (badger : HoneyBadger)
    (submissions : list TaskSubmission) : TaskProgressResult :=
  let reqs := requirements (task badger) in
  let completedRequirements := count_completed reqs submissions in
  let percentage :=
    JS.round (JS.mul (JS.div completedRequirements (JS.of_nat (length reqs)))
                     (JS.of_Z 100)) in
  let completed := JS.strict_eq percentage (JS.of_Z 100) in
  {| tp_percentage := percentage;
     tp_completed := completed;
     tp_verificationStatus :=
       if String.eqb (verificationMethod (task badger)) "automatic"
       then "approved" else "pending" |}.

(** The body validated by [schemas.submitTask]: at least one submission,
    each of an allowed type and with a non-empty string as content. *)
Definition valid_submission (s : TaskSubmission) : bool :=
  JS.includes ["photo"; "video"; "text"; "data"] (stype s) &&
  match content s with
  | JS.VStr c => negb (String.eqb c "")
  | JS.VNum _ => false
  end.

Definition schemas_submitTask (body : list TaskSubmission) : bool :=
  (0 <? length body)%nat && forallb valid_submission body.

Section Fitness.
(** The conversion of a string to a number that [/] applies to a textual
    target. *)
Variable ToNumber : string -> JS.number.

Definition to_number (v : JS.value) : JS.number :=
  match v with
  | JS.VNum n => n
  | JS.VStr s => ToNumber s
  end.

(** The [switch] of [calculateFitnessProgress]: the observed metric for
    the requirement's type, when it is a fitness type. *)
Definition metric (fitnessData : FitnessData) (type : string) : option JS.number :=
  if String.eqb type "step-count" then Some (steps fitnessData)
  else if String.eqb type "exercise-minutes" then Some (exerciseMinutes fitnessData)
  else if String.eqb type "distance" then Some (distance fitnessData)
  else if String.eqb type "calories" then Some (calories fitnessData)
  else None.

Definition requirement_progress (fitnessData : FitnessData)
    (requirement : TaskRequirement) : JS.number :=
  match metric fitnessData (rtype requirement) with
  | Some observed =>
      JS.min (JS.div observed (to_number (target requirement))) (JS.of_Z 1)
  | None => JS.of_Z 0
  end.

(** The loop of [calculateFitnessProgress], on the pair
    [(totalProgress, completedRequirements)]. *)
Definition fitness_step (fitnessData : FitnessData) (acc : JS.number * JS.number)
    (requirement : TaskRequirement) : JS.number * JS.number :=
  let '(totalProgress, completedRequirements) := acc in
  let progress := requirement_progress fitnessData requirement in
  (JS.add totalProgress progress,
   if JS.geb progress (JS.of_Z 1)
   then JS.add completedRequirements (JS.of_Z 1) else completedRequirements).

Definition fitness_loop (fitnessData : FitnessData) (reqs : list TaskRequirement)
    : JS.number * JS.number :=
  fold_left (fitness_step fitnessData) reqs (JS.of_Z 0, JS.of_Z 0).

Definition calculateFitnessProgress (badger : HoneyBadger)
    (fitnessData : FitnessData) : FitnessProgressResult :=
  let reqs := requirements (task badger) in
  let '(totalProgress, completedRequirements) := fitness_loop fitnessData reqs in
  {| fp_percentage :=
       JS.round (JS.mul (JS.div totalProgress (JS.of_nat (length reqs)))
                        (JS.of_Z 100));
     fp_completed := JS.strict_eq completedRequirements (JS.of_nat (length reqs)) |}.

(** POST /:badgerId/sync-fitness on the loaded document; [fitnessData] is
    what [fitnessService.syncUserData] returned, [None] when it threw;
    [t_updated] and [t_completed] are the clock readings for [lastUpdated] and
    [completedAt]. The [save] throws when the document does not validate, and
    the route's [catch] answers 500. *)
Definition syncFitness_loaded (badger : HoneyBadger)
    (fitnessData : option FitnessData) (t_updated t_completed : Z)
    : Response * option HoneyBadger :=
  if negb (String.eqb (ttype (task badger)) "fitness")
  then (failure 400 "Task is not fitness-related", None)
  else
    match fitnessData with
    | None => (failure 500 "Failed to sync fitness data", None)
    | Some fitnessData =>
        let result := calculateFitnessProgress badger fitnessData in
        let badger := set_progress (set_percentage (fp_percentage result) (progress (task badger))) badger in
        let badger := set_progress (set_completed (fp_completed result) (progress (task badger))) badger in
        let badger := set_progress (set_lastUpdated t_updated (progress (task badger))) badger in
        let badger :=
          if fp_completed result && negb (String.eqb (status badger) "completed")
          then set_completedAt (Some t_completed) (set_status "completed" badger)
          else badger in
        if validates badger
        then (ok, Some badger)
        else (failure 500 "Failed to sync fitness data", None)
    end.

Definition syncFitness (db : gmap string HoneyBadger) (badgerId user : string)
    (fitnessData : option FitnessData) (t_updated t_completed : Z)
    : Response * gmap string HoneyBadger :=
  match findOne db badgerId (Badgers.is_recipient user) with
  | None => (failure 404 "Badger not found", db)
  | Some badger =>
      finish db (syncFitness_loaded badger fitnessData t_updated t_completed)
  end.
End Fitness.

(** The [map] over the body in the submission route: stamp each submission
    with the clock reading [now] taken for it, and point a photo or video at
    its uploaded file when there is one at the same index. *)
Definition process_submission (uploadedFiles : list string) (now : Z)
    (index : nat) (submission : TaskSubmission) : TaskSubmission :=
  let url :=
    if String.eqb (stype submission) "photo" || String.eqb (stype submission) "video"
    then match uploadedFiles !! index with
         | Some u => if String.eqb u "" then None else Some u
         | None => None
         end
    else None in
  {| stype := stype submission;
     content := match url with Some u => JS.VStr u | None => content submission end;
     timestamp := now |}.

(** The status update that follows the recomputation of progress. *)
Definition status_after_submit (badger : HoneyBadger) (completed : bool) (now : Z)
    : HoneyBadger :=
  if completed then
    let badger :=
      set_status (if String.eqb (verificationMethod (task badger)) "automatic"
                  then "completed" else "awaiting-verification") badger in
    if String.eqb (status badger) "completed"
    then set_completedAt (Some now) badger
    else badger
  else if String.eqb (status badger) "received"
  then set_status "in-progress" badger
  else badger.

(** POST /:badgerId/submit on the loaded document. [uploadedFiles] are the
    URLs returned by the object store ([None] when an upload threw) and
    [aiResponse] the companion's answer, which has a canned fallback and so
    always exists. The clock is read once for each submission of the body
    ([t_stamp index]), then for [lastUpdated], for [completedAt] and, after
    the first save and the companion's answer, by [addChatMessage], which
    saves again. The answer comes with the documents saved, in order; the
    first [save] throws when the document does not validate, and the route's
    [catch] answers 500. *)
Definition submit_loaded (badger : HoneyBadger) (body : list TaskSubmission)
    (uploadedFiles : option (list string)) (aiResponse : string)
    (t_stamp : nat -> Z) (t_updated t_completed t_chat : Z)
    : Response * list HoneyBadger :=
  if negb (JS.includes ["received"; "in-progress"; "awaiting-verification"] (status badger))
  then (failure 400 "Cannot submit to badger in current status", [])
  else
    match uploadedFiles with
    | None => (failure 500 "Failed to process task submission", [])
    | Some uploadedFiles =>
        let processedSubmissions :=
          imap (fun index => process_submission uploadedFiles (t_stamp index) index) body in
        let badger :=
          set_progress (set_submissions (submissions (progress (task badger)) ++ processedSubmissions)
                          (progress (task badger))) badger in
        let result := calculateTaskProgress badger processedSubmissions in
        let badger := set_progress (set_percentage (tp_percentage result) (progress (task badger))) badger in
        let badger := set_progress (set_completed (tp_completed result) (progress (task badger))) badger in
        let badger := set_progress (set_verificationStatus (tp_verificationStatus result) (progress (task badger))) badger in
        let badger := set_progress (set_lastUpdated t_updated (progress (task badger))) badger in
        let badger := status_after_submit badger (tp_completed result) t_completed in
        if validates badger then
          let answered :=
            Methods.addChatMessage
              {| msg_senderId := "badger"; msg_content := aiResponse;
                 msg_type := "text"; msg_timestamp := t_chat |} t_chat badger in
          (ok, [badger; answered])
        else (failure 500 "Failed to process task submission", [])
    end.

Definition submit (db : gmap string HoneyBadger) (badgerId user : string)
    (body : list TaskSubmission) (uploadedFiles : option (list string))
    (aiResponse : string) (t_stamp : nat -> Z) (t_updated t_completed t_chat : Z)
    : Response * gmap string HoneyBadger :=
  if negb (schemas_submitTask body)
  then (failure 400 "Validation failed", db)
  else
    match findOne db badgerId (Badgers.is_recipient user) with
    | None => (failure 404 "Badger not found or not authorized", db)
    | Some badger =>
        finish_all db
          (submit_loaded badger body uploadedFiles aiResponse
             t_stamp t_updated t_completed t_chat)
    end.

End Tasks.

(** ** The cron sweeps that write a status *)

Module Cron.
Import Model.

(** [{ $lt: now }] on a date field; a null date matches nothing. *)
Definition date_lt (d : option Z) (now : Z) : bool :=
  match d with
  | Some t => t <? now
  | None => false
  end.

(** The [updateMany] at the end of [checkDeadlines] ("Mark expired
    badgers"). *)
Definition deadline_filter (now : Z) (b : HoneyBadger) : bool :=
  JS.includes ["received"; "in-progress"] (status b) &&
  date_lt (deadline (task b)) now.

Definition checkDeadlines (now : Z) (db : gmap string HoneyBadger)
    : gmap string HoneyBadger * nat :=
  updateMany (deadline_filter now) (set_status "expired") db.

(** [cleanupExpiredBadgers]: the expiration sweep. *)
Definition cleanup_filter (now : Z) (b : HoneyBadger) : bool :=
  negb (JS.includes ["completed"; "cancelled"; "expired"] (status b)) &&
  date_lt (expiresAt b) now.

Definition cleanupExpiredBadgers (now : Z) (db : gmap string HoneyBadger)
    : gmap string HoneyBadger * nat :=
  updateMany (cleanup_filter now) (set_status "expired") db.

End Cron.

(** ** Chat history and analytics *)

Module Chat.
Import Model.

(** GET /:badgerId: [page] and [limit] are the integers read by [parseInt]. *)
Definition getChatPage (chat : list ChatMessage) (page limit : Z)
    : list ChatMessage :=
  let skip := (page - 1) * limit in
  rev (JS.slice (rev chat) skip (skip + limit)).

(** [Math.ceil(a / b)] for integers [a] and [b > 0]. *)
Definition ceil_div (a b : Z) : Z := - ((- a) / b).

Definition userMessages (messages : list ChatMessage) : nat :=
  length (List.filter (fun msg => negb (String.eqb (msg_senderId msg) "badger")) messages).

Definition totalDays (messages : list ChatMessage) (now : Z) : Z :=
  match messages with
  | [] => 1
  | first :: _ =>
      Z.max 1 (ceil_div (now - msg_timestamp first) (1000 * 60 * 60 * 24))
  end.

Definition messagesPerDay (messages : list ChatMessage) (now : Z) : Q :=
  (inject_Z (Z.of_nat (userMessages messages)) / inject_Z (totalDays messages now))%Q.

Definition calculateEngagementLevel (messages : list ChatMessage) (now : Z) : string :=
  if Nat.eqb (length messages) 0 then "none"
  else
    let messagesPerDay := messagesPerDay messages now in
    if Qle_bool 3 messagesPerDay then "high"
    else if Qle_bool 1 messagesPerDay then "medium"
    else if negb (Qle_bool messagesPerDay 0) then "low"
    else "none".

End Chat.

(** ** A user transition racing a forced expiration

    The status route loads the document ([findOne]), decides in memory and
    then saves; each forced expiration is one [updateMany]. The interleavings
    of the two are the schedules of three atomic steps. The route's [save]
    writes the status it assigned under the document's [_id], and the schema
    declares no optimistic concurrency, so neither write is conditional on
    what the other side read. *)

Module Race.
Import Model.

(** The two sweeps that force a status. *)
Inductive Sweeper : Type :=
| Deadline      (* the updateMany of checkDeadlines *)
| Expiry.       (* cleanupExpiredBadgers *)

Definition sweep_filter (s : Sweeper) (now : Z) : HoneyBadger -> bool :=
  match s with
  | Deadline => Cron.deadline_filter now
  | Expiry => Cron.cleanup_filter now
  end.

Definition force_expire (s : Sweeper) (now : Z) (db : gmap string HoneyBadger)
    : gmap string HoneyBadger * nat :=
  match s with
  | Deadline => Cron.checkDeadlines now db
  | Expiry => Cron.cleanupExpiredBadgers now db
  end.

Inductive Step : Type :=
| UserFind               (* the route's findOne *)
| UserSave               (* the route's check, assignment and save *)
| Sweep (s : Sweeper).   (* one forced expiration *)

Record Request : Type := {
  req_id : string;
  req_user : string;
  req_status : string;
  req_now : Z
}.

Record World : Type := {
  db : gmap string HoneyBadger;
  loaded : option HoneyBadger;       (* the document held by the route *)
  response : option Response;        (* the route's answer, once given *)
  modifiedCount : option nat         (* the sweep's result, once run *)
}.

Definition initial (db0 : gmap string HoneyBadger) : World :=
  {| db := db0; loaded := None; response := None; modifiedCount := None |}.

Definition step (rq : Request) (sweep_now : Z) (w : World) (s : Step) : World :=
  match s with
  | UserFind =>
      match findOne (db w) (req_id rq) (Badgers.sender_or_recipient (req_user rq)) with
      | None =>
          {| db := db w; loaded := None;
             response := Some (failure 404 "Badger not found");
             modifiedCount := modifiedCount w |}
      | Some badger =>
          {| db := db w; loaded := Some badger; response := response w;
             modifiedCount := modifiedCount w |}
      end
  | UserSave =>
      match loaded w with
      | None => w
      | Some badger =>
          let r := finish (db w)
                     (Badgers.updateStatus_loaded badger (req_status rq) (req_now rq)) in
          {| db := snd r; loaded := None; response := Some (fst r);
             modifiedCount := modifiedCount w |}
      end
  | Sweep sweeper =>
      let r := force_expire sweeper sweep_now (db w) in
      {| db := fst r; loaded := loaded w; response := response w;
         modifiedCount := Some (snd r) |}
  end.

Definition run (rq : Request) (sweep_now : Z) (schedule : list Step) (w : World)
    : World :=
  fold_left (step rq sweep_now) schedule w.

(** The answers the status route has: none yet, success, not found, or
    an invalid transition. *)
Definition route_answer (status' : string) (r : option Response) : Prop :=
  match r with
  | None => True
  | Some resp =>
      resp = ok \/ resp = failure 404 "Badger not found" \/
      exists from, resp = Badgers.invalid_transition from status'
  end.

Definition user_succeeded (w : World) : bool :=
  match response w with
  | Some r => success r
  | None => false
  end.

Definition sweep_succeeded (w : World) : bool :=
  match modifiedCount w with
  | Some n => (0 <? n)%nat
  | None => false
  end.

End Race.

(** ** The specification's own formulations, for comparison with the code *)

Module Spec.
Import Model.

(** The explicit transition table, as pairs (current, requested). *)
Definition transition_table : list (string * string) :=
  [ ("sent", "received"); ("sent", "cancelled");
    ("received", "in-progress"); ("received", "cancelled");
    ("in-progress", "awaiting-verification"); ("in-progress", "cancelled");
    ("awaiting-verification", "completed"); ("awaiting-verification", "in-progress") ].

(** "The submission's content parses to a number": the value of a decimal
    numeral, and NaN for any other text. *)
Fixpoint digits_value (acc : Z) (s : string) : option Z :=
  match s with
  | EmptyString => Some acc
  | String c rest =>
      let n := Z.of_N (Ascii.N_of_ascii c) in
      if (48 <=? n) && (n <=? 57)
      then digits_value (10 * acc + (n - 48)) rest
      else None
  end.

Definition parse_number (v : JS.value) : JS.number :=
  match v with
  | JS.VNum n => n
  | JS.VStr EmptyString => JS.NaN
  | JS.VStr s =>
      match digits_value 0 s with
      | Some z => JS.of_Z z
      | None => JS.NaN
      end
  end.

(** Clause (b) of the satisfaction rule, as worded: the batch has a
    submission of the requirement's type whose content parses to a number at
    least the (numeric) target. *)
Definition numeric_satisfied (r : TaskRequirement) (batch : list TaskSubmission) : bool :=
  match target r with
  | JS.VNum t =>
      existsb (fun s => String.eqb (rtype r) (stype s) &&
                        JS.geb (parse_number (content s)) t) batch
  | JS.VStr _ => false
  end.



(** The pagination contract read literally: the entries of the reversed
    log whose position lies in the window from [skip] (included) to
    [skip + limit] (excluded), put back in chronological order. *)
Fixpoint window_from {A : Type} (i : nat) (lo hi : Z) (l : list A) : list A :=
  match l with
  | [] => []
  | x :: rest =>
      if (lo <=? Z.of_nat i) && (Z.of_nat i <? hi)
      then x :: window_from (S i) lo hi rest
      else window_from (S i) lo hi rest
  end.

Definition page_by_window (chat : list ChatMessage) (page limit : Z)
    : list ChatMessage :=
  let skip := (page - 1) * limit in
  rev (window_from 0 skip (skip + limit) (rev chat)).

(** An operation on the collection under which the terminal statuses are
    absorbing: a stored delivery with a terminal status keeps it. *)
Definition absorbing
    (op : gmap string HoneyBadger -> gmap string HoneyBadger) : Prop :=
  forall (db : gmap string HoneyBadger) (id : string) (b : HoneyBadger),
    well_keyed db -> db !! id = Some b -> In (status b) terminal ->
    status_of (op db) id = Some (status b).

(** "Exactly one succeeds", of a transition request and a forced
    expiration that raced. *)
Definition exactly_one_succeeds (w : Race.World) : Prop :=
  xorb (Race.user_succeeded w) (Race.sweep_succeeded w) = true.

End Spec.

(** ** Sample documents *)

Module Samples.
Import Model.

Definition requirement (type : string) (t : JS.value) : TaskRequirement :=
  {| rtype := type; target := t; description := "requirement" |}.

Definition fresh_progress : TaskProgress :=
  {| completed := false; percentage := JS.of_Z 0; submissions := [];
     verificationStatus := "pending"; lastUpdated := 0 |}.

(** A badger from alice to bob. *)
Definition badger (st type : string) (reqs : list TaskRequirement)
    (method : string) (expires : option Z) : HoneyBadger :=
  {| _id := "b1"; senderId := "alice"; recipientId := "bob"; status := st;
     task := {| ttype := type; requirements := reqs; verificationMethod := method;
                deadline := None; progress := fresh_progress |};
     chat := []; expiresAt := expires; completedAt := None |}.

Definition text_task : list TaskRequirement :=
  [requirement "text" (JS.VStr "n/a")].

Definition message (sender : string) (t : Z) : ChatMessage :=
  {| msg_senderId := sender; msg_content := "hello"; msg_type := "text";
     msg_timestamp := t |}.

(** Five messages with timestamps 1 < 2 < 3 < 4 < 5. *)
Definition five_messages : list ChatMessage :=
  [message "badger" 1; message "bob" 2; message "badger" 3; message "bob" 4;
   message "badger" 5].

Definition day : Z := 1000 * 60 * 60 * 24.

(** The companion's welcome at time 0 and four messages of the recipient. *)
Definition four_user_messages : list ChatMessage :=
  [message "badger" 0; message "bob" 1000; message "bob" 2000;
   message "bob" day; message "bob" (day + 1000)].

(** The snapshot and the requirements of the fitness example. *)
Definition snapshot : Tasks.FitnessData :=
  {| Tasks.steps := JS.of_Z 5000; Tasks.exerciseMinutes := JS.of_Z 0;
     Tasks.distance := JS.of_Z 5; Tasks.calories := JS.of_Z 0 |}.

Definition fitness_requirements : list TaskRequirement :=
  [requirement "step-count" (JS.VNum (JS.of_Z 10000));
   requirement "distance" (JS.VNum (JS.of_Z 5))].

Definition fitness_badger : HoneyBadger :=
  badger "in-progress" "fitness" fitness_requirements "automatic" None.

(** A snapshot that meets both requirements. *)
Definition full_snapshot : Tasks.FitnessData :=
  {| Tasks.steps := JS.of_Z 12000; Tasks.exerciseMinutes := JS.of_Z 30;
     Tasks.distance := JS.of_Z 5; Tasks.calories := JS.of_Z 400 |}.

Definition submission (type : string) (c : string) : TaskSubmission :=
  {| stype := type; content := JS.VStr c; timestamp := 0 |}.

(** A text requirement and a photo requirement, and a batch with one
    submission for each. *)
Definition text_photo_badger : HoneyBadger :=
  badger "received" "custom"
    [requirement "text" (JS.VStr "n/a"); requirement "photo" (JS.VStr "n/a")]
    "manual" None.

Definition text_photo_batch : list TaskSubmission :=
  [submission "text" "done"; submission "photo" "https://files/1.jpg"].

(** A text requirement with the numeric target 5, and a text submission
    whose content is the numeral 3. *)
Definition numeric_text_badger : HoneyBadger :=
  badger "received" "custom" [requirement "text" (JS.VNum (JS.of_Z 5))] "manual" None.

Definition three_batch : list TaskSubmission := [submission "text" "3"].

(** An in-progress badger whose task deadline is 100. *)
Definition deadline_badger : HoneyBadger :=
  {| _id := "b1"; senderId := "alice"; recipientId := "bob"; status := "in-progress";
     task := {| ttype := "custom"; requirements := text_task;
                verificationMethod := "manual"; deadline := Some 100;
                progress := fresh_progress |};
     chat := []; expiresAt := None; completedAt := None |}.

(** A textual target that is not a numeral converts to NaN. *)
Definition ToNumber_NaN (s : string) : JS.number := JS.NaN.

End Samples.

(** ** The chat routes: sending a message, analytics *)

Module Messages.
Import Model.

(** [schemas.sendMessage]: a content of 1 to 2000 characters and, when
    given, a type among text, image and audio. *)
Definition schemas_sendMessage (content : string) (type : option string) : bool :=
  (1 <=? String.length content)%nat && (String.length content <=? 2000)%nat &&
  match type with
  | Some t => JS.includes ["text"; "image"; "audio"] t
  | None => true
  end.

(** POST /:badgerId/messages on the loaded document. [aiContent] is the
    companion's answer (the generator has a canned fallback); [t_user] and
    [t_ai] are the clock readings of the two [addChatMessage] calls. *)
Definition sendMessage_loaded (badger : HoneyBadger) (user content : string)
    (type : option string) (aiContent : string) (t_user t_ai : Z)
    : Response * option HoneyBadger :=
  if JS.includes ["completed"; "cancelled"; "expired"] (status badger)
  then (failure 400 "Cannot send messages to inactive badger", None)
  else
    let userMessage :=
      {| msg_senderId := user; msg_content := content;
         msg_type := match type with Some t => t | None => "text" end;
         msg_timestamp := t_user |} in
    let badger := Methods.addChatMessage userMessage t_user badger in
    let aiMessage :=
      {| msg_senderId := "badger"; msg_content := aiContent; msg_type := "text";
         msg_timestamp := t_ai |} in
    let badger := Methods.addChatMessage aiMessage t_ai badger in
    (ok, Some badger).

Definition sendMessage (db : gmap string HoneyBadger) (badgerId user content : string)
    (type : option string) (aiContent : string) (t_user t_ai : Z)
    : Response * gmap string HoneyBadger :=
  if negb (schemas_sendMessage content type)
  then (failure 400 "Validation failed", db)
  else
    match findOne db badgerId (Badgers.sender_or_recipient user) with
    | None => (failure 404 "Badger not found", db)
    | Some badger =>
        finish db (sendMessage_loaded badger user content type aiContent t_user t_ai)
    end.

Definition is_badger (msg : ChatMessage) : bool :=
  String.eqb (msg_senderId msg) "badger".

(** One turn of the loop of [calculateAverageResponseTime], on
    [(totalTime, responseCount)] and the pair [(messages[i-1], messages[i])]. *)
Definition response_step (acc : Z * nat) (pair : ChatMessage * ChatMessage)
    : Z * nat :=
  let '(totalTime, responseCount) := acc in
  let '(previous, current) := pair in
  if is_badger current && negb (is_badger previous)
  then (totalTime + (msg_timestamp current - msg_timestamp previous), S responseCount)
  else (totalTime, responseCount).

(** The pairs [(messages[i-1], messages[i])] for [i] from 1. *)
Definition adjacent (messages : list ChatMessage) : list (ChatMessage * ChatMessage) :=
  zip messages (tl messages).

Definition response_totals (messages : list ChatMessage) : Z * nat :=
  fold_left response_step (adjacent messages) (0, 0%nat).

(** [calculateAverageResponseTime]: whole seconds. *)
Definition calculateAverageResponseTime (messages : list ChatMessage) : Z :=
  if (length messages <? 2)%nat then 0
  else
    let '(totalTime, responseCount) := response_totals messages in
    if (0 <? responseCount)%nat
    then Qfloor (inject_Z totalTime / inject_Z (Z.of_nat responseCount) / 1000 + (1 # 2))
    else 0.

Record Analytics : Type := {
  totalMessages : nat;
  an_userMessages : nat;
  badgerMessages : nat;
  averageResponseTime : Z;
  engagementLevel : string;
  lastActivity : Z;
  taskProgress : JS.number;
  an_status : string
}.

(** GET /:badgerId/analytics on the loaded document; [createdAt] is the
    document's creation stamp. *)
Definition chatAnalytics (badger : HoneyBadger) (createdAt now : Z) : Analytics :=
  {| totalMessages := length (chat badger);
     an_userMessages :=
       length (List.filter (fun msg => negb (is_badger msg)) (chat badger));
     badgerMessages := length (List.filter is_badger (chat badger));
     averageResponseTime := calculateAverageResponseTime (chat badger);
     engagementLevel := Chat.calculateEngagementLevel (chat badger) now;
     lastActivity :=
       match last (chat badger) with
       | Some msg => msg_timestamp msg
       | None => createdAt
       end;
     taskProgress := percentage (progress (task badger));
     an_status := status badger |}.

(** The log is in chronological order. *)
Fixpoint chronological (messages : list ChatMessage) : Prop :=
  match messages with
  | [] => True
  | m :: rest =>
      match rest with
      | [] => True
      | m' :: _ => msg_timestamp m <= msg_timestamp m' /\ chronological rest
      end
  end.

(** The pages [k], [k-1], ..., 1 of the chat history, one after the other. *)
Fixpoint pages_down (chat : list ChatMessage) (k : nat) (limit : Z)
    : list ChatMessage :=
  match k with
  | O => []
  | S k' => (Chat.getChatPage chat (Z.of_nat k) limit ++ pages_down chat k' limit)%list
  end.

End Messages.

(** ** The reminder and deadline notifications of the cron service *)

Module Notices.
Import Model.

(** What the sweeps read of a populated recipient. *)
Record User : Type := {
  badgerReminders : bool;            (* preferences.notifications.badgerReminders *)
  communicationFrequency : string    (* preferences.badgerPersonality.communicationFrequency *)
}.

Definition hour : Z := 1000 * 60 * 60.

(** Hours since the last chat message, 24 when there is none. *)
Definition hoursSinceLastMessage (badger : HoneyBadger) (now : Z) : Q :=
  match last (chat badger) with
  | Some lastMessage => (inject_Z (now - msg_timestamp lastMessage) / inject_Z hour)%Q
  | None => 24%Q
  end.

(** The [switch] on the recipient's communication frequency. *)
Definition shouldSend (frequency : string) (hours : Q) : bool :=
  if String.eqb frequency "high" then Qle_bool 4 hours
  else if String.eqb frequency "medium" then Qle_bool 12 hours
  else if String.eqb frequency "low" then Qle_bool 24 hours
  else false.

(** The query of [sendTaskReminders]. *)
Definition reminder_filter (now : Z) (b : HoneyBadger) : bool :=
  JS.includes ["received"; "in-progress"] (status b) &&
  (lastUpdated (progress (task b)) <? now - 24 * 60 * 60 * 1000).

(** The loop of [sendTaskReminders] over the badgers found: the [_id]s of
    the badgers whose recipient is reminded, and [false] when a recipient could
    not be populated, which aborts the sweep at that badger. *)
Fixpoint remind (users : gmap string User) (now : Z) (badgers : list HoneyBadger)
    : list string * bool :=
  match badgers with
  | [] => ([], true)
  | badger :: rest =>
      match users !! recipientId badger with
      | None => ([], false)
      | Some recipient =>
          let here :=
            if badgerReminders recipient &&
               shouldSend (communicationFrequency recipient)
                 (hoursSinceLastMessage badger now)
            then [_id badger] else [] in
          let '(sent, finished) := remind users now rest in
          ((here ++ sent)%list, finished)
      end
  end.

(** The loop reminds the recipient of this badger: the recipient is known,
    has the reminder flag on and is due by cadence. *)
Definition reminded (users : gmap string User) (now : Z) (b : HoneyBadger) : Prop :=
  exists recipient,
    users !! recipientId b = Some recipient /\
    badgerReminders recipient = true /\
    shouldSend (communicationFrequency recipient) (hoursSinceLastMessage b now) = true.

Definition sendTaskReminders (users : gmap string User) (now : Z)
    (db : gmap string HoneyBadger) : list string * bool :=
  remind users now
    (List.filter (reminder_filter now) (snd <$> map_to_list db)).

(** The query of the first part of [checkDeadlines]: a deadline within the
    next 24 hours. *)
Definition deadline_soon (now : Z) (b : HoneyBadger) : bool :=
  JS.includes ["received"; "in-progress"] (status b) &&
  match deadline (task b) with
  | Some d => (now <=? d) && (d <=? now + 24 * 60 * 60 * 1000)
  | None => false
  end.

Definition hoursUntilDeadline (now : Z) (b : HoneyBadger) : Z :=
  match deadline (task b) with
  | Some d => Chat.ceil_div (d - now) hour
  | None => 0
  end.

(** The deadline notifications of one run: the key of each badger found and
    the hours announced. *)
Definition deadline_notices (now : Z) (db : gmap string HoneyBadger)
    : list (string * Z) :=
  (fun kb => (fst kb, hoursUntilDeadline now (snd kb))) <$>
  List.filter (fun kb => deadline_soon now (snd kb)) (map_to_list db).

End Notices.

(** ** The fitness service: aggregation and goal validation *)

Module FitnessService.
Import Model.

(** [Math.max(a, b)] *)
Definition max (a b : JS.number) : JS.number :=
  match a, b with
  | JS.NaN, _ | _, JS.NaN => JS.NaN
  | JS.PosInf, _ | _, JS.PosInf => JS.PosInf
  | JS.NegInf, x | x, JS.NegInf => x
  | JS.Fin x, JS.Fin y => if Qle_bool x y then JS.Fin y else JS.Fin x
  end.

(** A connected platform: whether it is active, and what syncing from it
    returned ([None] when it threw). *)
Record Integration : Type := {
  isActive : bool;
  platformData : option Tasks.FitnessData
}.

Definition no_data : Tasks.FitnessData :=
  {| Tasks.steps := JS.of_Z 0; Tasks.exerciseMinutes := JS.of_Z 0;
     Tasks.distance := JS.of_Z 0; Tasks.calories := JS.of_Z 0 |}.

(** "Aggregate data (take maximum values to avoid duplicates)". *)
Definition aggregate (fitnessData platform : Tasks.FitnessData) : Tasks.FitnessData :=
  {| Tasks.steps := max (Tasks.steps fitnessData) (Tasks.steps platform);
     Tasks.exerciseMinutes :=
       max (Tasks.exerciseMinutes fitnessData) (Tasks.exerciseMinutes platform);
     Tasks.distance := max (Tasks.distance fitnessData) (Tasks.distance platform);
     Tasks.calories := max (Tasks.calories fitnessData) (Tasks.calories platform) |}.

Definition sync_step (fitnessData : Tasks.FitnessData) (integration : Integration)
    : Tasks.FitnessData :=
  if isActive integration then
    match platformData integration with
    | Some platform => aggregate fitnessData platform
    | None => fitnessData
    end
  else fitnessData.

(** [syncUserData] over the user's integrations. *)
Definition syncUserData (fitnessIntegrations : list Integration) : Tasks.FitnessData :=
  fold_left sync_step fitnessIntegrations no_data.

Record GoalCheck : Type := {
  met : bool;
  goal_progress : JS.number;
  current : JS.number
}.

Section Goal.
Variable ToNumber : string -> JS.number.

(** [validateFitnessGoal(requirement, fitnessData)] *)
Definition validateFitnessGoal (requirement : TaskRequirement)
    (fitnessData : Tasks.FitnessData) : GoalCheck :=
  let current :=
    match Tasks.metric fitnessData (rtype requirement) with
    | Some observed => observed
    | None => JS.of_Z 0
    end in
  let target := Tasks.to_number ToNumber (target requirement) in
  {| met := JS.geb current target;
     goal_progress := JS.min (JS.mul (JS.div current target) (JS.of_Z 100)) (JS.of_Z 100);
     current := current |}.
End Goal.

(** A finite number that is not negative (and a double, as every number
    is). *)
Definition finite_nonneg (n : JS.number) : Prop :=
  match n with
  | JS.Fin q => (0 <= q)%Q /\ JS.is_double q
  | _ => False
  end.

Definition sane (d : Tasks.FitnessData) : Prop :=
  finite_nonneg (Tasks.steps d) /\ finite_nonneg (Tasks.exerciseMinutes d) /\
  finite_nonneg (Tasks.distance d) /\ finite_nonneg (Tasks.calories d).

(** [a <= b] on numbers, as a proposition on finite ones. *)
Definition le (a b : JS.number) : Prop :=
  match a, b with
  | JS.Fin x, JS.Fin y => (x <= y)%Q
  | _, _ => False
  end.

(** Every metric of [d] is at most the same metric of [r]. *)
Definition dominated (d r : Tasks.FitnessData) : Prop :=
  le (Tasks.steps d) (Tasks.steps r) /\
  le (Tasks.exerciseMinutes d) (Tasks.exerciseMinutes r) /\
  le (Tasks.distance d) (Tasks.distance r) /\
  le (Tasks.calories d) (Tasks.calories r).

(** A requirement whose target is a number: a finite, positive double. *)
Definition positive_target (r : TaskRequirement) : Prop :=
  exists t, target r = JS.VNum (JS.Fin t) /\ (0 < t)%Q /\ JS.is_double t.

End FitnessService.

(** ** The per-user rate limit (auth middleware over a Redis counter) *)

Module RateLimit.

(** A key of the store: its value and the second at which it expires. *)
Record Counter : Type := {
  count : Z;
  expires : Z
}.

(** The value of a key at time [now], 0 when it is absent or has expired. *)
Definition live (store : gmap string Counter) (key : string) (now : Z) : Z :=
  match store !! key with
  | Some c => if now <? expires c then count c else 0
  | None => 0
  end.

(** [redisUtils.incrementCounter]: INCR then EXPIRE in one transaction;
    an EXPIRE that is not positive deletes the key; 0 when Redis fails. *)
Definition incrementCounter (redis_up : bool) (key : string) (windowInSeconds now : Z)
    (store : gmap string Counter) : Z * gmap string Counter :=
  if redis_up then
    let n := live store key now + 1 in
    (n, if windowInSeconds <=? 0 then delete key store
        else <[key := {| count := n; expires := now + windowInSeconds |}]> store)
  else (0, store).

Inductive Outcome : Type :=
| Next (remaining : option Z)   (* passed on, with X-RateLimit-Remaining when set *)
| TooManyRequests.              (* 429 *)

Definition rate_key (user : string) : string := "rate_limit:user:" ++ user.

(** [userRateLimit(maxRequests, windowMinutes)] for the request of [user]
    ([None] when the request carries no user) at second [now]. *)
Definition userRateLimit (maxRequests windowMinutes : Z) (redis_up : bool)
    (user : option string) (now : Z) (store : gmap string Counter)
    : Outcome * gmap string Counter :=
  match user with
  | None => (Next None, store)
  | Some id =>
      let '(n, store') :=
        incrementCounter redis_up (rate_key id) (windowMinutes * 60) now store in
      if maxRequests <? n then (TooManyRequests, store')
      else (Next (Some (Z.max 0 (maxRequests - n))), store')
  end.

(** A request to some rate-limited route: its time and the route's limits. *)
Record Hit : Type := {
  hit_time : Z;
  hit_max : Z;
  hit_window : Z     (* minutes *)
}.

(** The outcomes of a user's requests, in order, with Redis up. *)
Fixpoint serve (user : string) (store : gmap string Counter) (hits : list Hit)
    : list Outcome :=
  match hits with
  | [] => []
  | h :: rest =>
      let '(o, store') :=
        userRateLimit (hit_max h) (hit_window h) true (Some user) (hit_time h) store in
      o :: serve user store' rest
  end.

(** Each request arrives before the key set by the previous one expires. *)
Fixpoint burst (expiry : Z) (hits : list Hit) : Prop :=
  match hits with
  | [] => True
  | h :: rest =>
      hit_time h < expiry /\ 0 < hit_window h /\
      burst (hit_time h + hit_window h * 60) rest
  end.

(** The outcome for the [n]-th counted request on a route allowing [max]. *)
Definition outcome_of (max n : Z) : Outcome :=
  if max <? n then TooManyRequests else Next (Some (Z.max 0 (max - n))).

End RateLimit.

(** ** More sample documents *)

Module Scenes.
Import Model.

(** bob's badger with the five-message log. *)
Definition chatty_badger : HoneyBadger :=
  set_chat Samples.five_messages
    (Samples.badger "in-progress" "custom" Samples.text_task "manual" None).

(** A badger whose task is due at 5 hours and a half after time 0. *)
Definition due_badger : HoneyBadger :=
  {| _id := "b1"; senderId := "alice"; recipientId := "bob"; status := "received";
     task := {| ttype := "custom"; requirements := Samples.text_task;
                verificationMethod := "manual";
                deadline := Some (5 * Notices.hour + Notices.hour / 2);
                progress := Samples.fresh_progress |};
     chat := []; expiresAt := None; completedAt := None |}.

(** A task of forty requirements, 23 asking for a text and 17 for a photo. *)
Definition forty_badger : HoneyBadger :=
  Samples.badger "received" "custom"
    (repeat (Samples.requirement "text" (JS.VStr "n/a")) 23 ++
     repeat (Samples.requirement "photo" (JS.VStr "n/a")) 17)%list
    "manual" None.

Definition bob : Notices.User :=
  {| Notices.badgerReminders := true; Notices.communicationFrequency := "medium" |}.

Definition strava : FitnessService.Integration :=
  {| FitnessService.isActive := true;
     FitnessService.platformData := Some Samples.snapshot |}.

Definition fitbit : FitnessService.Integration :=
  {| FitnessService.isActive := true;
     FitnessService.platformData := Some Samples.full_snapshot |}.

End Scenes.

(** * Properties *)

Import Model.

(** ** Strings and lookups *)

Lemma includes_In (arr : list string) (s : string) :
  JS.includes arr s = true <-> In s arr.
Proof.
  unfold JS.includes. rewrite existsb_exists. split.
  - intros (x & Hx & He). apply String.eqb_eq in He. now subst.
  - intros Hin. exists s. split; [assumption | apply String.eqb_refl].
Qed.

Lemma includes_not_In (arr : list string) (s : string) :
  JS.includes arr s = false <-> ~ In s arr.
Proof.
  rewrite <- includes_In. destruct (JS.includes arr s); split; intros; congruence.
Qed.

Lemma findOne_Some (db : gmap string HoneyBadger) id query b :
  db !! id = Some b -> query b = true -> findOne db id query = Some b.
Proof. intros Hl Hq. unfold findOne. now rewrite Hl, Hq. Qed.

Lemma findOne_inv (db : gmap string HoneyBadger) id query b :
  findOne db id query = Some b -> db !! id = Some b /\ query b = true.
Proof.
  unfold findOne. destruct (db !! id) as [b0|]; [|discriminate].
  destruct (query b0) eqn:Hq; [|discriminate]. intros [= <-]. now split.
Qed.

Lemma status_of_save (db : gmap string HoneyBadger) b :
  status_of (save b db) (_id b) = Some (status b).
Proof. unfold status_of, save. now rewrite lookup_insert_eq. Qed.

Lemma lookup_save_ne (db : gmap string HoneyBadger) b j :
  j <> _id b -> save b db !! j = db !! j.
Proof. intros Hne. unfold save. now rewrite lookup_insert_ne. Qed.

(** ** Doubles: rounding to nearest, ties to even *)

Lemma pow2_pos (k : Z) : (0 < JS.pow2 k)%Q.
Proof. apply Qpower_0_lt. reflexivity. Qed.

Lemma pow2_add (a b : Z) : (JS.pow2 (a + b) == JS.pow2 a * JS.pow2 b)%Q.
Proof. apply Qpower_plus. discriminate. Qed.

Lemma pow2_sub (a b : Z) : (JS.pow2 (a - b) == JS.pow2 a / JS.pow2 b)%Q.
Proof. apply Qpower_minus. discriminate. Qed.

Lemma pow2_le (a b : Z) : a <= b -> (JS.pow2 a <= JS.pow2 b)%Q.
Proof. intros H. apply Qpower_le_compat_l; [exact H | discriminate]. Qed.

Lemma pow2_lt (a b : Z) : a < b -> (JS.pow2 a < JS.pow2 b)%Q.
Proof. intros H. apply Qpower_lt_compat_l; [exact H | reflexivity]. Qed.

Lemma pow2_lt_inv (a b : Z) : (JS.pow2 a < JS.pow2 b)%Q -> a < b.
Proof. intros H. apply (Qpower_lt_compat_l_inv 2); [exact H | reflexivity]. Qed.

Lemma pow2_Z (k : Z) : 0 <= k -> (JS.pow2 k == inject_Z (2 ^ k))%Q.
Proof. intros H. symmetry. apply (Zpower_Qpower 2 k H). Qed.

Lemma Qle_Zdiv (a b c d : Z) :
  0 < b -> 0 < d ->
  a * d <= c * b -> (inject_Z a / inject_Z b <= inject_Z c / inject_Z d)%Q.
Proof.
  intros Hb Hd H. destruct b as [|b|b]; try lia. destruct d as [|d|d]; try lia.
  rewrite <- !Qmake_Qdiv. unfold Qle. simpl. exact H.
Qed.

Lemma Qlt_Zdiv (a b c d : Z) :
  0 < b -> 0 < d ->
  a * d < c * b -> (inject_Z a / inject_Z b < inject_Z c / inject_Z d)%Q.
Proof.
  intros Hb Hd H. destruct b as [|b|b]; try lia. destruct d as [|d|d]; try lia.
  rewrite <- !Qmake_Qdiv. unfold Qlt. simpl. exact H.
Qed.

Lemma pow2_quot (a b : Z) :
  0 <= a -> 0 <= b -> (JS.pow2 (a - b) == inject_Z (2 ^ a) / inject_Z (2 ^ b))%Q.
Proof. intros Ha Hb. now rewrite pow2_sub, !pow2_Z. Qed.

Lemma Q_as_quot (x : Q) : (x == inject_Z (Qnum x) / inject_Z (Z.pos (Qden x)))%Q.
Proof. destruct x as [n d]. simpl. apply Qmake_Qdiv. Qed.

Lemma ilog2_spec (x : Q) :
  (0 < x)%Q -> (JS.pow2 (JS.ilog2 x) <= x)%Q /\ (x < JS.pow2 (JS.ilog2 x + 1))%Q.
Proof.
  intros Hx.
  assert (Hn : 0 < Qnum x) by (unfold Qlt in Hx; simpl in Hx; lia).
  pose proof (Z.log2_spec _ Hn) as [Hn1 Hn2].
  pose proof (Z.log2_spec (Z.pos (Qden x)) ltac:(lia)) as [Hd1 Hd2].
  pose proof (Z.log2_nonneg (Qnum x)) as Hln.
  pose proof (Z.log2_nonneg (Z.pos (Qden x))) as Hld.
  set (ln := Z.log2 (Qnum x)) in *. set (ld := Z.log2 (Z.pos (Qden x))) in *.
  assert (Hp1 : 0 < 2 ^ ln) by (apply Z.pow_pos_nonneg; lia).
  assert (Hp2 : 0 < 2 ^ ld) by (apply Z.pow_pos_nonneg; lia).
  assert (Hs1 : 2 ^ Z.succ ln = 2 * 2 ^ ln) by (apply Z.pow_succ_r; lia).
  assert (Hs2 : 2 ^ Z.succ ld = 2 * 2 ^ ld) by (apply Z.pow_succ_r; lia).
  assert (Hup : (x < JS.pow2 (ln - ld + 1))%Q).
  { replace (ln - ld + 1) with (Z.succ ln - ld) by lia.
    rewrite pow2_quot by lia. rewrite (Q_as_quot x) at 1.
    apply Qlt_Zdiv; [lia | lia |]. fold ln. nia. }
  assert (Hlo : (JS.pow2 (ln - ld - 1) <= x)%Q).
  { replace (ln - ld - 1) with (ln - Z.succ ld) by lia.
    rewrite pow2_quot by lia. rewrite (Q_as_quot x) at 1.
    apply Qle_Zdiv; [lia | lia |]. fold ln. nia. }
  unfold JS.ilog2. fold ln ld.
  destruct (Qle_bool (JS.pow2 (ln - ld)) x) eqn:Ht.
  - apply Qle_bool_iff in Ht. split; assumption.
  - split; [exact Hlo|].
    replace (ln - ld - 1 + 1) with (ln - ld) by lia.
    apply Qnot_le_lt. intros H. apply Qle_bool_iff in H. congruence.
Qed.

Lemma ilog2_unique (x : Q) (e : Z) :
  (JS.pow2 e <= x)%Q -> (x < JS.pow2 (e + 1))%Q -> JS.ilog2 x = e.
Proof.
  intros Hlo Hhi.
  assert (Hx : (0 < x)%Q) by (eapply Qlt_le_trans; [apply pow2_pos | exact Hlo]).
  destruct (ilog2_spec x Hx) as [Hlo' Hhi'].
  assert (H1 : e < JS.ilog2 x + 1).
  { apply pow2_lt_inv. eapply Qle_lt_trans; eassumption. }
  assert (H2 : JS.ilog2 x < e + 1).
  { apply pow2_lt_inv. eapply Qle_lt_trans; eassumption. }
  lia.
Qed.

Lemma ilog2_mono (x y : Q) :
  (0 < x)%Q -> (x <= y)%Q -> JS.ilog2 x <= JS.ilog2 y.
Proof.
  intros Hx Hxy.
  assert (Hy : (0 < y)%Q) by (eapply Qlt_le_trans; eassumption).
  destruct (ilog2_spec x Hx) as [Hlo _]. destruct (ilog2_spec y Hy) as [_ Hhi].
  assert (H : JS.ilog2 x < JS.ilog2 y + 1).
  { apply pow2_lt_inv. eapply Qle_lt_trans; [exact Hlo|].
    eapply Qle_lt_trans; eassumption. }
  lia.
Qed.

Lemma ilog2_comp (x y : Q) : (0 < x)%Q -> (x == y)%Q -> JS.ilog2 x = JS.ilog2 y.
Proof.
  intros Hx Hxy. symmetry. destruct (ilog2_spec x Hx) as [Hlo Hhi].
  apply ilog2_unique; now rewrite <- Hxy.
Qed.

Lemma ulp_exp_mono (x y : Q) :
  (0 < x)%Q -> (x <= y)%Q -> JS.ulp_exp x <= JS.ulp_exp y.
Proof.
  intros Hx Hxy. unfold JS.ulp_exp. pose proof (ilog2_mono x y Hx Hxy). lia.
Qed.

Lemma nearest_even_floor (m : Q) :
  Qfloor m <= JS.nearest_even m <= Qfloor m + 1.
Proof.
  unfold JS.nearest_even.
  destruct (m - inject_Z (Qfloor m) ?= 1 # 2)%Q; [destruct (Z.even _)| |]; lia.
Qed.

Lemma nearest_even_le (m : Q) (M : Z) :
  (m <= inject_Z M)%Q -> JS.nearest_even m <= M.
Proof.
  intros Hm. pose proof (nearest_even_floor m) as [_ Hup].
  assert (Hf : Qfloor m <= M).
  { rewrite <- (Qfloor_Z M). now apply Qfloor_resp_le. }
  destruct (Z.eq_dec (Qfloor m) M) as [Heq | Hne]; [|lia].
  unfold JS.nearest_even. rewrite Heq.
  assert (Hlt : (m - inject_Z M < 1 # 2)%Q).
  { apply Qle_lt_trans with 0%Q; [|reflexivity].
    apply (Qplus_le_l _ _ (inject_Z M)). ring_simplify. exact Hm. }
  assert (Hc : (m - inject_Z M ?= 1 # 2)%Q = Lt) by (apply Qlt_alt; exact Hlt).
  rewrite Hc. lia.
Qed.

Lemma nearest_even_ge (m : Q) (M : Z) :
  (inject_Z M <= m)%Q -> M <= JS.nearest_even m.
Proof.
  intros Hm. pose proof (nearest_even_floor m) as [Hlo _].
  assert (Hf : M <= Qfloor m).
  { rewrite <- (Qfloor_Z M). now apply Qfloor_resp_le. }
  lia.
Qed.

Lemma nearest_even_Z (M : Z) : JS.nearest_even (inject_Z M) = M.
Proof.
  apply Z.le_antisymm; [apply nearest_even_le | apply nearest_even_ge]; apply Qle_refl.
Qed.

Lemma nearest_even_comp (m m' : Q) :
  (m == m')%Q -> JS.nearest_even m = JS.nearest_even m'.
Proof.
  intros H. unfold JS.nearest_even. rewrite (Qfloor_comp _ _ H).
  assert (Hc : (m - inject_Z (Qfloor m') ?= 1 # 2)%Q = (m' - inject_Z (Qfloor m') ?= 1 # 2)%Q).
  { apply Qcompare_comp; [now rewrite H | reflexivity]. }
  now rewrite Hc.
Qed.

Lemma round_pos_comp (x y : Q) :
  (0 < x)%Q -> (x == y)%Q -> JS.round_pos x = JS.round_pos y.
Proof.
  intros Hx Hxy. unfold JS.round_pos, JS.ulp_exp.
  rewrite (ilog2_comp x y Hx Hxy).
  set (u := Z.max (JS.ilog2 y - 52) (-1074)).
  assert (Hm : (x / JS.pow2 u == y / JS.pow2 u)%Q) by now rewrite Hxy.
  now rewrite (nearest_even_comp _ _ Hm).
Qed.

Lemma round64_comp (x y : Q) : (x == y)%Q -> JS.round64 x = JS.round64 y.
Proof.
  intros Hxy. unfold JS.round64.
  assert (Hc : (x ?= 0)%Q = (y ?= 0)%Q) by (apply Qcompare_comp; [exact Hxy | reflexivity]).
  rewrite <- Hc. destruct (x ?= 0)%Q eqn:Hs; [reflexivity | |].
  - apply Qlt_alt in Hs.
    assert (Hneg : (0 < - x)%Q).
    { apply (Qplus_lt_l _ _ x). ring_simplify. exact Hs. }
    rewrite (round_pos_comp (- x) (- y) Hneg); [reflexivity | now rewrite Hxy].
  - apply Qgt_alt in Hs. now rewrite (round_pos_comp x y Hs Hxy).
Qed.

Lemma round_pos_Some (x r : Q) :
  JS.round_pos x = Some r ->
  (r == inject_Z (JS.nearest_even (x / JS.pow2 (JS.ulp_exp x))) * JS.pow2 (JS.ulp_exp x))%Q /\
  (r < JS.pow2 1024)%Q.
Proof.
  unfold JS.round_pos.
  destruct (Qle_bool (JS.pow2 1024) _) eqn:Ho; [discriminate|].
  intros [= <-]. split; [reflexivity|].
  apply Qnot_le_lt. intros H. apply Qle_bool_iff in H. congruence.
Qed.

Lemma round_pos_fits (x : Q) :
  (inject_Z (JS.nearest_even (x / JS.pow2 (JS.ulp_exp x))) * JS.pow2 (JS.ulp_exp x)
   < JS.pow2 1024)%Q ->
  JS.round_pos x =
    Some (inject_Z (JS.nearest_even (x / JS.pow2 (JS.ulp_exp x))) * JS.pow2 (JS.ulp_exp x))%Q.
Proof.
  intros H. unfold JS.round_pos.
  destruct (Qle_bool (JS.pow2 1024) _) eqn:Ho; [|reflexivity].
  apply Qle_bool_iff in Ho. exfalso. apply (Qlt_irrefl (JS.pow2 1024)).
  eapply Qle_lt_trans; eassumption.
Qed.

Lemma round64_pos (x : Q) :
  (0 < x)%Q ->
  JS.round64 x = match JS.round_pos x with
                 | Some r => JS.Fin (Qred r)
                 | None => JS.PosInf
                 end.
Proof.
  intros Hx. unfold JS.round64.
  assert (Hc : (x ?= 0)%Q = Gt) by (apply Qgt_alt; exact Hx).
  now rewrite Hc.
Qed.

Lemma round64_zero (x : Q) : (x == 0)%Q -> JS.round64 x = JS.Fin 0.
Proof. intros H. now rewrite (round64_comp x 0 H). Qed.

(** A positive double is a whole multiple of its unit in the last place. *)
Lemma is_double_pos (k : Q) :
  (0 < k)%Q -> JS.is_double k ->
  exists M, (k == inject_Z M * JS.pow2 (JS.ulp_exp k))%Q /\ (k < JS.pow2 1024)%Q.
Proof.
  intros Hk Hd. unfold JS.is_double in Hd. rewrite (round64_pos k Hk) in Hd.
  destruct (JS.round_pos k) as [r|] eqn:Hr; [|discriminate].
  injection Hd as Hd.
  assert (Hrk : (r == k)%Q) by (rewrite <- (Qred_correct r), Hd; apply Qred_correct).
  destruct (round_pos_Some k r Hr) as [Hval Hfit].
  eexists. split.
  - apply Qeq_trans with r; [symmetry; exact Hrk | exact Hval].
  - apply Qle_lt_trans with r; [rewrite Hrk; apply Qle_refl | exact Hfit].
Qed.

Lemma Qlt_le_zero_cases (x : Q) : (0 <= x)%Q -> (x == 0)%Q \/ (0 < x)%Q.
Proof.
  intros H. destruct (Qlt_le_dec 0 x) as [Hlt | Hle]; [now right | left].
  now apply Qle_antisym.
Qed.

(** Rounding does not cross a double: upwards. *)
Lemma round64_le (x k : Q) :
  (0 <= x)%Q -> (x <= k)%Q -> JS.is_double k ->
  exists r, JS.round64 x = JS.Fin r /\ (0 <= r)%Q /\ (r <= k)%Q.
Proof.
  intros Hx0 Hxk Hd.
  destruct (Qlt_le_zero_cases x Hx0) as [Hz | Hx].
  { exists 0%Q. split; [now apply round64_zero|]. split; [apply Qle_refl|].
    now rewrite <- Hz. }
  assert (Hk : (0 < k)%Q) by (eapply Qlt_le_trans; eassumption).
  destruct (is_double_pos k Hk Hd) as (M & HM & Hfit).
  pose proof (ulp_exp_mono x k Hx Hxk) as Hu.
  set (ux := JS.ulp_exp x) in *. set (uk := JS.ulp_exp k) in *.
  pose proof (pow2_pos ux) as HP.
  assert (Hk' : (k == inject_Z (M * 2 ^ (uk - ux)) * JS.pow2 ux)%Q).
  { rewrite HM. replace uk with ((uk - ux) + ux) at 1 by lia.
    rewrite pow2_add, (pow2_Z (uk - ux)) by lia.
    rewrite inject_Z_mult. ring. }
  assert (Hne : JS.nearest_even (x / JS.pow2 ux) <= M * 2 ^ (uk - ux)).
  { apply nearest_even_le. apply Qle_shift_div_r; [exact HP|]. now rewrite <- Hk'. }
  assert (Hne0 : 0 <= JS.nearest_even (x / JS.pow2 ux)).
  { apply nearest_even_ge. apply Qle_shift_div_l; [exact HP|].
    rewrite Qmult_0_l. exact Hx0. }
  set (r := (inject_Z (JS.nearest_even (x / JS.pow2 ux)) * JS.pow2 ux)%Q).
  assert (Hrk : (r <= k)%Q).
  { rewrite Hk'. unfold r. apply Qmult_le_compat_r; [|now apply Qlt_le_weak].
    now rewrite <- Zle_Qle. }
  assert (Hr0 : (0 <= r)%Q).
  { unfold r. apply Qmult_le_0_compat; [|now apply Qlt_le_weak].
    now rewrite <- (Zle_Qle 0). }
  rewrite (round64_pos x Hx). fold ux in r.
  rewrite (round_pos_fits x); fold ux; fold r.
  - exists (Qred r). split; [reflexivity|]. now rewrite Qred_correct.
  - eapply Qle_lt_trans; eassumption.
Qed.

(** Rounding does not cross a double: downwards. *)
Lemma round64_ge (x k : Q) :
  (0 < k)%Q -> (k <= x)%Q -> JS.is_double k ->
  JS.geb (JS.round64 x) (JS.Fin k) = true.
Proof.
  intros Hk Hkx Hd.
  assert (Hx : (0 < x)%Q) by (eapply Qlt_le_trans; eassumption).
  destruct (is_double_pos k Hk Hd) as (M & HM & Hfit).
  pose proof (ulp_exp_mono k x Hk Hkx) as Hu.
  rewrite (round64_pos x Hx).
  destruct (JS.round_pos x) as [r|] eqn:Hr; [|reflexivity].
  destruct (round_pos_Some x r Hr) as [Hval _].
  cbn [JS.geb]. apply Qle_bool_iff. rewrite Qred_correct, Hval.
  set (ux := JS.ulp_exp x) in *. set (uk := JS.ulp_exp k) in *.
  pose proof (pow2_pos ux) as HP.
  destruct (Z.eq_dec ux uk) as [Heq | Hneq].
  - rewrite HM. rewrite <- Heq.
    apply Qmult_le_compat_r; [|now apply Qlt_le_weak].
    rewrite <- Zle_Qle. apply nearest_even_ge.
    apply Qle_shift_div_l; [exact HP|]. rewrite Heq, <- HM. exact Hkx.
  - assert (Hlt : uk < ux) by lia.
    assert (Hux : ux = JS.ilog2 x - 52).
    { unfold ux, uk, JS.ulp_exp in *. lia. }
    destruct (ilog2_spec x Hx) as [Hlo _].
    destruct (ilog2_spec k Hk) as [_ Hhi].
    assert (Hne : 2 ^ 52 <= JS.nearest_even (x / JS.pow2 ux)).
    { apply nearest_even_ge. apply Qle_shift_div_l; [exact HP|].
      rewrite <- (pow2_Z 52) by lia. rewrite <- pow2_add.
      replace (52 + ux) with (JS.ilog2 x) by lia. exact Hlo. }
    apply Qle_trans with (JS.pow2 (uk + 53)).
    + apply Qlt_le_weak. eapply Qlt_le_trans; [exact Hhi|].
      apply pow2_le. unfold uk, JS.ulp_exp. lia.
    + apply Qle_trans with (inject_Z (2 ^ 52) * JS.pow2 ux)%Q.
      * rewrite <- (pow2_Z 52) by lia. rewrite <- pow2_add. apply pow2_le. lia.
      * apply Qmult_le_compat_r; [|now apply Qlt_le_weak]. now rewrite <- Zle_Qle.
Qed.

Lemma Qred_inject_Z (z : Z) : Qred (inject_Z z) = inject_Z z.
Proof.
  unfold Qred, inject_Z.
  pose proof (Z.ggcd_gcd z 1) as Hg. pose proof (Z.ggcd_correct_divisors z 1) as Hd.
  destruct (Z.ggcd z 1) as [g [a b]]. simpl in *.
  rewrite Z.gcd_1_r in Hg. subst g. destruct Hd as [Ha Hb].
  assert (Hz : z = a) by lia. assert (Hb1 : b = 1) by lia. rewrite Hz, Hb1. reflexivity.
Qed.

(** A positive rational that is a whole multiple of its unit in the last
    place, below 2^1024, is a double. *)
Lemma is_double_intro (x : Q) (M : Z) :
  (0 < x)%Q -> (x == inject_Z M * JS.pow2 (JS.ulp_exp x))%Q -> (x < JS.pow2 1024)%Q ->
  JS.is_double x.
Proof.
  intros Hx HM Hfit. unfold JS.is_double. rewrite (round64_pos x Hx).
  pose proof (pow2_pos (JS.ulp_exp x)) as HP.
  assert (Hne : JS.nearest_even (x / JS.pow2 (JS.ulp_exp x)) = M).
  { rewrite <- (nearest_even_Z M). apply nearest_even_comp.
    rewrite HM at 1. field. intros H0. rewrite H0 in HP. now apply Qlt_irrefl in HP. }
  rewrite round_pos_fits; rewrite Hne.
  - f_equal. apply Qred_complete. now symmetry.
  - now rewrite <- HM.
Qed.

Lemma ilog2_inject_Z (z : Z) : 0 < z -> JS.ilog2 (inject_Z z) = Z.log2 z.
Proof.
  intros Hz. pose proof (Z.log2_spec z Hz) as [Hlo Hhi].
  pose proof (Z.log2_nonneg z) as H0.
  apply ilog2_unique.
  - rewrite pow2_Z by lia. now rewrite <- Zle_Qle.
  - rewrite pow2_Z by lia. rewrite <- Zlt_Qlt. now rewrite Z.add_1_r.
Qed.

Lemma pow2_1024_Z (z : Z) : z <= 2 ^ 53 -> (inject_Z z < JS.pow2 1024)%Q.
Proof.
  intros Hz. rewrite (pow2_Z 1024) by lia. rewrite <- Zlt_Qlt.
  eapply Z.le_lt_trans; [exact Hz|]. apply Z.pow_lt_mono_r; lia.
Qed.

(** The whole numbers up to 2^53 are doubles. *)
Lemma is_double_Z (z : Z) : 0 <= z <= 2 ^ 53 -> JS.is_double (inject_Z z).
Proof.
  intros [Hz0 Hz]. destruct (Z.eq_dec z 0) as [-> | Hnz]; [reflexivity|].
  assert (Hpos : 0 < z) by lia.
  assert (Hx : (0 < inject_Z z)%Q) by (now rewrite <- (Zlt_Qlt 0)).
  assert (Hl : Z.log2 z <= 53).
  { rewrite <- (Z.log2_pow2 53) by lia. now apply Z.log2_le_mono. }
  pose proof (Z.log2_nonneg z) as Hl0.
  assert (Hu : JS.ulp_exp (inject_Z z) = Z.max (Z.log2 z - 52) (-1074)).
  { unfold JS.ulp_exp. now rewrite ilog2_inject_Z. }
  destruct (Z.eq_dec (Z.log2 z) 53) as [H53 | Hn53].
  - assert (Hz53 : z = 2 ^ 53).
    { pose proof (Z.log2_spec z Hpos) as [Hlo _]. rewrite H53 in Hlo. lia. }
    apply (is_double_intro _ (2 ^ 52)); [exact Hx | | now apply pow2_1024_Z].
    rewrite Hu, H53, Hz53. reflexivity.
  - set (s := - Z.max (Z.log2 z - 52) (-1074)).
    assert (Hs : 0 <= s) by (unfold s; lia).
    apply (is_double_intro _ (z * 2 ^ s)); [exact Hx | | now apply pow2_1024_Z].
    rewrite Hu. replace (Z.max (Z.log2 z - 52) (-1074)) with (0 - s) by (unfold s; lia).
    rewrite pow2_sub, inject_Z_mult, <- (pow2_Z s) by lia.
    change (JS.pow2 0) with 1%Q. field.
    pose proof (pow2_pos s) as HP. intros H0. rewrite H0 in HP. now apply Qlt_irrefl in HP.
Qed.

Lemma round64_Z (z : Z) : 0 <= z <= 2 ^ 53 -> JS.round64 (inject_Z z) = JS.of_Z z.
Proof.
  intros Hz. rewrite (is_double_Z z Hz). unfold JS.of_Z. now rewrite Qred_inject_Z.
Qed.

(** Above 2^53 the doubles are the even numbers: up to 2^53 + 1, the
    nearest is 2^53, also at the tie. *)
Lemma round64_stall (x : Q) :
  (inject_Z (2 ^ 53) <= x)%Q -> (x <= inject_Z (2 ^ 53 + 1))%Q ->
  JS.round64 x = JS.of_Z (2 ^ 53).
Proof.
  intros Hlo Hhi.
  assert (Hx : (0 < x)%Q) by (eapply Qlt_le_trans; [|exact Hlo]; reflexivity).
  assert (He : JS.ilog2 x = 53).
  { apply ilog2_unique.
    - now rewrite (pow2_Z 53) by lia.
    - eapply Qle_lt_trans; [exact Hhi|]. reflexivity. }
  assert (Hu : JS.ulp_exp x = 1) by (unfold JS.ulp_exp; rewrite He; reflexivity).
  assert (Hf : Qfloor (x / JS.pow2 1) = 2 ^ 52).
  { apply Z.le_antisymm.
    - apply Z.lt_succ_r. rewrite <- Z.add_1_r.
      rewrite Zlt_Qlt. eapply Qle_lt_trans; [apply Qfloor_le|].
      apply Qlt_shift_div_r; [reflexivity|].
      eapply Qle_lt_trans; [exact Hhi|]. reflexivity.
    - rewrite <- (Qfloor_Z (2 ^ 52)). apply Qfloor_resp_le.
      apply Qle_shift_div_l; [reflexivity|]. exact Hlo. }
  assert (Hne : JS.nearest_even (x / JS.pow2 1) = 2 ^ 52).
  { unfold JS.nearest_even. rewrite Hf.
    destruct (x / JS.pow2 1 - inject_Z (2 ^ 52) ?= 1 # 2)%Q eqn:Hc;
      [reflexivity | reflexivity |].
    exfalso. apply Qgt_alt in Hc. apply (Qlt_irrefl (1 # 2)).
    eapply Qlt_le_trans; [exact Hc|].
    apply (Qplus_le_l _ _ (inject_Z (2 ^ 52))). ring_simplify.
    apply Qle_shift_div_r; [reflexivity|].
    eapply Qle_trans; [exact Hhi|]. apply Qle_lteq. right. reflexivity. }
  rewrite (round64_pos x Hx), round_pos_fits; rewrite Hu, Hne.
  - vm_compute. reflexivity.
  - reflexivity.
Qed.

(** The mantissa of a positive double: below 2^53, and at least 2^52 unless
    the double is subnormal. *)
Lemma double_mantissa (k : Q) :
  (0 < k)%Q -> JS.is_double k ->
  exists M, (k == inject_Z M * JS.pow2 (JS.ulp_exp k))%Q /\
            0 < M < 2 ^ 53 /\
            (-1074 < JS.ulp_exp k -> 2 ^ 52 <= M).
Proof.
  intros Hk Hd. destruct (is_double_pos k Hk Hd) as (M & HM & _).
  destruct (ilog2_spec k Hk) as [Hlo Hhi].
  pose proof (pow2_pos (JS.ulp_exp k)) as HP.
  exists M. split; [exact HM|]. repeat split.
  - rewrite (Zlt_Qlt 0). apply (Qmult_lt_r _ _ _ HP). rewrite Qmult_0_l, <- HM. exact Hk.
  - rewrite Zlt_Qlt. apply (Qmult_lt_r _ _ _ HP). rewrite <- HM.
    eapply Qlt_le_trans; [exact Hhi|].
    rewrite <- (pow2_Z 53), <- pow2_add by lia. apply pow2_le.
    unfold JS.ulp_exp. lia.
  - intros Hu. rewrite Zle_Qle. apply (Qmult_le_r _ _ _ HP). rewrite <- HM.
    eapply Qle_trans; [|exact Hlo].
    rewrite <- (pow2_Z 52), <- pow2_add by lia. apply pow2_le.
    unfold JS.ulp_exp in *. lia.
Qed.

(** The quotient of two doubles, the smaller by the larger, rounds below 1. *)
Lemma round64_ratio_below_one (c t : Q) :
  (0 <= c)%Q -> (c < t)%Q -> JS.is_double c -> JS.is_double t ->
  exists r, JS.round64 (c / t) = JS.Fin r /\ (0 <= r)%Q /\ (r < 1)%Q.
Proof.
  intros Hc0 Hct Hdc Hdt.
  assert (Ht : (0 < t)%Q) by (eapply Qle_lt_trans; eassumption).
  assert (Hk : JS.is_double ((2 ^ 53 - 1) # (2 ^ 53))) by (vm_compute; reflexivity).
  assert (Hratio : (c / t <= (2 ^ 53 - 1) # (2 ^ 53))%Q).
  { destruct (Qlt_le_zero_cases c Hc0) as [Hz | Hc].
    { rewrite Hz. unfold Qdiv. rewrite Qmult_0_l. discriminate. }
    destruct (double_mantissa c Hc Hdc) as (Mc & HMc & [Hc1 Hc2] & _).
    destruct (double_mantissa t Ht Hdt) as (Mt & HMt & [Ht1 Ht2] & Hnorm).
    pose proof (ulp_exp_mono c t Hc (Qlt_le_weak _ _ Hct)) as Hu.
    set (uc := JS.ulp_exp c) in *. set (ut := JS.ulp_exp t) in *.
    pose proof (pow2_pos uc) as HP.
    assert (Hlow : -1074 <= uc) by (unfold uc, JS.ulp_exp; lia).
    assert (Ht' : (t == inject_Z (Mt * 2 ^ (ut - uc)) * JS.pow2 uc)%Q).
    { rewrite HMt. replace ut with ((ut - uc) + uc) at 1 by lia.
      rewrite pow2_add, (pow2_Z (ut - uc)), inject_Z_mult by lia. ring. }
    assert (Hlt : Mc < Mt * 2 ^ (ut - uc)).
    { rewrite Zlt_Qlt. apply (Qmult_lt_r _ _ _ HP). now rewrite <- HMc, <- Ht'. }
    assert (Hcross : Mc * 2 ^ 53 <= (2 ^ 53 - 1) * (Mt * 2 ^ (ut - uc))).
    { destruct (Z.eq_dec ut uc) as [Heq | Hne].
      - rewrite Heq, Z.sub_diag in *. change (2 ^ 0) with 1 in *. lia.
      - assert (Hd : 2 <= 2 ^ (ut - uc)).
        { change 2 with (2 ^ 1) at 1. apply Z.pow_le_mono_r; lia. }
        assert (Hn : 2 ^ 52 <= Mt) by (apply Hnorm; lia).
        nia. }
    apply Qle_shift_div_r; [exact Ht|].
    rewrite HMc, Ht'.
    apply (Qmult_le_r _ _ (inject_Z (2 ^ 53))); [reflexivity|].
    apply Qle_trans with (inject_Z (Mc * 2 ^ 53) * JS.pow2 uc)%Q.
    { rewrite inject_Z_mult. apply Qle_lteq. right. ring. }
    apply Qle_trans with (inject_Z ((2 ^ 53 - 1) * (Mt * 2 ^ (ut - uc))) * JS.pow2 uc)%Q.
    { apply Qmult_le_compat_r; [|now apply Qlt_le_weak]. now rewrite <- Zle_Qle. }
    rewrite !inject_Z_mult. apply Qle_lteq. right.
    rewrite (Qmake_Qdiv (2 ^ 53 - 1) (2 ^ 53)).
    change (inject_Z (Z.pos (2 ^ 53))) with (inject_Z (2 ^ 53)).
    assert (HA : ~ (inject_Z (2 ^ 53) == 0)%Q) by discriminate.
    set (A := inject_Z (2 ^ 53)) in *. set (B := inject_Z (2 ^ 53 - 1)).
    field. exact HA. }
  assert (H0 : (0 <= c / t)%Q).
  { apply Qle_shift_div_l; [exact Ht|]. now rewrite Qmult_0_l. }
  destruct (round64_le (c / t) _ H0 Hratio Hk) as (r & Hr & Hr0 & Hr1).
  exists r. split; [exact Hr|]. split; [exact Hr0|].
  eapply Qle_lt_trans; [exact Hr1|]. reflexivity.
Qed.

(** ** The transition table *)

Lemma transition_allowed_table (from to : string) :
  Badgers.transition_allowed from to = true <-> In (from, to) Spec.transition_table.
Proof.
  split.
  - unfold Badgers.transition_allowed, Badgers.allowedTransitions, Badgers.record_get.
    repeat match goal with
           | |- context [String.eqb ?k from] =>
               destruct (String.eqb_spec k from) as [<- | ?]
           end;
      try discriminate;
      unfold JS.includes; simpl; rewrite !orb_false_r;
      intros H; apply orb_true_iff in H as [H | H];
      apply String.eqb_eq in H; subst; simpl; tauto.
  - unfold Spec.transition_table. simpl.
    intros H.
    repeat match type of H with
           | _ \/ _ => destruct H as [H | H]
           end;
      try contradiction; injection H as <- <-; reflexivity.
Qed.

Lemma transition_allowed_nonterminal (from to : string) :
  Badgers.transition_allowed from to = true -> ~ In from terminal.
Proof.
  rewrite transition_allowed_table. unfold Spec.transition_table, terminal. simpl.
  intros H.
  repeat match type of H with
         | _ \/ _ => destruct H as [H | H]
         end;
    try contradiction; injection H as <- <-;
    intros [H | [H | [H | []]]]; discriminate.
Qed.

(** ** C1: the status route follows the transition table *)

(** C1. For a status-transition request on an existing delivery that the
    user may see: when the pair (current status, requested status) is in
    the table, the request succeeds and stores the delivery with the
    requested status, and a request for 'completed' also sets completedAt,
    progress.completed and progress.percentage = 100; when the pair is not in
    the table, the answer is the invalid-transition error and the collection
    is unchanged. *)
Theorem updateStatus_follows_table
    (db : gmap string HoneyBadger) (id user status' : string) (now : Z)
    (badger : HoneyBadger) :
  db !! id = Some badger ->
  _id badger = id ->
  Badgers.sender_or_recipient user badger = true ->
  (In (status badger, status') Spec.transition_table ->
   exists badger',
     Badgers.updateStatus db id user status' now = (ok, <[id := badger']> db) /\
     status badger' = status' /\
     (status' <> "completed" -> badger' = set_status status' badger) /\
     (status' = "completed" ->
      completedAt badger' = Some now /\
      completed (progress (task badger')) = true /\
      percentage (progress (task badger')) = JS.of_Z 100)) /\
  (~ In (status badger, status') Spec.transition_table ->
   Badgers.updateStatus db id user status' now =
     (Badgers.invalid_transition (status badger) status', db)).
Proof.
  intros Hlook Hid Hauth.
  unfold Badgers.updateStatus.
  rewrite (findOne_Some _ _ _ _ Hlook Hauth).
  unfold Badgers.updateStatus_loaded.
  split.
  - intros Hin. apply transition_allowed_table in Hin. rewrite Hin. simpl.
    destruct (String.eqb_spec status' "completed") as [-> | Hne].
    + eexists. split.
      * unfold save. simpl. rewrite Hid. reflexivity.
      * simpl. split; [reflexivity | split]; [intros Hc; now contradiction Hc |].
        intros _. repeat split.
    + eexists. split.
      * unfold save. simpl. rewrite Hid. reflexivity.
      * simpl. split; [reflexivity | split]; [reflexivity |].
        intros Hc. now contradiction Hne.
  - intros Hnot.
    destruct (Badgers.transition_allowed (status badger) status') eqn:Ha.
    + apply transition_allowed_table in Ha. contradiction.
    + reflexivity.
Qed.

(** The table at work: alice moves her badger from 'awaiting-verification'
    to 'completed' at time 77. *)
Lemma updateStatus_follows_table_witness :
  let b := Samples.badger "awaiting-verification" "custom" Samples.text_task "manual" None in
  let db : gmap string HoneyBadger := {[ "b1" := b ]} in
  exists badger',
    Badgers.updateStatus db "b1" "alice" "completed" 77 = (ok, <["b1" := badger']> db) /\
    status badger' = "completed" /\
    completedAt badger' = Some 77.
Proof.
  intros b db.
  destruct (updateStatus_follows_table db "b1" "alice" "completed" 77 b)
    as [Hin _].
  - reflexivity.
  - reflexivity.
  - reflexivity.
  - destruct Hin as (b' & Hrun & Hst & _ & Hdone).
    + simpl. tauto.
    + exists b'. destruct (Hdone eq_refl) as (Hc & _). repeat split; assumption.
Defined.

Lemma nearest_even_error (m : Q) :
  (inject_Z (JS.nearest_even m) - m <= 1 # 2)%Q /\
  (m - inject_Z (JS.nearest_even m) <= 1 # 2)%Q.
Proof.
  pose proof (Qfloor_le m) as Hlo. pose proof (Qlt_floor m) as Hhi.
  rewrite inject_Z_plus in Hhi. change (inject_Z 1) with 1%Q in Hhi.
  unfold JS.nearest_even.
  set (f := Qfloor m) in *.
  destruct (Qcompare_spec (m - inject_Z f) (1 # 2)) as [He | Hl | Hg].
  - destruct (Z.even f); rewrite ?inject_Z_plus; change (inject_Z 1) with 1%Q;
      split; lra.
  - split; lra.
  - rewrite inject_Z_plus. change (inject_Z 1) with 1%Q. split; lra.
Qed.

(** The relative error of rounding a number in the normal range is at most
    2^-53. *)
Lemma round64_error (x : Q) :
  (JS.pow2 (-1022) <= x)%Q -> (x <= JS.pow2 1023)%Q ->
  exists r, JS.round64 x = JS.Fin r /\
            (x * (1 - (1 # 2 ^ 53)) <= r)%Q /\ (r <= x * (1 + (1 # 2 ^ 53)))%Q.
Proof.
  intros Hlo Hhi.
  assert (Hx : (0 < x)%Q) by (eapply Qlt_le_trans; [apply pow2_pos | exact Hlo]).
  destruct (ilog2_spec x Hx) as [He1 He2].
  assert (He : -1022 <= JS.ilog2 x).
  { assert (H : -1022 < JS.ilog2 x + 1).
    { apply pow2_lt_inv. eapply Qle_lt_trans; eassumption. }
    lia. }
  assert (Hu : JS.ulp_exp x = JS.ilog2 x - 52) by (unfold JS.ulp_exp; lia).
  pose proof (pow2_pos (JS.ulp_exp x)) as HP.
  destruct (nearest_even_error (x / JS.pow2 (JS.ulp_exp x))) as [Hn1 Hn2].
  set (P := JS.pow2 (JS.ulp_exp x)) in *.
  set (N := inject_Z (JS.nearest_even (x / P))) in *.
  assert (Hm : (x / P * P == x)%Q).
  { field. intros H0. rewrite H0 in HP. now apply Qlt_irrefl in HP. }
  assert (Hd1 : (N * P - x <= (1 # 2) * P)%Q).
  { pose proof (Qmult_le_compat_r _ _ P Hn1 (Qlt_le_weak _ _ HP)) as H.
    assert (Heq : ((N - x / P) * P == N * P - x)%Q).
    { apply Qeq_trans with (N * P - x / P * P)%Q; [ring | now rewrite Hm]. }
    now rewrite <- Heq. }
  assert (Hd2 : (x - N * P <= (1 # 2) * P)%Q).
  { pose proof (Qmult_le_compat_r _ _ P Hn2 (Qlt_le_weak _ _ HP)) as H.
    assert (Heq : ((x / P - N) * P == x - N * P)%Q).
    { apply Qeq_trans with (x / P * P - N * P)%Q; [ring | now rewrite Hm]. }
    now rewrite <- Heq. }
  assert (HPx : (P * inject_Z (2 ^ 52) <= x)%Q).
  { eapply Qle_trans; [|exact He1].
    rewrite <- (pow2_Z 52) by lia. unfold P. rewrite <- pow2_add.
    apply pow2_le. lia. }
  assert (H1024 : (JS.pow2 1024 == 2 * JS.pow2 1023)%Q) by reflexivity.
  rewrite (round64_pos x Hx), round_pos_fits; fold P; fold N.
  - exists (Qred (N * P)). split; [reflexivity|]. rewrite Qred_correct.
    change (inject_Z (2 ^ 52)) with (4503599627370496 # 1)%Q in HPx.
    change (1 # 2 ^ 53)%Q with (1 # 9007199254740992)%Q.
    split; lra.
  - change (inject_Z (2 ^ 52)) with (4503599627370496 # 1)%Q in HPx.
    rewrite H1024. lra.
Qed.

(** ** Counting and percentages in doubles *)

Lemma strict_eq_of_Z_eqb (z k : Z) :
  JS.strict_eq (JS.of_Z z) (JS.of_Z k) = (z =? k).
Proof.
  unfold JS.of_Z, JS.strict_eq, Qeq_bool, inject_Z. cbn [Qnum Qden].
  rewrite !Z.mul_1_r. reflexivity.
Qed.

Lemma strict_eq_of_Z (z k : Z) :
  JS.strict_eq (JS.of_Z z) (JS.of_Z k) = true -> z = k.
Proof. rewrite strict_eq_of_Z_eqb. apply Z.eqb_eq. Qed.

Lemma round_cases (a : JS.number) :
  (exists z, JS.round a = JS.of_Z z) \/
  JS.round a = JS.NaN \/ JS.round a = JS.PosInf \/ JS.round a = JS.NegInf.
Proof. destruct a; simpl; eauto. Qed.

Lemma inject_Z_nonzero (n : Z) : n <> 0 -> Qeq_bool (inject_Z n) 0 = false.
Proof.
  intros Hn. apply not_true_is_false. intros H. apply Qeq_bool_iff in H.
  unfold Qeq in H. simpl in H. lia.
Qed.

(** [c++] on a counter that holds a whole number: exact up to 2^53, where
    the counter stays. *)
Lemma add_count (a : Z) :
  0 <= a <= 2 ^ 53 ->
  JS.add (JS.of_Z a) (JS.of_Z 1) = JS.of_Z (Z.min (a + 1) (2 ^ 53)).
Proof.
  intros Ha. unfold JS.of_Z at 1 2. cbn [JS.add].
  destruct (Z.eq_dec a (2 ^ 53)) as [-> | Hne].
  - rewrite round64_stall; [reflexivity | discriminate | discriminate].
  - rewrite (round64_comp _ (inject_Z (a + 1)))
      by (rewrite inject_Z_plus; reflexivity).
    rewrite round64_Z by lia. f_equal. lia.
Qed.

Lemma count_fold {A : Type} (p : A -> bool) (l : list A) (a : Z) :
  0 <= a <= 2 ^ 53 ->
  fold_left (fun c x => if p x then JS.add c (JS.of_Z 1) else c) l (JS.of_Z a)
  = JS.of_Z (Z.min (a + Z.of_nat (length (List.filter p l))) (2 ^ 53)).
Proof.
  revert a. induction l as [|x l IH]; intros a Ha; cbn [fold_left List.filter].
  - cbn [length]. f_equal. lia.
  - destruct (p x).
    + rewrite add_count by lia. rewrite IH by lia. cbn [length]. f_equal. lia.
    + now apply IH.
Qed.

Lemma count_completed_value (reqs : list TaskRequirement) (batch : list TaskSubmission) :
  Tasks.count_completed reqs batch
  = JS.of_Z (Z.min (Z.of_nat (length (List.filter (fun r => Tasks.requirement_met r batch)
                                        reqs))) (2 ^ 53)).
Proof.
  unfold Tasks.count_completed.
  rewrite (count_fold (fun r => Tasks.requirement_met r batch) reqs 0) by lia.
  reflexivity.
Qed.

Lemma filter_length_bound {A : Type} (p : A -> bool) (l : list A) :
  (length (List.filter p l) <= length l)%nat.
Proof. induction l as [|x l IH]; simpl; [lia|]. destruct (p x); simpl; lia. Qed.

Lemma all_counted_forallb {A : Type} (p : A -> bool) (l : list A) :
  Nat.eqb (length (List.filter p l)) (length l) = forallb p l.
Proof.
  induction l as [|x l IH]; simpl; [reflexivity|].
  destruct (p x); simpl; [exact IH|].
  apply Nat.eqb_neq. pose proof (filter_length_bound p l). lia.
Qed.

(** A counter that ends equal to the length has counted every element, and
    the length is at most 2^53. *)
Lemma counted_all {A : Type} (p : A -> bool) (l : list A) :
  JS.strict_eq
    (JS.of_Z (Z.min (Z.of_nat (length (List.filter p l))) (2 ^ 53)))
    (JS.of_nat (length l)) = true ->
  forallb p l = true /\ Z.of_nat (length l) <= 2 ^ 53.
Proof.
  unfold JS.of_nat. intros H. apply strict_eq_of_Z in H.
  pose proof (filter_length_bound p l) as Hb.
  rewrite <- all_counted_forallb. split; [apply Nat.eqb_eq|]; lia.
Qed.

(** [Math.round(x / n * 100)] is a whole number from 0 to 100 when [x] lies
    between 0 and [n]. *)
Lemma percentage_range (s : Q) (n : Z) :
  0 < n -> (0 <= s)%Q -> (s <= inject_Z n)%Q ->
  exists p, JS.round (JS.mul (JS.div (JS.Fin s) (JS.of_Z n)) (JS.of_Z 100)) = JS.of_Z p /\
            0 <= p <= 100.
Proof.
  intros Hn Hs0 Hsn. unfold JS.of_Z at 1 2. cbn [JS.div].
  rewrite inject_Z_nonzero by lia.
  assert (Hnq : (0 < inject_Z n)%Q) by (now rewrite <- (Zlt_Qlt 0)).
  destruct (round64_le (s / inject_Z n) 1) as (r1 & -> & Hr0 & Hr1).
  { apply Qle_shift_div_l; [exact Hnq | now rewrite Qmult_0_l]. }
  { apply Qle_shift_div_r; [exact Hnq | now rewrite Qmult_1_l]. }
  { reflexivity. }
  cbn [JS.mul].
  destruct (round64_le (r1 * inject_Z 100) (inject_Z 100)) as (r2 & -> & Hp0 & Hp1).
  { apply Qmult_le_0_compat; [exact Hr0 | discriminate]. }
  { rewrite <- (Qmult_1_l (inject_Z 100)) at 2.
    apply Qmult_le_compat_r; [exact Hr1 | discriminate]. }
  { apply is_double_Z. lia. }
  cbn [JS.round]. eexists. split; [reflexivity|]. split.
  - change 0 with (Qfloor (0 + (1 # 2))).
    apply Qfloor_resp_le, Qplus_le_l. exact Hp0.
  - change 100 with (Qfloor (inject_Z 100 + (1 # 2))).
    apply Qfloor_resp_le, Qplus_le_l. exact Hp1.
Qed.

(** [Math.round(n / n * 100)] is 100. *)
Lemma percentage_whole (n : Z) :
  0 < n ->
  JS.round (JS.mul (JS.div (JS.of_Z n) (JS.of_Z n)) (JS.of_Z 100)) = JS.of_Z 100.
Proof.
  intros Hn. unfold JS.of_Z at 1 2. cbn [JS.div].
  rewrite inject_Z_nonzero by lia.
  assert (Hone : (inject_Z n / inject_Z n == 1)%Q).
  { field. intros H. unfold Qeq in H. simpl in H. lia. }
  rewrite (round64_comp _ _ Hone). reflexivity.
Qed.

Lemma percentage_valid_range (p : Z) :
  0 <= p <= 100 -> percentage_valid (JS.of_Z p) = true.
Proof.
  intros Hp. unfold percentage_valid, JS.of_Z. apply andb_true_iff.
  split; apply Qle_bool_iff.
  - change (inject_Z 0 <= inject_Z p)%Q. rewrite <- Zle_Qle. lia.
  - change (inject_Z p <= inject_Z 100)%Q. rewrite <- Zle_Qle. lia.
Qed.

Lemma Qfloor_below (q : Q) (z : Z) : (q < inject_Z z + 1)%Q -> Qfloor q <= z.
Proof.
  intros H. assert (Hlt : Qfloor q < z + 1); [|lia].
  rewrite Zlt_Qlt, inject_Z_plus. eapply Qle_lt_trans; [apply Qfloor_le | exact H].
Qed.

Lemma Qfloor_above (q : Q) (z : Z) : (inject_Z z <= q)%Q -> z <= Qfloor q.
Proof. intros H. rewrite <- (Qfloor_Z z). now apply Qfloor_resp_le. Qed.

(** [Math.round(c / n * 100)] in doubles against the exact rounding of
    100c/n: the same, except at a tie, where it can be one less. *)
Lemma percentage_sharp (c n : Z) :
  0 <= c <= n -> 0 < n < 2 ^ 44 ->
  exists p, JS.round (JS.mul (JS.div (JS.of_Z c) (JS.of_Z n)) (JS.of_Z 100)) = JS.of_Z p /\
            (200 * c + n) / (2 * n) - 1 <= p <= (200 * c + n) / (2 * n) /\
            ((200 * c + n) mod (2 * n) <> 0 -> p = (200 * c + n) / (2 * n)).
Proof.
  intros Hc Hn.
  destruct (Z.eq_dec c 0) as [-> | Hc0].
  { exists 0. split.
    - unfold JS.of_Z at 1 2. cbn [JS.div]. rewrite inject_Z_nonzero by lia.
      rewrite (round64_comp _ 0) by (unfold Qdiv; apply Qmult_0_l).
      reflexivity.
    - replace (200 * 0 + n) with n by lia.
      rewrite Z.div_small by lia. rewrite Z.mod_small by lia. lia. }
  pose proof (Z.div_mod (200 * c + n) (2 * n) ltac:(lia)) as Hdm.
  pose proof (Z.mod_pos_bound (200 * c + n) (2 * n) ltac:(lia)) as Hrho.
  set (exact := (200 * c + n) / (2 * n)) in *.
  set (rho := (200 * c + n) mod (2 * n)) in *.
  set (C := inject_Z c). set (N := inject_Z n).
  set (D := inject_Z exact). set (R := inject_Z rho).
  assert (HN : (0 < N)%Q) by (unfold N; rewrite <- (Zlt_Qlt 0); lia).
  assert (HNne : ~ (N == 0)%Q) by (intros H0; rewrite H0 in HN; now apply Qlt_irrefl in HN).
  assert (HNup : (N * (2 # 1) * (1 # 2 ^ 45) < 1)%Q).
  { assert (HNlt : (N < inject_Z (2 ^ 44))%Q) by (unfold N; rewrite <- Zlt_Qlt; lia).
    change (inject_Z (2 ^ 44)) with (17592186044416 # 1)%Q in HNlt.
    change (1 # 2 ^ 45)%Q with (1 # 35184372088832)%Q. lra. }
  assert (HR0 : (0 <= R)%Q) by (unfold R; rewrite <- (Zle_Qle 0); lia).
  assert (HRup : (R <= 2 * N - 1)%Q).
  { assert (H : (inject_Z (rho + 1) <= inject_Z (2 * n))%Q) by (rewrite <- Zle_Qle; lia).
    rewrite inject_Z_plus, inject_Z_mult in H.
    change (inject_Z 1) with 1%Q in H. change (inject_Z 2) with 2%Q in H.
    fold R N in H. lra. }
  assert (Heq : (200 * C + N == 2 * N * D + R)%Q).
  { unfold C, N, D, R. change 200%Q with (inject_Z 200). change 2%Q with (inject_Z 2).
    rewrite <- !inject_Z_mult, <- !inject_Z_plus. now rewrite Hdm at 1. }
  set (x1 := (C / N)%Q).
  assert (Hx1N : (x1 * N == C)%Q) by (unfold x1; field; exact HNne).
  assert (Hx1lo : ((1 # 2 ^ 44) <= x1)%Q).
  { unfold x1, C, N. rewrite (Qmake_Qdiv 1 (2 ^ 44)).
    apply Qle_Zdiv; [reflexivity | lia |]. change (Z.pos (2 ^ 44)) with (2 ^ 44). lia. }
  assert (Hx1hi : (x1 <= 1)%Q).
  { unfold x1. apply Qle_shift_div_r; [exact HN|]. rewrite Qmult_1_l.
    unfold C, N. rewrite <- Zle_Qle. lia. }
  assert (Hsmall : (JS.pow2 (-1022) <= 1 # 2 ^ 60)%Q) by discriminate.
  assert (Hbig : ((1000 # 1) <= JS.pow2 1023)%Q) by discriminate.
  change (1 # 2 ^ 44)%Q with (1 # 17592186044416)%Q in Hx1lo.
  change (1 # 2 ^ 60)%Q with (1 # 1152921504606846976)%Q in Hsmall.
  destruct (round64_error x1) as (r1 & Hr1 & Hr1lo & Hr1hi); [lra | lra |].
  change (1 # 2 ^ 53)%Q with (1 # 9007199254740992)%Q in Hr1lo, Hr1hi.
  destruct (round64_error (r1 * inject_Z 100)) as (r2 & Hr2 & Hr2lo & Hr2hi).
  { change (inject_Z 100) with (100 # 1)%Q. lra. }
  { change (inject_Z 100) with (100 # 1)%Q. lra. }
  change (1 # 2 ^ 53)%Q with (1 # 9007199254740992)%Q in Hr2lo, Hr2hi.
  change (inject_Z 100) with (100 # 1)%Q in Hr2lo, Hr2hi.
  assert (Herr1 : (r2 <= 100 * x1 + (1 # 2 ^ 45))%Q).
  { change (1 # 2 ^ 45)%Q with (1 # 35184372088832)%Q. lra. }
  assert (Herr2 : (100 * x1 - (1 # 2 ^ 45) <= r2)%Q).
  { change (1 # 2 ^ 45)%Q with (1 # 35184372088832)%Q. lra. }
  set (y := (R / (2 * N))%Q).
  assert (H2N : (0 < 2 * N)%Q) by lra.
  assert (Hy0 : (0 <= y)%Q).
  { unfold y. apply Qle_shift_div_l; [exact H2N | lra]. }
  assert (Hyup : (y < 1 - (1 # 2 ^ 45))%Q).
  { unfold y. apply Qlt_shift_div_r; [exact H2N|].
    change (1 # 2 ^ 45)%Q with (1 # 35184372088832)%Q in *. lra. }
  assert (HX : (100 * x1 + (1 # 2) == D + y)%Q).
  { unfold y, x1.
    apply Qeq_trans with ((200 * C + N) / (2 * N))%Q; [field; exact HNne|].
    rewrite Heq. field. exact HNne. }
  exists (Qfloor (r2 + (1 # 2))). split; [|split; [split|]].
  - unfold JS.of_Z. cbn [JS.div]. rewrite inject_Z_nonzero by lia.
    fold C N x1. rewrite Hr1. cbn [JS.mul]. rewrite Hr2. reflexivity.
  - apply Qfloor_above. unfold Z.sub. rewrite inject_Z_plus. fold D.
    change (inject_Z (- (1))) with (- (1))%Q.
    change (1 # 2 ^ 45)%Q with (1 # 35184372088832)%Q in *. lra.
  - apply Qfloor_below. fold D.
    change (1 # 2 ^ 45)%Q with (1 # 35184372088832)%Q in *. lra.
  - intros Hnz.
    assert (Hyge : ((1 # 2 ^ 45) <= y)%Q).
    { unfold y. apply Qle_shift_div_l; [exact H2N|].
      assert (HR1 : (1 <= R)%Q).
      { unfold R. change 1%Q with (inject_Z 1). rewrite <- Zle_Qle. lia. }
      change (1 # 2 ^ 45)%Q with (1 # 35184372088832)%Q in *. lra. }
    apply Z.le_antisymm.
    + apply Qfloor_below. fold D.
      change (1 # 2 ^ 45)%Q with (1 # 35184372088832)%Q in *. lra.
    + apply Qfloor_above. fold D.
      change (1 # 2 ^ 45)%Q with (1 # 35184372088832)%Q in *. lra.
Qed.

(** The percentage of the submission-based evaluator is a whole number from
    0 to 100 when the task has requirements, and NaN when it has none. *)
Lemma taskProgress_percentage (badger : HoneyBadger) (batch : list TaskSubmission) :
  requirements (task badger) <> [] ->
  exists p, Tasks.tp_percentage (Tasks.calculateTaskProgress badger batch) = JS.of_Z p /\
            0 <= p <= 100.
Proof.
  intros Hne. unfold Tasks.calculateTaskProgress. cbn [Tasks.tp_percentage].
  rewrite count_completed_value. unfold JS.of_nat.
  pose proof (filter_length_bound (fun r => Tasks.requirement_met r batch)
                (requirements (task badger))) as Hb.
  set (c := length (List.filter _ _)) in *.
  set (n := length (requirements (task badger))) in *.
  assert (Hn : (0 < n)%nat).
  { unfold n. destruct (requirements (task badger)); [now contradiction Hne | simpl; lia]. }
  apply (percentage_range (inject_Z (Z.min (Z.of_nat c) (2 ^ 53))) (Z.of_nat n)).
  - lia.
  - rewrite <- (Zle_Qle 0). lia.
  - rewrite <- Zle_Qle. lia.
Qed.

Lemma taskProgress_no_requirements (badger : HoneyBadger) (batch : list TaskSubmission) :
  requirements (task badger) = [] ->
  Tasks.tp_percentage (Tasks.calculateTaskProgress badger batch) = JS.NaN.
Proof. intros H. unfold Tasks.calculateTaskProgress. rewrite H. reflexivity. Qed.

(** ** C2: a completed result is at 100 percent *)

Lemma taskProgress_completed_100 (badger : HoneyBadger) (batch : list TaskSubmission) :
  Tasks.tp_completed (Tasks.calculateTaskProgress badger batch) = true ->
  Tasks.tp_percentage (Tasks.calculateTaskProgress badger batch) = JS.of_Z 100.
Proof.
  unfold Tasks.calculateTaskProgress. simpl.
  match goal with |- context [JS.round ?x] => generalize x end.
  intros a.
  destruct (round_cases a) as [[z ->] | [-> | [-> | ->]]]; try discriminate.
  intros H. apply strict_eq_of_Z in H. now subst.
Qed.

(** A requirement counted as complete by the fitness loop has progress 1. *)
Lemma progress_reaches_one ToNumber fd r :
  JS.geb (Tasks.requirement_progress ToNumber fd r) (JS.of_Z 1) = true ->
  exists q, Tasks.requirement_progress ToNumber fd r = JS.Fin q /\ (q == 1)%Q.
Proof.
  unfold Tasks.requirement_progress.
  destruct (Tasks.metric fd (rtype r)) as [observed|]; [|discriminate].
  destruct (JS.div observed (Tasks.to_number ToNumber (target r))) as [| | |q];
    simpl; try discriminate.
  - intros _. exists 1%Q. split; reflexivity.
  - destruct (Qle_bool q (inject_Z 1)) eqn:Hle; simpl.
    + intros Hge. exists q. split; [reflexivity|].
      apply Qle_bool_iff in Hle, Hge. now apply Qle_antisym.
    + intros _. exists (inject_Z 1). split; reflexivity.
Qed.

(** The loop computes the running sum of the ratios and counts those that
    reach 1. *)
Lemma fitness_loop_split ToNumber fd reqs total count :
  fold_left (Tasks.fitness_step ToNumber fd) reqs (total, count) =
    (fold_left JS.add (map (Tasks.requirement_progress ToNumber fd) reqs) total,
     fold_left (fun c x => if JS.geb x (JS.of_Z 1) then JS.add c (JS.of_Z 1) else c)
       (map (Tasks.requirement_progress ToNumber fd) reqs) count).
Proof.
  revert total count. induction reqs as [|r reqs IH]; intros total count.
  - reflexivity.
  - cbn [fold_left map]. unfold Tasks.fitness_step at 2. now rewrite IH.
Qed.

Lemma fitness_loop_value ToNumber fd reqs :
  let ratios := map (Tasks.requirement_progress ToNumber fd) reqs in
  Tasks.fitness_loop ToNumber fd reqs =
    (fold_left JS.add ratios (JS.of_Z 0),
     JS.of_Z (Z.min (Z.of_nat (length (List.filter (fun x => JS.geb x (JS.of_Z 1)) ratios)))
                (2 ^ 53))).
Proof.
  intros ratios. unfold Tasks.fitness_loop. rewrite fitness_loop_split. fold ratios.
  f_equal. rewrite (count_fold (fun x => JS.geb x (JS.of_Z 1)) ratios 0) by lia.
  reflexivity.
Qed.

(** Adding ratios that are all 1 counts them, up to 2^53. *)
Lemma sum_of_ones (ratios : list JS.number) (a : Z) :
  forallb (fun x => JS.geb x (JS.of_Z 1)) ratios = true ->
  (forall x, In x ratios -> JS.geb x (JS.of_Z 1) = true ->
     exists q, x = JS.Fin q /\ (q == 1)%Q) ->
  0 <= a -> a + Z.of_nat (length ratios) <= 2 ^ 53 ->
  fold_left JS.add ratios (JS.of_Z a) = JS.of_Z (a + Z.of_nat (length ratios)).
Proof.
  revert a. induction ratios as [|x ratios IH]; intros a Hall Hone Ha Hlen.
  - cbn [fold_left length]. f_equal. lia.
  - cbn [forallb] in Hall. apply andb_true_iff in Hall as [Hx Hall].
    destruct (Hone x (or_introl eq_refl) Hx) as (q & -> & Hq).
    cbn [fold_left length] in *. unfold JS.of_Z at 1. cbn [JS.add].
    assert (Hsum : (inject_Z a + q == inject_Z (a + 1))%Q).
    { rewrite Hq, inject_Z_plus. reflexivity. }
    rewrite (round64_comp _ _ Hsum), round64_Z by lia.
    rewrite IH; [f_equal; lia | exact Hall | | lia | lia].
    intros y Hy. apply Hone. now right.
Qed.

Lemma fitnessProgress_completed_100 ToNumber (badger : HoneyBadger) fd :
  requirements (task badger) <> [] ->
  Tasks.fp_completed (Tasks.calculateFitnessProgress ToNumber badger fd) = true ->
  Tasks.fp_percentage (Tasks.calculateFitnessProgress ToNumber badger fd) = JS.of_Z 100.
Proof.
  intros Hne. unfold Tasks.calculateFitnessProgress.
  rewrite fitness_loop_value. cbn [Tasks.fp_percentage Tasks.fp_completed].
  set (reqs := requirements (task badger)) in *.
  set (ratios := map (Tasks.requirement_progress ToNumber fd) reqs).
  intros Hc.
  replace (length reqs) with (length ratios) in * by apply length_map.
  apply counted_all in Hc as [Hall Hlen].
  rewrite (sum_of_ones ratios 0 Hall); [| | lia | lia].
  - unfold JS.of_nat. apply percentage_whole.
    unfold ratios. rewrite length_map.
    destruct reqs; [now contradiction Hne | simpl; lia].
  - intros x Hx Hge. unfold ratios in Hx. apply in_map_iff in Hx as (r & <- & _).
    now apply progress_reaches_one.
Qed.

(** C2. For every task with at least one requirement (the schema of a task
    asks for at least one), every submission batch and every fitness
    snapshot: when the submission-based evaluator answers completed, its
    percentage is 100, and when the fitness-based evaluator answers completed,
    its percentage is 100. *)
Theorem completed_implies_percentage_100
    (ToNumber : string -> JS.number) (badger : HoneyBadger)
    (batch : list TaskSubmission) (fd : Tasks.FitnessData) :
  requirements (task badger) <> [] ->
  (Tasks.tp_completed (Tasks.calculateTaskProgress badger batch) = true ->
   Tasks.tp_percentage (Tasks.calculateTaskProgress badger batch) = JS.of_Z 100) /\
  (Tasks.fp_completed (Tasks.calculateFitnessProgress ToNumber badger fd) = true ->
   Tasks.fp_percentage (Tasks.calculateFitnessProgress ToNumber badger fd) = JS.of_Z 100).
Proof.
  intros Hne. split.
  - apply taskProgress_completed_100.
  - now apply fitnessProgress_completed_100.
Qed.

(** Both evaluators on inputs that complete the task. *)
Lemma completed_implies_percentage_100_witness :
  Tasks.tp_percentage
    (Tasks.calculateTaskProgress Samples.text_photo_badger Samples.text_photo_batch)
    = JS.of_Z 100 /\
  Tasks.fp_percentage
    (Tasks.calculateFitnessProgress Samples.ToNumber_NaN Samples.fitness_badger
       Samples.full_snapshot)
    = JS.of_Z 100.
Proof.
  split.
  - destruct (completed_implies_percentage_100 Samples.ToNumber_NaN
                Samples.text_photo_badger Samples.text_photo_batch Samples.snapshot)
      as [Hsub _]; [discriminate|].
    apply Hsub. vm_compute. reflexivity.
  - destruct (completed_implies_percentage_100 Samples.ToNumber_NaN
                Samples.fitness_badger [] Samples.full_snapshot)
      as [_ Hfit]; [discriminate|].
    apply Hfit. vm_compute. reflexivity.
Defined.

(** ** C4: numeric targets in the submission-based evaluator *)

(** A submission that passed the route's schema keeps a non-empty string as
    content when the route stamps it. *)
Lemma process_submission_valid uploadedFiles now index s :
  Tasks.valid_submission s = true ->
  Tasks.valid_submission (Tasks.process_submission uploadedFiles now index s) = true.
Proof.
  unfold Tasks.valid_submission, Tasks.process_submission.
  cbn [stype content].
  intros H. apply andb_true_iff in H as [Ht Hc]. rewrite Ht.
  cbn [andb].
  destruct (String.eqb (stype s) "photo" || String.eqb (stype s) "video");
    [|exact Hc].
  destruct (uploadedFiles !! index) as [u|]; [|exact Hc].
  destruct (String.eqb u "") eqn:Hu; [exact Hc|]. now rewrite Hu.
Qed.

(** On string contents the evaluator never looks at the target: a
    requirement is met exactly when the batch has a submission of its type
    and that type is photo, video or text. *)
Lemma requirement_met_string_contents (r : TaskRequirement) (batch : list TaskSubmission) :
  forallb Tasks.valid_submission batch = true ->
  Tasks.requirement_met r batch =
    existsb (fun s => String.eqb (rtype r) (stype s) &&
                      (String.eqb (rtype r) "photo" || String.eqb (rtype r) "video"
                       || String.eqb (rtype r) "text")) batch.
Proof.
  unfold Tasks.requirement_met.
  assert (Hgen : forall acc,
    forallb Tasks.valid_submission batch = true ->
    fold_left (Tasks.check_submission r) batch acc =
      acc || existsb (fun s => String.eqb (rtype r) (stype s) &&
                      (String.eqb (rtype r) "photo" || String.eqb (rtype r) "video"
                       || String.eqb (rtype r) "text")) batch).
  { induction batch as [|s batch IH]; intros acc Hv; simpl.
    - now rewrite orb_false_r.
    - simpl in Hv. apply andb_true_iff in Hv as [Hs Hv].
      rewrite (IH _ Hv). rewrite orb_assoc. f_equal.
      unfold Tasks.check_submission, Tasks.valid_submission in *.
      apply andb_true_iff in Hs as [_ Hc].
      destruct (content s) as [n|c]; [discriminate|].
      simpl. rewrite Hc, andb_false_r. simpl.
      destruct (String.eqb (rtype r) (stype s)); simpl.
      + destruct (String.eqb (rtype r) "photo"), (String.eqb (rtype r) "video"),
          (String.eqb (rtype r) "text"), acc; reflexivity.
      + destruct acc; reflexivity. }
  intros Hv. now rewrite (Hgen false Hv).
Qed.

(** The batch the submission route hands to the evaluator holds non-empty
    strings only. *)
Lemma processed_batch_valid (body : list TaskSubmission) (uploadedFiles : list string)
    (t_stamp : nat -> Z) :
  Tasks.schemas_submitTask body = true ->
  forallb Tasks.valid_submission
    (imap (fun index => Tasks.process_submission uploadedFiles (t_stamp index) index) body)
  = true.
Proof.
  intros Hschema. unfold Tasks.schemas_submitTask in Hschema.
  apply andb_true_iff in Hschema as [_ Hall].
  apply forallb_forall. intros s Hs.
  apply list_elem_of_In, list_elem_of_lookup in Hs as [i Hi].
  rewrite list_lookup_imap in Hi.
  destruct (body !! i) as [s0|] eqn:Hb; [|discriminate].
  simpl in Hi. injection Hi as <-.
  apply process_submission_valid.
  rewrite forallb_forall in Hall. apply Hall.
  apply list_elem_of_In, list_elem_of_lookup. now exists i.
Qed.

(** C4, as stated, fails: the requirement {type: text, target: 5} is
    satisfied by the batch [{type: text, content: "3"}], whose content parses
    to 3, less than the target. *)
Lemma numeric_target_parse_counterexample :
  ~ (forall (r : TaskRequirement) (batch : list TaskSubmission),
        JS.is_number (target r) = true ->
        Tasks.requirement_met r batch = Spec.numeric_satisfied r batch).
Proof.
  intros H.
  specialize (H (Samples.requirement "text" (JS.VNum (JS.of_Z 5))) Samples.three_batch
                eq_refl).
  vm_compute in H. discriminate H.
Qed.

(** C4 (amended). On the batch of a submission that passed the route's
    schema (contents are non-empty strings, and nothing parses them), the
    target of a requirement is never compared: the requirement, whatever its
    target, is satisfied exactly when the batch has a submission of its type
    and that type is photo, video or text. The numeric comparison
    content >= target decides only for a content that is itself a number,
    with a numeric target and a type other than photo and video. *)
Theorem numeric_target_not_compared
    (r : TaskRequirement) (body : list TaskSubmission)
    (uploadedFiles : list string) (t_stamp : nat -> Z) :
  Tasks.schemas_submitTask body = true ->
  let batch :=
    imap (fun index => Tasks.process_submission uploadedFiles (t_stamp index) index) body in
  Tasks.requirement_met r batch =
    existsb (fun s => String.eqb (rtype r) (stype s) &&
                      (String.eqb (rtype r) "photo" || String.eqb (rtype r) "video"
                       || String.eqb (rtype r) "text")) batch /\
  (forall met s,
      JS.is_number (target r) = true -> JS.is_number (content s) = true ->
      rtype r = stype s -> rtype r <> "photo" -> rtype r <> "video" ->
      Tasks.check_submission r met s = JS.value_geb (content s) (target r)).
Proof.
  intros Hschema batch. split.
  - apply requirement_met_string_contents.
    now apply processed_batch_valid.
  - intros met s Ht Hc Htype Hp Hv. unfold Tasks.check_submission.
    rewrite <- Htype, String.eqb_refl.
    apply String.eqb_neq in Hp, Hv. now rewrite Hp, Hv, Ht, Hc.
Qed.

(** The text requirement with target 5 and the text submission "3". *)
Lemma numeric_target_not_compared_witness :
  Tasks.requirement_met (Samples.requirement "text" (JS.VNum (JS.of_Z 5)))
    (imap (fun index => Tasks.process_submission [] 7 index) Samples.three_batch)
  = true.
Proof.
  destruct (numeric_target_not_compared
              (Samples.requirement "text" (JS.VNum (JS.of_Z 5))) Samples.three_batch
              [] (fun _ => 7) eq_refl) as [Hmet _].
  rewrite Hmet. reflexivity.
Defined.

(** ** C5: the fitness-based evaluator *)



(** ** C6: the expiration sweep *)

Lemma updateMany_lookup filter update (db : gmap string HoneyBadger) id :
  fst (updateMany filter update db) !! id =
    (fun b => if filter b then update b else b) <$> db !! id.
Proof. unfold updateMany. simpl. apply lookup_fmap. Qed.

Lemma date_lt_spec (d : option Z) (now : Z) :
  Cron.date_lt d now = true <-> exists t, d = Some t /\ t < now.
Proof.
  unfold Cron.date_lt. destruct d as [t|].
  - rewrite Z.ltb_lt. split; [intros H; now exists t | intros (t' & [= <-] & H); exact H].
  - split; [discriminate | intros (t & H & _); discriminate].
Qed.

Lemma cleanup_filter_spec (now : Z) (b : HoneyBadger) :
  Cron.cleanup_filter now b = true <->
  ~ In (status b) terminal /\ exists t, expiresAt b = Some t /\ t < now.
Proof.
  unfold Cron.cleanup_filter.
  rewrite andb_true_iff, negb_true_iff, includes_not_In, date_lt_spec. reflexivity.
Qed.

(** C6. One run of the expiration sweep: a delivery that is not terminal and
    whose expiresAt is in the past is stored with status 'expired' and is
    otherwise as before; every other delivery is stored unchanged; no
    delivery appears; and an 'in-progress' delivery with expiresAt in the past
    ends 'expired' although the table of the status route has no transition
    from 'in-progress' to 'expired'. *)
Theorem cleanup_expires_exactly
    (now : Z) (db : gmap string HoneyBadger) (id : string) (b : HoneyBadger) :
  db !! id = Some b ->
  let db' := fst (Cron.cleanupExpiredBadgers now db) in
  (~ In (status b) terminal /\ (exists t, expiresAt b = Some t /\ t < now) ->
   db' !! id = Some (set_status "expired" b)) /\
  (~ (~ In (status b) terminal /\ (exists t, expiresAt b = Some t /\ t < now)) ->
   db' !! id = Some b) /\
  (forall j, db !! j = None -> db' !! j = None) /\
  (status b = "in-progress" -> (exists t, expiresAt b = Some t /\ t < now) ->
   status_of db' id = Some "expired") /\
  Badgers.transition_allowed "in-progress" "expired" = false.
Proof.
  intros Hlook db'.
  assert (Hat : db' !! id =
                Some (if Cron.cleanup_filter now b then set_status "expired" b else b)).
  { unfold db', Cron.cleanupExpiredBadgers. now rewrite updateMany_lookup, Hlook. }
  repeat split.
  - intros Hexp. apply cleanup_filter_spec in Hexp. now rewrite Hat, Hexp.
  - intros Hnot. rewrite Hat.
    destruct (Cron.cleanup_filter now b) eqn:Hf; [|reflexivity].
    apply cleanup_filter_spec in Hf. contradiction.
  - intros j Hj. unfold db', Cron.cleanupExpiredBadgers.
    now rewrite updateMany_lookup, Hj.
  - intros Hst Hpast. unfold status_of. rewrite Hat.
    assert (Hf : Cron.cleanup_filter now b = true).
    { apply cleanup_filter_spec. split; [|exact Hpast].
      rewrite Hst. unfold terminal. simpl. intros [H | [H | [H | []]]]; discriminate. }
    now rewrite Hf.
Qed.

(** An in-progress badger that expired at 100, swept at 150. *)
Lemma cleanup_expires_exactly_witness :
  let b := Samples.badger "in-progress" "custom" Samples.text_task "manual" (Some 100) in
  status_of (fst (Cron.cleanupExpiredBadgers 150 {[ "b1" := b ]})) "b1" = Some "expired".
Proof.
  intros b.
  destruct (cleanup_expires_exactly 150 {[ "b1" := b ]} "b1" b) as (_ & _ & _ & H & _).
  - reflexivity.
  - apply H; [reflexivity|]. exists 100. split; [reflexivity | lia].
Defined.

(** ** C3: what the operations do to a terminal delivery *)

Lemma status_of_lookup (db : gmap string HoneyBadger) id b :
  db !! id = Some b -> status_of db id = Some (status b).
Proof. intros H. unfold status_of. now rewrite H. Qed.

Ltac terminal_cases H :=
  unfold terminal in H; simpl in H;
  destruct H as [H | [H | [H | []]]]; symmetry in H.

Lemma updateStatus_loaded_terminal b status' now :
  In (status b) terminal ->
  snd (Badgers.updateStatus_loaded b status' now) = None.
Proof.
  intros Hterm. unfold Badgers.updateStatus_loaded.
  destruct (Badgers.transition_allowed (status b) status') eqn:Ha; [|reflexivity].
  now apply transition_allowed_nonterminal in Ha.
Qed.

Lemma submit_loaded_terminal b body uploadedFiles aiResponse t_stamp t_updated
    t_completed t_chat :
  In (status b) terminal ->
  snd (Tasks.submit_loaded b body uploadedFiles aiResponse
         t_stamp t_updated t_completed t_chat) = [].
Proof.
  intros Hterm. unfold Tasks.submit_loaded.
  terminal_cases Hterm; rewrite Hterm; reflexivity.
Qed.

Lemma view_loaded_terminal user b :
  In (status b) terminal -> snd (Badgers.view_loaded user b) = None.
Proof.
  intros Hterm. unfold Badgers.view_loaded.
  terminal_cases Hterm; rewrite Hterm; rewrite andb_false_r; reflexivity.
Qed.

Lemma sweep_filters_terminal now b :
  In (status b) terminal ->
  Cron.deadline_filter now b = false /\ Cron.cleanup_filter now b = false.
Proof.
  intros Hterm. unfold Cron.deadline_filter, Cron.cleanup_filter.
  terminal_cases Hterm; rewrite Hterm; split; reflexivity.
Qed.

(** Every handler saves the document it loaded under the same [_id]. *)
Ltac same_id :=
  intros; repeat match goal with
                 | H : context [if ?c then _ else _] |- _ => destruct c
                 | H : context [match ?o with Some _ => _ | None => _ end] |- _ =>
                     destruct o
                 end;
  simpl in *; try discriminate;
  match goal with H : Some _ = Some _ |- _ => injection H as <- end;
  reflexivity.

Lemma updateStatus_loaded_id bd status' now b' :
  snd (Badgers.updateStatus_loaded bd status' now) = Some b' -> _id b' = _id bd.
Proof. unfold Badgers.updateStatus_loaded. same_id. Qed.

Lemma view_loaded_id user bd b' :
  snd (Badgers.view_loaded user bd) = Some b' -> _id b' = _id bd.
Proof. unfold Badgers.view_loaded. same_id. Qed.

Lemma cancel_loaded_id bd b' :
  snd (Badgers.cancel_loaded bd) = Some b' -> _id b' = _id bd.
Proof. unfold Badgers.cancel_loaded. same_id. Qed.

Lemma status_after_submit_id bd done now :
  _id (Tasks.status_after_submit bd done now) = _id bd.
Proof.
  unfold Tasks.status_after_submit.
  repeat match goal with |- context [if ?c then _ else _] => destruct c end;
    reflexivity.
Qed.

Lemma submit_loaded_id bd body uploadedFiles aiResponse t_stamp t_updated t_completed
    t_chat b' :
  In b' (snd (Tasks.submit_loaded bd body uploadedFiles aiResponse
                t_stamp t_updated t_completed t_chat)) ->
  _id b' = _id bd.
Proof.
  unfold Tasks.submit_loaded.
  destruct (negb _); [intros []|]. destruct uploadedFiles; [|intros []].
  destruct (validates _); [|intros []].
  cbn [snd]. intros [<- | [<- | []]];
    cbn [_id Methods.addChatMessage set_chat]; now rewrite status_after_submit_id.
Qed.

Lemma syncFitness_loaded_id ToNumber bd fd t_updated t_completed b' :
  snd (Tasks.syncFitness_loaded ToNumber bd fd t_updated t_completed) = Some b' ->
  _id b' = _id bd.
Proof.
  unfold Tasks.syncFitness_loaded.
  destruct (negb _); [discriminate|]. destruct fd; [|discriminate].
  destruct (validates _); [|discriminate].
  cbn [snd]. intros [= <-].
  repeat match goal with |- context [if ?c then _ else _] => destruct c end;
    reflexivity.
Qed.

Lemma syncFitness_loaded_completed ToNumber bd fd t_updated t_completed b' :
  status bd = "completed" ->
  snd (Tasks.syncFitness_loaded ToNumber bd fd t_updated t_completed) = Some b' ->
  status b' = "completed".
Proof.
  intros Hdone. unfold Tasks.syncFitness_loaded.
  destruct (negb _); [discriminate|]. destruct fd; [|discriminate].
  destruct (validates _); [|discriminate].
  cbn [snd]. intros [= <-]. simpl. rewrite Hdone. simpl.
  rewrite andb_false_r. simpl. exact Hdone.
Qed.

(** A handler that saves nothing for a terminal document leaves every
    terminal status of the collection as it is. *)
Lemma finish_absorbs (db : gmap string HoneyBadger) id id' query bd r b :
  well_keyed db ->
  db !! id = Some b ->
  In (status b) terminal ->
  findOne db id' query = Some bd ->
  (In (status bd) terminal -> snd r = None) ->
  (forall b', snd r = Some b' -> _id b' = _id bd) ->
  status_of (snd (finish db r)) id = Some (status b).
Proof.
  intros Hwk Hlook Hterm Hfind Hnone Hid.
  apply findOne_inv in Hfind as [Hbd _].
  destruct r as [resp [b'|]]; cbn [finish snd] in *;
    [|now apply status_of_lookup].
  specialize (Hid b' eq_refl). rewrite (Hwk _ _ Hbd) in Hid.
  destruct (decide (id = id')) as [-> | Hne].
  - rewrite Hlook in Hbd. injection Hbd as <-. now specialize (Hnone Hterm).
  - unfold status_of. rewrite lookup_save_ne by congruence.
    now rewrite Hlook.
Qed.

Lemma lookup_saves_ne (db : gmap string HoneyBadger) (docs : list HoneyBadger) j :
  (forall b', In b' docs -> _id b' <> j) ->
  fold_left (fun db b => save b db) docs db !! j = db !! j.
Proof.
  revert db. induction docs as [|d docs IH]; intros db Hne; [reflexivity|].
  cbn [fold_left]. rewrite IH.
  - apply lookup_save_ne. intros ->. now apply (Hne d (or_introl eq_refl)).
  - intros b' Hb. apply Hne. now right.
Qed.

Lemma finish_all_absorbs (db : gmap string HoneyBadger) id id' query bd r b :
  well_keyed db ->
  db !! id = Some b ->
  In (status b) terminal ->
  findOne db id' query = Some bd ->
  (In (status bd) terminal -> snd r = []) ->
  (forall b', In b' (snd r) -> _id b' = _id bd) ->
  status_of (snd (finish_all db r)) id = Some (status b).
Proof.
  intros Hwk Hlook Hterm Hfind Hnone Hid.
  apply findOne_inv in Hfind as [Hbd _].
  unfold finish_all. cbn [snd].
  destruct (decide (id = id')) as [-> | Hne].
  - rewrite Hlook in Hbd. injection Hbd as <-. rewrite (Hnone Hterm).
    now apply status_of_lookup.
  - unfold status_of. rewrite lookup_saves_ne; [now rewrite Hlook|].
    intros b' Hb. rewrite (Hid b' Hb), (Hwk _ _ Hbd). congruence.
Qed.

Lemma well_keyed_singleton (b : HoneyBadger) :
  well_keyed {[ _id b := b ]}.
Proof.
  intros k d H. apply lookup_singleton_Some in H as [<- <-]. reflexivity.
Qed.

(** C3, as stated, fails for the cancel request: the sender's cancel of an
    expired delivery stores it as cancelled. *)
Lemma cancel_not_absorbing_counterexample :
  ~ Spec.absorbing (fun db => snd (Badgers.cancel db "b1" "alice")).
Proof.
  intros Habs.
  pose (b := Samples.badger "expired" "custom" Samples.text_task "manual" None).
  assert (Hkept := Habs {[ "b1" := b ]} "b1" b (well_keyed_singleton b) eq_refl
                     (or_intror (or_intror (or_introl eq_refl)))).
  vm_compute in Hkept. discriminate Hkept.
Qed.

(** C3 (amended). On a collection keyed by [_id], a delivery whose status is
    'completed', 'cancelled' or 'expired' keeps its status under every
    status-transition request, submission, view and under both sweeps that
    write a status. A cancel request leaves it terminal: whoever asks and for
    whichever delivery, the status is kept, except that an 'expired' delivery
    can become 'cancelled'; asked by its sender, the cancel of the delivery is
    refused (400, nothing stored) exactly when the status is 'completed', and
    otherwise succeeds and stores 'cancelled', so 'cancelled' stays
    'cancelled' and 'expired' becomes 'cancelled'; asked by anybody else it is
    answered not found and stores nothing. A 'completed' delivery stays
    'completed' under a fitness sync. *)
Theorem terminal_statuses_kept (ToNumber : string -> JS.number) :
  (forall id' user status' now,
      Spec.absorbing (fun db => snd (Badgers.updateStatus db id' user status' now))) /\
  (forall id' user body uploadedFiles aiResponse t_stamp t_updated t_completed t_chat,
      Spec.absorbing
        (fun db => snd (Tasks.submit db id' user body uploadedFiles aiResponse
                          t_stamp t_updated t_completed t_chat))) /\
  (forall id' user, Spec.absorbing (fun db => snd (Badgers.view db id' user))) /\
  (forall now, Spec.absorbing (fun db => fst (Cron.checkDeadlines now db))) /\
  (forall now, Spec.absorbing (fun db => fst (Cron.cleanupExpiredBadgers now db))) /\
  (forall (db : gmap string HoneyBadger) id b id' user,
      well_keyed db -> db !! id = Some b -> In (status b) terminal ->
      status_of (snd (Badgers.cancel db id' user)) id = Some (status b) \/
      (status b = "expired" /\
       status_of (snd (Badgers.cancel db id' user)) id = Some "cancelled")) /\
  (forall (db : gmap string HoneyBadger) id b user,
      well_keyed db -> db !! id = Some b -> In (status b) terminal ->
      (Badgers.is_sender user b = false ->
       Badgers.cancel db id user = (failure 404 "Badger not found or not authorized", db)) /\
      (Badgers.is_sender user b = true -> status b = "completed" ->
       Badgers.cancel db id user = (failure 400 "Cannot cancel completed badger", db)) /\
      (Badgers.is_sender user b = true -> status b <> "completed" ->
       Badgers.cancel db id user = (ok, <[id := set_status "cancelled" b]> db) /\
       status_of (snd (Badgers.cancel db id user)) id = Some "cancelled")) /\
  (forall (db : gmap string HoneyBadger) id b id' user fitnessData t_updated t_completed,
      well_keyed db -> db !! id = Some b -> status b = "completed" ->
      status_of (snd (Tasks.syncFitness ToNumber db id' user fitnessData
                        t_updated t_completed)) id
      = Some "completed").
Proof.
  repeat match goal with |- _ /\ _ => split end.
  - intros id' user status' now db id b Hwk Hlook Hterm.
    unfold Badgers.updateStatus.
    destruct (findOne db id' _) as [bd|] eqn:Hfind;
      [|now apply status_of_lookup].
    eapply finish_absorbs; eauto.
    + intros Hbd. now apply updateStatus_loaded_terminal.
    + intros b'. apply updateStatus_loaded_id.
  - intros id' user body uploadedFiles aiResponse t_stamp t_updated t_completed t_chat
      db id b Hwk Hlook Hterm.
    unfold Tasks.submit.
    destruct (negb _); [now apply status_of_lookup|].
    destruct (findOne db id' _) as [bd|] eqn:Hfind;
      [|now apply status_of_lookup].
    eapply finish_all_absorbs; eauto.
    + intros Hbd. now apply submit_loaded_terminal.
    + intros b'. apply submit_loaded_id.
  - intros id' user db id b Hwk Hlook Hterm.
    unfold Badgers.view.
    destruct (findOne db id' _) as [bd|] eqn:Hfind;
      [|now apply status_of_lookup].
    eapply finish_absorbs; eauto.
    + intros Hbd. now apply view_loaded_terminal.
    + intros b'. apply view_loaded_id.
  - intros now db id b Hwk Hlook Hterm.
    unfold status_of, Cron.checkDeadlines. rewrite updateMany_lookup, Hlook.
    cbn [fmap option_fmap option_map].
    destruct (sweep_filters_terminal now b Hterm) as [-> _]. reflexivity.
  - intros now db id b Hwk Hlook Hterm.
    unfold status_of, Cron.cleanupExpiredBadgers. rewrite updateMany_lookup, Hlook.
    cbn [fmap option_fmap option_map].
    destruct (sweep_filters_terminal now b Hterm) as [_ ->]. reflexivity.
  - intros db id b id' user Hwk Hlook Hterm.
    unfold Badgers.cancel.
    destruct (findOne db id' _) as [bd|] eqn:Hfind;
      [|left; now apply status_of_lookup].
    apply findOne_inv in Hfind as [Hbd _].
    pose proof (Hwk _ _ Hbd) as Hkey.
    unfold Badgers.cancel_loaded.
    destruct (String.eqb (status bd) "completed") eqn:Hc;
      cbn [finish snd]; [left; now apply status_of_lookup|].
    destruct (decide (id = id')) as [-> | Hne].
    + rewrite Hlook in Hbd. injection Hbd as <-.
      unfold status_of, save. cbn [_id set_status]. rewrite Hkey, lookup_insert_eq.
      cbn [fmap option_fmap option_map status set_status].
      terminal_cases Hterm; rewrite Hterm in *;
        [discriminate Hc | left; reflexivity | right; split; reflexivity].
    + left. unfold status_of. rewrite lookup_save_ne.
      * now rewrite Hlook.
      * cbn [_id set_status]. congruence.
  - intros db id b user Hwk Hlook Hterm.
    unfold Badgers.cancel, findOne, Badgers.cancel_loaded. rewrite Hlook.
    split; [|split].
    + intros Hsender. now rewrite Hsender.
    + intros Hsender Hdone. now rewrite Hsender, Hdone.
    + intros Hsender Hopen. rewrite Hsender.
      apply String.eqb_neq in Hopen. rewrite Hopen.
      cbn [finish snd]. unfold status_of, save. cbn [_id set_status].
      rewrite (Hwk _ _ Hlook), lookup_insert_eq. split; reflexivity.
  - intros db id b id' user fitnessData t_updated t_completed Hwk Hlook Hdone.
    unfold Tasks.syncFitness. rewrite <- Hdone.
    destruct (findOne db id' _) as [bd|] eqn:Hfind;
      [|now apply status_of_lookup].
    pose proof Hfind as Hfind'. apply findOne_inv in Hfind' as [Hbd _].
    pose proof (Hwk _ _ Hbd) as Hkey.
    destruct (Tasks.syncFitness_loaded ToNumber bd fitnessData t_updated t_completed)
      as [resp [b'|]] eqn:Hrun; cbn [finish snd];
      [|now apply status_of_lookup].
    pose proof (syncFitness_loaded_id ToNumber bd fitnessData t_updated t_completed b')
      as Hid.
    rewrite Hrun in Hid. specialize (Hid eq_refl).
    destruct (decide (id = id')) as [-> | Hne].
    + rewrite Hlook in Hbd. injection Hbd as <-.
      unfold status_of, save. rewrite Hid, Hkey, lookup_insert_eq.
      cbn [fmap option_fmap option_map]. f_equal.
      rewrite Hdone.
      apply (syncFitness_loaded_completed ToNumber b fitnessData t_updated t_completed
               b' Hdone).
      now rewrite Hrun.
    + unfold status_of. rewrite lookup_save_ne by congruence.
      now rewrite Hlook.
Qed.

(** A completed fitness badger under a fitness sync and a status request, and
    an expired one cancelled by its sender. *)
Lemma terminal_statuses_kept_witness :
  let b := Samples.badger "completed" "fitness" Samples.fitness_requirements "automatic" None in
  let e := Samples.badger "expired" "custom" Samples.text_task "manual" None in
  status_of (snd (Tasks.syncFitness Samples.ToNumber_NaN {[ "b1" := b ]} "b1" "bob"
                    (Some Samples.snapshot) 9 9)) "b1" = Some "completed" /\
  status_of (snd (Badgers.updateStatus {[ "b1" := b ]} "b1" "bob" "in-progress" 9)) "b1"
    = Some "completed" /\
  status_of (snd (Badgers.cancel {[ "b1" := e ]} "b1" "alice")) "b1" = Some "cancelled".
Proof.
  intros b e.
  destruct (terminal_statuses_kept Samples.ToNumber_NaN)
    as (Hupdate & _ & _ & _ & _ & _ & Hcancel & Hsync).
  split; [|split].
  - apply (Hsync {[ "b1" := b ]} "b1" b);
      [apply (well_keyed_singleton b) | reflexivity | reflexivity].
  - apply (Hupdate "b1" "bob" "in-progress" 9 {[ "b1" := b ]} "b1" b);
      [apply (well_keyed_singleton b) | reflexivity | unfold terminal; simpl; tauto].
  - destruct (Hcancel {[ "b1" := e ]} "b1" e "alice") as (_ & _ & Hdo);
      [apply (well_keyed_singleton e) | reflexivity | unfold terminal; simpl; tauto |].
    apply Hdo; [reflexivity | discriminate].
Defined.

(** ** C7: chat pagination *)

Lemma window_from_take_drop {A : Type} (l : list A) (i : nat) (lo hi : Z) :
  Spec.window_from i lo hi l =
    take (Z.to_nat (hi - Z.max lo (Z.of_nat i))) (drop (Z.to_nat (lo - Z.of_nat i)) l).
Proof.
  revert i. induction l as [|x l IH]; intros i.
  - now rewrite drop_nil, take_nil.
  - cbn [Spec.window_from]. rewrite IH.
    destruct (lo <=? Z.of_nat i) eqn:Hlo; [apply Z.leb_le in Hlo | apply Z.leb_gt in Hlo].
    + destruct (Z.of_nat i <? hi) eqn:Hhi;
        [apply Z.ltb_lt in Hhi | apply Z.ltb_ge in Hhi]; cbn [andb].
      * replace (Z.to_nat (lo - Z.of_nat i)) with 0%nat by lia.
        replace (Z.to_nat (lo - Z.of_nat (S i))) with 0%nat by lia.
        replace (Z.to_nat (hi - Z.max lo (Z.of_nat i)))
          with (S (Z.to_nat (hi - Z.max lo (Z.of_nat (S i))))) by lia.
        reflexivity.
      * replace (Z.to_nat (hi - Z.max lo (Z.of_nat i))) with 0%nat by lia.
        replace (Z.to_nat (hi - Z.max lo (Z.of_nat (S i)))) with 0%nat by lia.
        reflexivity.
    + cbn [andb].
      replace (Z.to_nat (lo - Z.of_nat i))
        with (S (Z.to_nat (lo - Z.of_nat (S i)))) by lia.
      replace (Z.max lo (Z.of_nat (S i))) with (Z.max lo (Z.of_nat i)) by lia.
      reflexivity.
Qed.

(** With bounds that are not negative, [slice] takes the window of positions. *)
Lemma slice_window {A : Type} (l : list A) (a b : Z) :
  0 <= a -> 0 <= b -> JS.slice l a b = Spec.window_from 0 a b l.
Proof.
  intros Ha Hb. rewrite window_from_take_drop. unfold JS.slice, JS.relative_index.
  destruct (a <? 0) eqn:Ea; [apply Z.ltb_lt in Ea; lia|].
  destruct (b <? 0) eqn:Eb; [apply Z.ltb_lt in Eb; lia|].
  replace (Z.max a (Z.of_nat 0)) with a by lia.
  replace (a - Z.of_nat 0) with a by lia.
  destruct (Z_lt_le_dec a (Z.of_nat (length l))) as [Hlt | Hge].
  - replace (Z.min a (Z.of_nat (length l))) with a by lia.
    destruct (Z_le_gt_dec b (Z.of_nat (length l))) as [Hble | Hbgt].
    + now replace (Z.min b (Z.of_nat (length l))) with b by lia.
    + replace (Z.min b (Z.of_nat (length l))) with (Z.of_nat (length l)) by lia.
      rewrite !take_ge; [reflexivity | rewrite length_drop; lia | rewrite length_drop; lia].
  - rewrite !drop_ge by lia. now rewrite !take_nil.
Qed.

Lemma page_bounds (page limit : Z) :
  1 <= page -> 0 <= limit ->
  0 <= (page - 1) * limit /\ 0 <= (page - 1) * limit + limit.
Proof. intros Hp Hl. nia. Qed.

(** C7, as stated for every page and limit, fails: for page 1 and limit -1
    the route answers all messages but the oldest, while no position lies in
    the window from 0 to -1. *)
Lemma chat_page_negative_limit_counterexample :
  ~ (forall (chat : list ChatMessage) (page limit : Z),
        Chat.getChatPage chat page limit = Spec.page_by_window chat page limit).
Proof.
  intros H. specialize (H Samples.five_messages 1 (-1)).
  vm_compute in H. discriminate H.
Qed.

(** C7 (amended). For every chat log, every page from 1 on and every limit
    that is not negative, the route answers the entries of the reversed log
    at the positions from skip = (page - 1) * limit (included) to skip + limit
    (excluded), in chronological order; page 1 is the last limit messages of
    the log; and for five messages with timestamps 1 < ... < 5, page 1 and
    limit 2 give the messages stamped 4 and 5. *)
Theorem chat_page_is_window (chat : list ChatMessage) (page limit : Z) :
  1 <= page -> 0 <= limit ->
  Chat.getChatPage chat page limit = Spec.page_by_window chat page limit /\
  Chat.getChatPage chat 1 limit = drop (length chat - Z.to_nat limit) chat /\
  map msg_timestamp (Chat.getChatPage Samples.five_messages 1 2) = [4; 5].
Proof.
  intros Hp Hl. split; [|split].
  - unfold Chat.getChatPage, Spec.page_by_window.
    destruct (page_bounds page limit Hp Hl) as [Hs He].
    now rewrite slice_window.
  - unfold Chat.getChatPage.
    rewrite slice_window by lia. rewrite window_from_take_drop.
    replace (Z.to_nat ((1 - 1) * limit - Z.of_nat 0)) with 0%nat by lia.
    replace (Z.to_nat ((1 - 1) * limit + limit - Z.max ((1 - 1) * limit) (Z.of_nat 0)))
      with (Z.to_nat limit) by lia.
    rewrite drop_0, firstn_rev, rev_involutive. reflexivity.
  - reflexivity.
Qed.

(** The second page of two messages out of five. *)
Lemma chat_page_is_window_witness :
  Chat.getChatPage Samples.five_messages 2 2 =
    Spec.page_by_window Samples.five_messages 2 2.
Proof.
  apply (chat_page_is_window Samples.five_messages 2 2); lia.
Defined.

(** ** C8: the engagement level *)

Lemma totalDays_two (first : ChatMessage) (rest : list ChatMessage) (now : Z) :
  Samples.day < now - msg_timestamp first <= 2 * Samples.day ->
  Chat.totalDays (first :: rest) now = 2.
Proof.
  unfold Samples.day. intros Hspan. unfold Chat.totalDays, Chat.ceil_div.
  set (a := now - msg_timestamp first) in *.
  assert (Hq : - a / (1000 * 60 * 60 * 24) = -2).
  { symmetry. apply (Z.div_unique _ _ _ (- a + 2 * (1000 * 60 * 60 * 24))); lia. }
  rewrite Hq. reflexivity.
Qed.

(** C8, as stated, fails: four messages of the recipient over two days are
    two messages per day, and the level is not "high". *)
Lemma engagement_high_counterexample :
  Chat.userMessages Samples.four_user_messages = 4%nat /\
  Chat.totalDays Samples.four_user_messages (2 * Samples.day) = 2 /\
  (Chat.messagesPerDay Samples.four_user_messages (2 * Samples.day) == 2)%Q /\
  Chat.calculateEngagementLevel Samples.four_user_messages (2 * Samples.day) <> "high".
Proof. repeat split. discriminate. Qed.

(** C8 (amended). For a chat with 4 non-companion messages whose first
    message is more than one and at most two days old, the analytics compute
    messagesPerDay = 2 and the engagement level "medium" ("high" starts at 3
    messages per day). *)
Theorem engagement_four_over_two_days
    (first : ChatMessage) (rest : list ChatMessage) (now : Z) :
  Chat.userMessages (first :: rest) = 4%nat ->
  Samples.day < now - msg_timestamp first <= 2 * Samples.day ->
  (Chat.messagesPerDay (first :: rest) now == 2)%Q /\
  Chat.calculateEngagementLevel (first :: rest) now = "medium".
Proof.
  intros Hcount Hspan.
  pose proof (totalDays_two first rest now Hspan) as Hdays.
  unfold Chat.calculateEngagementLevel, Chat.messagesPerDay.
  rewrite Hcount, Hdays. split; reflexivity.
Qed.

(** The welcome at time 0 and four messages of bob, read two days later. *)
Lemma engagement_four_over_two_days_witness :
  Chat.calculateEngagementLevel Samples.four_user_messages (2 * Samples.day) = "medium".
Proof.
  apply (engagement_four_over_two_days (Samples.message "badger" 0)
           (tl Samples.four_user_messages) (2 * Samples.day)).
  - reflexivity.
  - unfold Samples.day. simpl. lia.
Defined.

(** ** C9: a user transition racing the forced expiration *)

Lemma updateStatus_loaded_allowed b status' now :
  Badgers.transition_allowed (status b) status' = true ->
  exists b2, Badgers.updateStatus_loaded b status' now = (ok, Some b2) /\
             status b2 = status' /\ _id b2 = _id b.
Proof.
  intros Ha. unfold Badgers.updateStatus_loaded. rewrite Ha. cbn [negb].
  destruct (String.eqb status' "completed"); eexists; repeat split.
Qed.

Lemma updateMany_modifies filter update (db : gmap string HoneyBadger) id b :
  db !! id = Some b -> filter b = true ->
  (0 < snd (updateMany filter update db))%nat.
Proof.
  intros Hlook Hf. unfold updateMany. cbn [snd].
  assert (Hin : In (id, b) (List.filter (fun kb => filter (snd kb)) (map_to_list db))).
  { apply filter_In. split; [|exact Hf].
    apply list_elem_of_In. now apply elem_of_map_to_list. }
  destruct (List.filter _ _); [contradiction | simpl; lia].
Qed.

Lemma force_expire_updateMany sweeper now (db : gmap string HoneyBadger) :
  Race.force_expire sweeper now db =
    updateMany (Race.sweep_filter sweeper now) (set_status "expired") db.
Proof. destruct sweeper; reflexivity. Qed.

Lemma step_route_answer rq sweep_now w s :
  Race.route_answer (Race.req_status rq) (Race.response w) ->
  Race.route_answer (Race.req_status rq) (Race.response (Race.step rq sweep_now w s)).
Proof.
  intros Hw. destruct s as [| | sweeper]; unfold Race.step.
  - destruct (findOne _ _ _); cbn [Race.response]; [exact Hw|]. right. now left.
  - destruct (Race.loaded w) as [bd|]; [|exact Hw].
    unfold Badgers.updateStatus_loaded.
    destruct (negb _); cbn [finish fst Race.response].
    + right. right. now eexists.
    + now left.
  - exact Hw.
Qed.

Lemma run_route_answer rq sweep_now schedule w :
  Race.route_answer (Race.req_status rq) (Race.response w) ->
  Race.route_answer (Race.req_status rq) (Race.response (Race.run rq sweep_now schedule w)).
Proof.
  revert w. unfold Race.run.
  induction schedule as [|s schedule IH]; intros w Hw; [exact Hw|].
  cbn [fold_left]. apply IH. now apply step_route_answer.
Qed.

(** C9, as stated, fails: when the expiration sweep runs between the
    route's read and its save, the sweep modifies the delivery and the route
    succeeds too. *)
Lemma race_both_succeed_counterexample :
  let b := Samples.badger "in-progress" "custom" Samples.text_task "manual" (Some 100) in
  let rq := {| Race.req_id := "b1"; Race.req_user := "bob";
               Race.req_status := "awaiting-verification"; Race.req_now := 200 |} in
  ~ Spec.exactly_one_succeeds
      (Race.run rq 150 [Race.UserFind; Race.Sweep Race.Expiry; Race.UserSave]
         (Race.initial {[ "b1" := b ]})).
Proof. intros b rq H. vm_compute in H. discriminate H. Qed.

(** C9 (amended). The status route reads, decides and then saves without
    comparing with what is stored, and a forced expiration (by deadline or by
    expiresAt) is one filtered bulk update: when the sweep runs between the
    route's read and its save, on a delivery its filter matches and for a
    transition the table allows, the sweep stores 'expired', the route then
    answers success and stores the requested status over it; and in every
    schedule the route's answer is success, not found or invalid transition,
    never a conflict. *)
Theorem race_last_write_wins
    (db0 : gmap string HoneyBadger) (b : HoneyBadger) (rq : Race.Request)
    (sweeper : Race.Sweeper) (sweep_now : Z) :
  db0 !! Race.req_id rq = Some b ->
  _id b = Race.req_id rq ->
  Badgers.sender_or_recipient (Race.req_user rq) b = true ->
  Badgers.transition_allowed (status b) (Race.req_status rq) = true ->
  Race.sweep_filter sweeper sweep_now b = true ->
  let mid := Race.run rq sweep_now [Race.UserFind; Race.Sweep sweeper]
               (Race.initial db0) in
  let w := Race.run rq sweep_now [Race.UserFind; Race.Sweep sweeper; Race.UserSave]
             (Race.initial db0) in
  status_of (Race.db mid) (Race.req_id rq) = Some "expired" /\
  Race.sweep_succeeded w = true /\
  Race.response w = Some ok /\
  status_of (Race.db w) (Race.req_id rq) = Some (Race.req_status rq) /\
  (forall schedule,
      Race.route_answer (Race.req_status rq)
        (Race.response (Race.run rq sweep_now schedule (Race.initial db0)))).
Proof.
  intros Hlook Hid Hauth Hallowed Hfilter mid w.
  destruct (updateStatus_loaded_allowed b (Race.req_status rq) (Race.req_now rq) Hallowed)
    as (b2 & Hrun & Hst & Hid2).
  assert (Hmid : mid =
    {| Race.db := fst (Race.force_expire sweeper sweep_now db0);
       Race.loaded := Some b; Race.response := None;
       Race.modifiedCount := Some (snd (Race.force_expire sweeper sweep_now db0)) |}).
  { unfold mid, Race.run, Race.initial. cbn [fold_left Race.step Race.db].
    rewrite (findOne_Some _ _ _ _ Hlook Hauth). reflexivity. }
  assert (Hw : w =
    {| Race.db := save b2 (fst (Race.force_expire sweeper sweep_now db0));
       Race.loaded := None; Race.response := Some ok;
       Race.modifiedCount := Some (snd (Race.force_expire sweeper sweep_now db0)) |}).
  { unfold w, Race.run.
    change [Race.UserFind; Race.Sweep sweeper; Race.UserSave]
      with ([Race.UserFind; Race.Sweep sweeper] ++ [Race.UserSave])%list.
    rewrite fold_left_app.
    fold (Race.run rq sweep_now [Race.UserFind; Race.Sweep sweeper] (Race.initial db0)).
    fold mid. rewrite Hmid. cbn [fold_left Race.step Race.loaded Race.db].
    rewrite Hrun. reflexivity. }
  repeat match goal with |- _ /\ _ => split end.
  - rewrite Hmid. cbn [Race.db]. unfold status_of.
    rewrite force_expire_updateMany, updateMany_lookup, Hlook.
    cbn [fmap option_fmap option_map]. now rewrite Hfilter.
  - rewrite Hw. unfold Race.sweep_succeeded. cbn [Race.modifiedCount].
    apply Nat.ltb_lt. rewrite force_expire_updateMany.
    now apply (updateMany_modifies _ _ db0 (Race.req_id rq) b).
  - now rewrite Hw.
  - rewrite Hw. cbn [Race.db]. rewrite <- Hid, <- Hid2, <- Hst. apply status_of_save.
  - intros schedule. apply run_route_answer. exact I.
Qed.

(** bob cancels while the deadline sweep expires the same badger. *)
Lemma race_last_write_wins_witness :
  let b := Samples.deadline_badger in
  let rq := {| Race.req_id := "b1"; Race.req_user := "bob";
               Race.req_status := "cancelled"; Race.req_now := 200 |} in
  status_of
    (Race.db (Race.run rq 150 [Race.UserFind; Race.Sweep Race.Deadline; Race.UserSave]
                (Race.initial {[ "b1" := b ]}))) "b1" = Some "cancelled".
Proof.
  intros b rq.
  destruct (race_last_write_wins {[ "b1" := b ]} b rq Race.Deadline 150)
    as (_ & _ & _ & H & _);
    [reflexivity | reflexivity | reflexivity | reflexivity | reflexivity | exact H].
Defined.

(** ** C10: the status after a submission *)

Lemma status_after_submit_cases (bd : HoneyBadger) (done : bool) (now : Z) :
  let b' := Tasks.status_after_submit bd done now in
  _id b' = _id bd /\ task b' = task bd /\ chat b' = chat bd /\
  (done = true -> verificationMethod (task bd) = "automatic" ->
   status b' = "completed" /\ completedAt b' = Some now) /\
  (done = true -> verificationMethod (task bd) <> "automatic" ->
   status b' = "awaiting-verification" /\ completedAt b' = completedAt bd) /\
  (done = false -> status bd = "received" -> status b' = "in-progress") /\
  (done = false -> status bd <> "received" -> status b' = status bd).
Proof.
  unfold Tasks.status_after_submit.
  destruct done.
  - destruct (String.eqb_spec (verificationMethod (task bd)) "automatic") as [Hm | Hm];
      cbn; repeat split; intros; congruence.
  - destruct (String.eqb_spec (status bd) "received") as [Hs | Hs];
      cbn; repeat split; intros; congruence.
Qed.

(** The submission route on a delivery it accepts: the document of the first
    save and, with the companion's answer, that of the second; or 500 when the
    percentage computed does not validate. *)
Lemma submit_loaded_open
    (b : HoneyBadger) (body : list TaskSubmission) (files : list string)
    (aiResponse : string) (t_stamp : nat -> Z) (t_updated t_completed t_chat : Z) :
  In (status b) ["received"; "in-progress"; "awaiting-verification"] ->
  let processed :=
    imap (fun index => Tasks.process_submission files (t_stamp index) index) body in
  let loaded :=
    set_progress (set_submissions (submissions (progress (task b)) ++ processed)
                    (progress (task b))) b in
  let result := Tasks.calculateTaskProgress loaded processed in
  let progress' :=
    {| completed := Tasks.tp_completed result;
       percentage := Tasks.tp_percentage result;
       submissions := (submissions (progress (task b)) ++ processed)%list;
       verificationStatus := Tasks.tp_verificationStatus result;
       lastUpdated := t_updated |} in
  let stored :=
    Tasks.status_after_submit (set_progress progress' b) (Tasks.tp_completed result)
      t_completed in
  let answered :=
    set_chat (chat b ++ [{| msg_senderId := "badger"; msg_content := aiResponse;
                            msg_type := "text"; msg_timestamp := t_chat |}]) stored in
  Tasks.submit_loaded b body (Some files) aiResponse t_stamp t_updated t_completed t_chat
  = if percentage_valid (Tasks.tp_percentage result)
    then (ok, [stored; answered])
    else (failure 500 "Failed to process task submission", []).
Proof.
  intros Hopen processed loaded result progress' stored answered.
  apply includes_In in Hopen. unfold Tasks.submit_loaded. rewrite Hopen.
  cbn [negb]. fold processed. fold loaded. fold result.
  change (set_progress _ (set_progress _ (set_progress _ (set_progress _ loaded))))
    with (set_progress progress' b).
  fold stored.
  destruct (status_after_submit_cases (set_progress progress' b)
              (Tasks.tp_completed result) t_completed) as (_ & Ht & Hc & _).
  fold stored in Ht, Hc.
  unfold validates. rewrite Ht.
  cbn [task set_progress progress percentage].
  change (percentage progress') with (Tasks.tp_percentage result).
  destruct (percentage_valid (Tasks.tp_percentage result)); [|reflexivity].
  unfold Methods.addChatMessage. rewrite Hc. reflexivity.
Qed.

(** Whatever the submission route saves last is the document of an accepted
    submission with the companion's answer added. *)
Lemma submit_loaded_last
    (b b' : HoneyBadger) (body : list TaskSubmission)
    (uploadedFiles : option (list string)) (aiResponse : string)
    (t_stamp : nat -> Z) (t_updated t_completed t_chat : Z) :
  last (snd (Tasks.submit_loaded b body uploadedFiles aiResponse
               t_stamp t_updated t_completed t_chat)) = Some b' ->
  exists files,
    uploadedFiles = Some files /\
    In (status b) ["received"; "in-progress"; "awaiting-verification"] /\
    let processed :=
      imap (fun index => Tasks.process_submission files (t_stamp index) index) body in
    let loaded :=
      set_progress (set_submissions (submissions (progress (task b)) ++ processed)
                      (progress (task b))) b in
    let result := Tasks.calculateTaskProgress loaded processed in
    let progress' :=
      {| completed := Tasks.tp_completed result;
         percentage := Tasks.tp_percentage result;
         submissions := (submissions (progress (task b)) ++ processed)%list;
         verificationStatus := Tasks.tp_verificationStatus result;
         lastUpdated := t_updated |} in
    let stored :=
      Tasks.status_after_submit (set_progress progress' b) (Tasks.tp_completed result)
        t_completed in
    percentage_valid (Tasks.tp_percentage result) = true /\
    b' = set_chat (chat b ++ [{| msg_senderId := "badger"; msg_content := aiResponse;
                                 msg_type := "text"; msg_timestamp := t_chat |}]) stored.
Proof.
  destruct (JS.includes ["received"; "in-progress"; "awaiting-verification"] (status b))
    eqn:Hopen.
  - apply includes_In in Hopen. destruct uploadedFiles as [files|].
    + rewrite (submit_loaded_open b body files aiResponse t_stamp t_updated t_completed
                 t_chat Hopen).
      cbv zeta.
      destruct (percentage_valid _) eqn:Hvalid; [|discriminate].
      cbn [snd last]. intros [= <-]. exists files.
      split; [reflexivity|]. split; [exact Hopen|]. split; [exact Hvalid | reflexivity].
    + unfold Tasks.submit_loaded. apply includes_In in Hopen. rewrite Hopen. discriminate.
  - unfold Tasks.submit_loaded. rewrite Hopen. discriminate.
Qed.

(** C10. A submission that passed the schema, on a delivery of the
    submitting recipient: with a status other than 'received', 'in-progress'
    or 'awaiting-verification' it is refused and nothing is stored; with one
    of these (the uploads done, and the task with requirements, as every task
    has) it is accepted, progress.completed is the evaluator's answer on the
    stamped batch, and the stored status is 'completed' with completedAt set
    when progress is complete and the verification method is 'automatic',
    'awaiting-verification' when it is complete with another method,
    'in-progress' when it is not complete and the status was 'received', and
    the previous status otherwise. (On a task without requirements the
    percentage is NaN, the save throws and the answer is 500.) *)
Theorem submit_status_update
    (db : gmap string HoneyBadger) (badgerId user : string)
    (body : list TaskSubmission) (uploadedFiles : option (list string))
    (aiResponse : string) (t_stamp : nat -> Z) (t_updated t_completed t_chat : Z)
    (b : HoneyBadger) :
  db !! badgerId = Some b ->
  _id b = badgerId ->
  Badgers.is_recipient user b = true ->
  Tasks.schemas_submitTask body = true ->
  let result := Tasks.submit db badgerId user body uploadedFiles aiResponse
                  t_stamp t_updated t_completed t_chat in
  let open := ["received"; "in-progress"; "awaiting-verification"] in
  (~ In (status b) open ->
   result = (failure 400 "Cannot submit to badger in current status", db)) /\
  (success (fst result) = true -> In (status b) open) /\
  (In (status b) open ->
   forall files, uploadedFiles = Some files ->
   (requirements (task b) = [] ->
    result = (failure 500 "Failed to process task submission", db)) /\
   (requirements (task b) <> [] ->
    exists b',
     result = (ok, <[badgerId := b']> db) /\
     (let processed :=
        imap (fun index => Tasks.process_submission files (t_stamp index) index) body in
      let loaded :=
        set_progress (set_submissions (submissions (progress (task b)) ++ processed)
                        (progress (task b))) b in
      completed (progress (task b'))
      = Tasks.tp_completed (Tasks.calculateTaskProgress loaded processed)) /\
     (completed (progress (task b')) = true ->
      verificationMethod (task b) = "automatic" ->
      status b' = "completed" /\ completedAt b' = Some t_completed) /\
     (completed (progress (task b')) = true ->
      verificationMethod (task b) <> "automatic" ->
      status b' = "awaiting-verification") /\
     (completed (progress (task b')) = false ->
      status b = "received" -> status b' = "in-progress") /\
     (completed (progress (task b')) = false ->
      status b <> "received" -> status b' = status b))).
Proof.
  intros Hlook Hid Hrec Hschema result open.
  unfold result, Tasks.submit. rewrite Hschema. cbn [negb].
  rewrite (findOne_Some _ _ _ _ Hlook Hrec).
  destruct (JS.includes open (status b)) eqn:Hopen.
  - apply includes_In in Hopen.
    split; [intros Hnot; contradiction|]. split; [intros _; exact Hopen|].
    intros _ files ->.
    rewrite (submit_loaded_open b body files aiResponse t_stamp t_updated t_completed
               t_chat Hopen).
    cbv zeta.
    set (processed :=
           imap (fun index => Tasks.process_submission files (t_stamp index) index) body).
    set (loaded :=
           set_progress (set_submissions (submissions (progress (task b)) ++ processed)
                           (progress (task b))) b).
    set (res := Tasks.calculateTaskProgress loaded processed).
    match goal with
    | |- context [Tasks.status_after_submit ?bd ?done t_completed] =>
        pose proof (status_after_submit_cases bd done t_completed) as Hcases;
        set (after := Tasks.status_after_submit bd done t_completed) in *
    end.
    cbn zeta in Hcases.
    destruct Hcases as (Hi & Ht & _ & Hauto & Hother & Hprog & Hsame).
    split.
    + intros Hnone.
      pose proof (taskProgress_no_requirements loaded processed Hnone) as Hnan.
      fold res in Hnan. rewrite Hnan. reflexivity.
    + intros Hsome.
      destruct (taskProgress_percentage loaded processed Hsome) as (p & Hp & Hrange).
      fold res in Hp. rewrite Hp, (percentage_valid_range p Hrange).
      eexists. split.
      * unfold finish_all. cbn [fst snd fold_left]. unfold save.
        cbn [_id set_chat]. rewrite Hi. cbn [_id set_progress].
        rewrite Hid, insert_insert_eq. reflexivity.
      * cbn [task set_chat status completedAt]. rewrite Ht.
        cbn [task set_progress progress completed verificationMethod status
             completedAt] in *.
        split; [reflexivity|]. split; [|split; [|split]].
        -- intros Hdone Hm. now apply Hauto.
        -- intros Hdone Hm. now apply Hother.
        -- intros Hdone Hs. now apply Hprog.
        -- intros Hdone Hs. now apply Hsame.
  - apply includes_not_In in Hopen.
    assert (Hrefused :
      Tasks.submit_loaded b body uploadedFiles aiResponse t_stamp t_updated t_completed
        t_chat = (failure 400 "Cannot submit to badger in current status", [])).
    { unfold Tasks.submit_loaded. apply includes_not_In in Hopen.
      fold open. now rewrite Hopen. }
    rewrite Hrefused.
    split; [intros _; reflexivity|].
    split; [cbn; discriminate | intros Hin; contradiction].
Qed.

(** bob completes a manually verified task in one batch. *)
Lemma submit_status_update_witness :
  let db : gmap string HoneyBadger := {[ "b1" := Samples.text_photo_badger ]} in
  exists b',
    Tasks.submit db "b1" "bob" Samples.text_photo_batch (Some []) "Well done!"
      (fun index => 50 + Z.of_nat index) 52 53 54
      = (ok, <["b1" := b']> db) /\
    status b' = "awaiting-verification".
Proof.
  intros db.
  destruct (submit_status_update db "b1" "bob" Samples.text_photo_batch (Some [])
              "Well done!" (fun index => 50 + Z.of_nat index) 52 53 54
              Samples.text_photo_badger)
    as (_ & _ & Haccept); [reflexivity | reflexivity | reflexivity | reflexivity |].
  destruct (Haccept (or_introl eq_refl) [] eq_refl) as (_ & Hsome).
  destruct (Hsome ltac:(discriminate)) as (b' & Hres & Hdone & _ & Hmanual & _).
  exists b'. split; [exact Hres|].
  apply Hmanual; [|discriminate].
  rewrite Hdone. vm_compute. reflexivity.
Defined.

(** * Further properties of the code *)

(** ** The sweeps that force a status *)

Lemma deadline_filter_spec (now : Z) (b : HoneyBadger) :
  Cron.deadline_filter now b = true <->
  In (status b) ["received"; "in-progress"] /\
  exists t, deadline (task b) = Some t /\ t < now.
Proof.
  unfold Cron.deadline_filter.
  rewrite andb_true_iff, includes_In, date_lt_spec. reflexivity.
Qed.

(** The deadline sweep expires exactly the 'received' and 'in-progress'
    deliveries whose task deadline is in the past; every other delivery is
    stored unchanged, also a 'sent' or 'awaiting-verification' one whose
    deadline has passed; no delivery appears. *)
Theorem checkDeadlines_expires_exactly
    (now : Z) (db : gmap string HoneyBadger) (id : string) (b : HoneyBadger) :
  db !! id = Some b ->
  let db' := fst (Cron.checkDeadlines now db) in
  let due := In (status b) ["received"; "in-progress"] /\
             exists t, deadline (task b) = Some t /\ t < now in
  (due -> db' !! id = Some (set_status "expired" b)) /\
  (~ due -> db' !! id = Some b) /\
  (status b = "sent" \/ status b = "awaiting-verification" -> db' !! id = Some b) /\
  (forall j, db !! j = None -> db' !! j = None).
Proof.
  intros Hlook db' due.
  assert (Hat : db' !! id =
                Some (if Cron.deadline_filter now b then set_status "expired" b else b)).
  { unfold db', Cron.checkDeadlines. now rewrite updateMany_lookup, Hlook. }
  split; [|split; [|split]].
  - intros Hdue. apply deadline_filter_spec in Hdue. now rewrite Hat, Hdue.
  - intros Hnot. rewrite Hat.
    destruct (Cron.deadline_filter now b) eqn:Hf; [|reflexivity].
    apply deadline_filter_spec in Hf. contradiction.
  - intros Hst. rewrite Hat.
    destruct (Cron.deadline_filter now b) eqn:Hf; [|reflexivity].
    apply deadline_filter_spec in Hf as [Hin _]. simpl in Hin.
    destruct Hst as [Hst | Hst]; rewrite Hst in Hin;
      destruct Hin as [H | [H | []]]; discriminate.
  - intros j Hj. unfold db', Cron.checkDeadlines.
    now rewrite updateMany_lookup, Hj.
Qed.

(** An in-progress badger that was due at 100, swept at 150. *)
Lemma checkDeadlines_expires_exactly_witness :
  status_of (fst (Cron.checkDeadlines 150 {[ "b1" := Samples.deadline_badger ]})) "b1"
  = Some "expired".
Proof.
  destruct (checkDeadlines_expires_exactly 150 {[ "b1" := Samples.deadline_badger ]}
              "b1" Samples.deadline_badger) as (Hdue & _); [reflexivity|].
  unfold status_of. rewrite Hdue; [reflexivity|].
  split; [simpl; tauto | exists 100; split; [reflexivity | lia]].
Defined.

Lemma filter_none {A : Type} (p : A -> bool) (l : list A) :
  (forall x, In x l -> p x = false) -> List.filter p l = [].
Proof.
  induction l as [|x l IH]; intros H; simpl; [reflexivity|].
  rewrite (H x (or_introl eq_refl)). apply IH. intros y Hy. apply H. now right.
Qed.

(** An update after which the filter no longer matches can be run twice:
    the second run changes nothing and modifies no document. *)
Lemma updateMany_twice filter update (db : gmap string HoneyBadger) :
  (forall b, filter (update b) = false) ->
  updateMany filter update (fst (updateMany filter update db))
  = (fst (updateMany filter update db), 0%nat).
Proof.
  intros Hoff.
  assert (Hafter : forall k b,
             fst (updateMany filter update db) !! k = Some b -> filter b = false).
  { intros k b. rewrite updateMany_lookup.
    destruct (db !! k) as [b0|]; [|discriminate]. simpl.
    destruct (filter b0) eqn:Hf; intros [= <-]; [apply Hoff | exact Hf]. }
  unfold updateMany at 1. f_equal.
  - apply map_eq. intros k. rewrite lookup_fmap.
    destruct (fst (updateMany filter update db) !! k) as [b|] eqn:Hk; [|reflexivity].
    simpl. now rewrite (Hafter k b Hk).
  - rewrite filter_none; [reflexivity|].
    intros [k b] Hin. apply list_elem_of_In, elem_of_map_to_list in Hin.
    simpl. exact (Hafter k b Hin).
Qed.

Lemma expired_not_swept now b :
  Cron.deadline_filter now (set_status "expired" b) = false /\
  Cron.cleanup_filter now (set_status "expired" b) = false.
Proof. split; reflexivity. Qed.

(** Both forced-expiration sweeps are idempotent: a second run at the same
    instant stores the same collection and reports no modified document. *)
Theorem sweeps_idempotent (now : Z) (db : gmap string HoneyBadger) :
  Cron.checkDeadlines now (fst (Cron.checkDeadlines now db))
  = (fst (Cron.checkDeadlines now db), 0%nat) /\
  Cron.cleanupExpiredBadgers now (fst (Cron.cleanupExpiredBadgers now db))
  = (fst (Cron.cleanupExpiredBadgers now db), 0%nat).
Proof.
  split.
  - apply updateMany_twice. intros b. apply expired_not_swept.
  - apply updateMany_twice. intros b. apply expired_not_swept.
Qed.

(** The two sweeps commute: run in either order, at whatever instants, they
    store the same collection. *)
Theorem sweeps_commute (now1 now2 : Z) (db : gmap string HoneyBadger) :
  fst (Cron.checkDeadlines now1 (fst (Cron.cleanupExpiredBadgers now2 db)))
  = fst (Cron.cleanupExpiredBadgers now2 (fst (Cron.checkDeadlines now1 db))).
Proof.
  apply map_eq. intros k.
  unfold Cron.checkDeadlines, Cron.cleanupExpiredBadgers.
  rewrite !updateMany_lookup.
  destruct (db !! k) as [b|]; [|reflexivity].
  cbn [fmap option_fmap option_map]. f_equal.
  destruct (Cron.cleanup_filter now2 b) eqn:Hc,
           (Cron.deadline_filter now1 b) eqn:Hd;
    rewrite ?(proj1 (expired_not_swept now1 b)), ?(proj2 (expired_not_swept now2 b)),
      ?Hc, ?Hd; reflexivity.
Qed.

(** ** Deadline notices and reminders *)

Lemma ceil_div_bounds (a h n : Z) :
  0 < h -> 0 <= a <= n * h -> 0 <= Chat.ceil_div a h <= n.
Proof.
  intros Hh [Ha Hn]. unfold Chat.ceil_div.
  assert (Hlo : - n <= - a / h) by (apply Z.div_le_lower_bound; lia).
  assert (Hhi : - a / h <= 0) by (apply Z.div_le_upper_bound; lia).
  lia.
Qed.

(** Every deadline notice of a run announces between 0 and 24 hours, for a
    stored delivery, and the forced expiration of the same run leaves that
    delivery as it is. *)
Theorem deadline_notice_sound
    (now : Z) (db : gmap string HoneyBadger) (k : string) (h : Z) :
  In (k, h) (Notices.deadline_notices now db) ->
  0 <= h <= 24 /\
  exists b, db !! k = Some b /\
            h = Notices.hoursUntilDeadline now b /\
            In (status b) ["received"; "in-progress"] /\
            fst (Cron.checkDeadlines now db) !! k = Some b.
Proof.
  unfold Notices.deadline_notices. intros Hin.
  apply list_elem_of_In, list_elem_of_fmap in Hin as ([k' b] & Heq & Hin).
  simpl in Heq. injection Heq as -> ->.
  apply list_elem_of_In, filter_In in Hin as [Hin Hsoon].
  apply list_elem_of_In, elem_of_map_to_list in Hin. simpl in Hsoon.
  unfold Notices.deadline_soon in Hsoon.
  apply andb_true_iff in Hsoon as [Hst Hd]. apply includes_In in Hst.
  destruct (deadline (task b)) as [d|] eqn:Hdl; [|discriminate].
  apply andb_true_iff in Hd as [Hge Hle].
  apply Z.leb_le in Hge, Hle.
  split.
  - unfold Notices.hoursUntilDeadline. rewrite Hdl.
    apply ceil_div_bounds; unfold Notices.hour; lia.
  - exists b. repeat split; try assumption.
    unfold Cron.checkDeadlines. rewrite updateMany_lookup, Hin. simpl.
    destruct (Cron.deadline_filter now b) eqn:Hf; [|reflexivity].
    apply deadline_filter_spec in Hf as (_ & t & Ht & Hlt).
    rewrite Hdl in Ht. injection Ht as <-. lia.
Qed.

(** A task due in 5 hours and a half is announced as due in 6 hours. *)
Lemma deadline_notice_sound_witness :
  0 <= 6 <= 24 /\
  exists b, ({[ "b1" := Scenes.due_badger ]} : gmap string HoneyBadger) !! "b1" = Some b /\
            6 = Notices.hoursUntilDeadline 0 b /\
            In (status b) ["received"; "in-progress"] /\
            fst (Cron.checkDeadlines 0 {[ "b1" := Scenes.due_badger ]}) !! "b1" = Some b.
Proof.
  apply (deadline_notice_sound 0 {[ "b1" := Scenes.due_badger ]} "b1" 6).
  vm_compute. left. reflexivity.
Defined.

Lemma Qle_bool_hours (k a : Z) :
  Qle_bool (inject_Z k) (inject_Z a / inject_Z Notices.hour) = (k * Notices.hour <=? a).
Proof.
  unfold Notices.hour.
  destruct (k * (1000 * 60 * 60) <=? a) eqn:Hle.
  - apply Z.leb_le in Hle. apply Qle_bool_iff.
    apply Qle_shift_div_l; [reflexivity|].
    rewrite <- inject_Z_mult, <- Zle_Qle. exact Hle.
  - apply Z.leb_gt in Hle.
    destruct (Qle_bool _ _) eqn:Hq; [|reflexivity].
    apply Qle_bool_iff in Hq.
    assert (Hm : (inject_Z k * inject_Z (1000 * 60 * 60) <= inject_Z a)%Q).
    { apply (Qmult_le_r _ _ (/ inject_Z (1000 * 60 * 60))); [reflexivity|].
      rewrite <- Qmult_assoc, Qmult_inv_r, Qmult_1_r; [exact Hq | discriminate]. }
    rewrite <- inject_Z_mult, <- Zle_Qle in Hm. lia.
Qed.

(** The cadence of reminders: a recipient with frequency high, medium or low
    is due a reminder exactly when the last chat message is at least 4, 12 or
    24 hours old, to the millisecond; with an empty chat a reminder is due
    at every frequency; with any other frequency it never is. *)
Theorem reminder_cadence (badger : HoneyBadger) (now : Z) :
  let hours := Notices.hoursSinceLastMessage badger now in
  (forall m, last (chat badger) = Some m ->
     Notices.shouldSend "high" hours = (4 * Notices.hour <=? now - msg_timestamp m) /\
     Notices.shouldSend "medium" hours = (12 * Notices.hour <=? now - msg_timestamp m) /\
     Notices.shouldSend "low" hours = (24 * Notices.hour <=? now - msg_timestamp m)) /\
  (last (chat badger) = None ->
     Notices.shouldSend "high" hours = true /\
     Notices.shouldSend "medium" hours = true /\
     Notices.shouldSend "low" hours = true) /\
  (forall frequency, ~ In frequency ["high"; "medium"; "low"] ->
     Notices.shouldSend frequency hours = false).
Proof.
  intros hours. unfold hours, Notices.hoursSinceLastMessage.
  split; [|split].
  - intros m ->. unfold Notices.shouldSend. cbn [String.eqb Ascii.eqb Bool.eqb].
    repeat split; apply Qle_bool_hours.
  - intros ->. repeat split.
  - intros frequency Hf. unfold Notices.shouldSend.
    destruct (String.eqb_spec frequency "high") as [-> | _]; [simpl in Hf; tauto|].
    destruct (String.eqb_spec frequency "medium") as [-> | _]; [simpl in Hf; tauto|].
    destruct (String.eqb_spec frequency "low") as [-> | _]; [simpl in Hf; tauto|].
    reflexivity.
Qed.

(** Five messages, the last at time 5, read 12 hours later. *)
Lemma reminder_cadence_witness :
  Notices.shouldSend "medium"
    (Notices.hoursSinceLastMessage Scenes.chatty_badger (5 + 12 * Notices.hour)) = true /\
  Notices.shouldSend "low"
    (Notices.hoursSinceLastMessage Scenes.chatty_badger (5 + 12 * Notices.hour)) = false.
Proof.
  destruct (reminder_cadence Scenes.chatty_badger (5 + 12 * Notices.hour))
    as (Hlast & _).
  destruct (Hlast (Samples.message "badger" 5) eq_refl) as (_ & -> & ->).
  split; reflexivity.
Defined.

Lemma remind_sound users now badgers id :
  In id (fst (Notices.remind users now badgers)) ->
  exists b, In b badgers /\ _id b = id /\ Notices.reminded users now b.
Proof.
  induction badgers as [|b badgers IH]; simpl; [tauto|].
  destruct (users !! recipientId b) as [recipient|] eqn:Hu; [|simpl; tauto].
  destruct (Notices.remind users now badgers) as [sent finished]. simpl in *.
  intros Hin. apply in_app_or in Hin as [Hin | Hin].
  - destruct (Notices.badgerReminders recipient) eqn:Hr; [|contradiction].
    destruct (Notices.shouldSend _ _) eqn:Hs; [|contradiction].
    simpl in Hin. destruct Hin as [<- | []].
    exists b. split; [now left|]. split; [reflexivity|]. now exists recipient.
  - destruct (IH Hin) as (b' & Hb' & Hid & Hrem).
    exists b'. split; [now right | now split].
Qed.

Lemma remind_complete users now badgers b :
  snd (Notices.remind users now badgers) = true ->
  In b badgers -> Notices.reminded users now b ->
  In (_id b) (fst (Notices.remind users now badgers)).
Proof.
  induction badgers as [|b0 badgers IH]; simpl; [tauto|].
  destruct (users !! recipientId b0) as [recipient|] eqn:Hu; [|discriminate].
  destruct (Notices.remind users now badgers) as [sent finished]. simpl in *.
  intros Hfin [-> | Hin] Hrem; apply in_or_app.
  - left. destruct Hrem as (r & Hr & Hflag & Hsend).
    rewrite Hu in Hr. injection Hr as <-. rewrite Hflag, Hsend. now left.
  - right. now apply IH.
Qed.

(** The reminder sweep: whoever is reminded has a stored 'received' or
    'in-progress' delivery without progress for more than a day, has the
    reminder flag on and is due by cadence; and when the sweep runs to its
    end, every such delivery gets its reminder. *)
Theorem reminders_exact
    (users : gmap string Notices.User) (now : Z) (db : gmap string HoneyBadger) :
  (forall id, In id (fst (Notices.sendTaskReminders users now db)) ->
     exists k b,
       db !! k = Some b /\ _id b = id /\
       In (status b) ["received"; "in-progress"] /\
       lastUpdated (progress (task b)) < now - 24 * 60 * 60 * 1000 /\
       Notices.reminded users now b) /\
  (snd (Notices.sendTaskReminders users now db) = true ->
   forall k b,
     db !! k = Some b ->
     In (status b) ["received"; "in-progress"] ->
     lastUpdated (progress (task b)) < now - 24 * 60 * 60 * 1000 ->
     Notices.reminded users now b ->
     In (_id b) (fst (Notices.sendTaskReminders users now db))).
Proof.
  unfold Notices.sendTaskReminders. split.
  - intros id Hin. apply remind_sound in Hin as (b & Hb & Hid & Hrem).
    apply filter_In in Hb as [Hb Hf].
    apply list_elem_of_In, list_elem_of_fmap in Hb as ([k b'] & -> & Hkb).
    apply elem_of_map_to_list in Hkb. simpl in *.
    unfold Notices.reminder_filter in Hf.
    apply andb_true_iff in Hf as [Hst Hold].
    apply includes_In in Hst. apply Z.ltb_lt in Hold.
    exists k, b'. repeat split; assumption.
  - intros Hfin k b Hlook Hst Hold Hrem.
    apply remind_complete; [exact Hfin | | exact Hrem].
    apply filter_In. split.
    + apply list_elem_of_In, list_elem_of_fmap. exists (k, b). split; [reflexivity|].
      now apply elem_of_map_to_list.
    + unfold Notices.reminder_filter.
      apply andb_true_iff. split; [now apply includes_In | now apply Z.ltb_lt].
Qed.

(** bob's received badger, idle since time 0 and with an empty chat, three
    days later. *)
Lemma reminders_exact_witness :
  let idle := Samples.badger "received" "custom" Samples.text_task "manual" None in
  In "b1" (fst (Notices.sendTaskReminders {[ "bob" := Scenes.bob ]} (3 * Samples.day)
                  {[ "b1" := idle ]})).
Proof.
  intros idle.
  destruct (reminders_exact {[ "bob" := Scenes.bob ]} (3 * Samples.day) {[ "b1" := idle ]})
    as (_ & Hall).
  apply (Hall eq_refl "b1" idle).
  - reflexivity.
  - simpl. tauto.
  - vm_compute. reflexivity.
  - exists Scenes.bob. repeat split.
Defined.

(** ** Sending a message *)

(** A message to an existing delivery of the user: refused, with nothing
    stored, when the delivery is completed, cancelled or expired; otherwise
    the user's message and then the companion's answer are appended to the
    log, and status and task stay as they are. *)
Theorem sendMessage_appends
    (db : gmap string HoneyBadger) (badgerId user content : string)
    (type : option string) (aiContent : string) (t_user t_ai : Z) (b : HoneyBadger) :
  db !! badgerId = Some b ->
  _id b = badgerId ->
  Badgers.sender_or_recipient user b = true ->
  Messages.schemas_sendMessage content type = true ->
  let result := Messages.sendMessage db badgerId user content type aiContent t_user t_ai in
  (In (status b) terminal ->
   result = (failure 400 "Cannot send messages to inactive badger", db)) /\
  (~ In (status b) terminal ->
   exists b',
     result = (ok, <[badgerId := b']> db) /\
     chat b' = (chat b ++
       [ {| msg_senderId := user; msg_content := content;
            msg_type := match type with Some t => t | None => "text" end;
            msg_timestamp := t_user |};
         {| msg_senderId := "badger"; msg_content := aiContent; msg_type := "text";
            msg_timestamp := t_ai |} ])%list /\
     status b' = status b /\ task b' = task b /\
     expiresAt b' = expiresAt b /\ completedAt b' = completedAt b).
Proof.
  intros Hlook Hid Hauth Hschema result.
  unfold result, Messages.sendMessage. rewrite Hschema. cbn [negb].
  rewrite (findOne_Some _ _ _ _ Hlook Hauth).
  unfold Messages.sendMessage_loaded. fold terminal.
  destruct (JS.includes terminal (status b)) eqn:Hterm.
  - apply includes_In in Hterm. split; [reflexivity | intros Hnot; contradiction].
  - apply includes_not_In in Hterm. split; [intros Hin; contradiction|].
    intros _. eexists. split.
    + cbn [finish]. unfold save. cbn [_id Methods.addChatMessage set_chat].
      rewrite Hid. reflexivity.
    + cbn [chat Methods.addChatMessage set_chat status task expiresAt completedAt
           msg_senderId msg_content msg_type].
      rewrite <- app_assoc. repeat split.
Qed.

(** alice writes to her in-progress badger. *)
Lemma sendMessage_appends_witness :
  let b := Samples.badger "in-progress" "custom" Samples.text_task "manual" None in
  exists b',
    Messages.sendMessage {[ "b1" := b ]} "b1" "alice" "How is it going?" None "Fine!" 10 11
    = (ok, <["b1" := b']> {[ "b1" := b ]}) /\
    length (chat b') = 2%nat.
Proof.
  intros b.
  destruct (sendMessage_appends {[ "b1" := b ]} "b1" "alice" "How is it going?" None
              "Fine!" 10 11 b) as (_ & Hsend);
    [reflexivity | reflexivity | reflexivity | reflexivity |].
  destruct Hsend as (b' & Hres & Hchat & _).
  - unfold terminal. simpl. intros [H | [H | [H | []]]]; discriminate.
  - exists b'. split; [exact Hres | now rewrite Hchat].
Defined.

(** ** Pages of the chat history *)

(** The page in terms of the log itself: drop what lies on later pages from
    the end, and keep the last [limit] of the rest. *)
Lemma getChatPage_closed (chat : list ChatMessage) (page limit : Z) :
  1 <= page -> 0 <= limit ->
  let n := length chat in
  let skip := Z.to_nat ((page - 1) * limit) in
  Chat.getChatPage chat page limit =
    drop (n - skip - Z.to_nat limit) (take (n - skip) chat).
Proof.
  intros Hp Hl n skip. unfold Chat.getChatPage.
  destruct (page_bounds page limit Hp Hl) as [Hs He].
  rewrite slice_window by assumption. rewrite window_from_take_drop.
  replace (Z.to_nat ((page - 1) * limit - Z.of_nat 0)) with skip by (unfold skip; lia).
  replace (Z.to_nat ((page - 1) * limit + limit - Z.max ((page - 1) * limit) (Z.of_nat 0)))
    with (Z.to_nat limit) by lia.
  rewrite skipn_rev, firstn_rev, rev_involutive.
  rewrite length_take. fold n.
  replace (Init.Nat.min (n - skip) n) with (n - skip)%nat by lia.
  reflexivity.
Qed.

(** A page holds at most [limit] messages, exactly [limit] when the log has
    that many left, and none when the pages before it exhaust the log. *)
Theorem chat_page_size (chat : list ChatMessage) (page limit : Z) :
  1 <= page -> 0 <= limit ->
  Z.of_nat (length (Chat.getChatPage chat page limit))
  = Z.max 0 (Z.min limit (Z.of_nat (length chat) - (page - 1) * limit)) /\
  (Z.of_nat (length chat) <= (page - 1) * limit ->
   Chat.getChatPage chat page limit = []).
Proof.
  intros Hp Hl.
  pose proof (getChatPage_closed chat page limit Hp Hl) as Hc. cbn zeta in Hc.
  destruct (page_bounds page limit Hp Hl) as [Hs He].
  assert (Hlen : Z.of_nat (length (Chat.getChatPage chat page limit))
                 = Z.max 0 (Z.min limit (Z.of_nat (length chat) - (page - 1) * limit))).
  { rewrite Hc, length_drop, length_take. lia. }
  split; [exact Hlen|].
  intros Hpast. apply length_zero_iff_nil. lia.
Qed.

(** Five messages in pages of two: the third page holds the oldest one. *)
Lemma chat_page_size_witness :
  Z.of_nat (length (Chat.getChatPage Samples.five_messages 3 2)) = 1 /\
  Chat.getChatPage Samples.five_messages 4 2 = [].
Proof.
  destruct (chat_page_size Samples.five_messages 3 2) as [H3 _]; [lia | lia |].
  destruct (chat_page_size Samples.five_messages 4 2) as [_ H4]; [lia | lia |].
  split; [rewrite H3; reflexivity | apply H4; simpl; lia].
Defined.

(** Reading the pages k, k-1, ..., 1 one after the other gives the last
    k * limit messages of the log, in order and without repetition: the whole
    log once k * limit reaches its length. *)
Theorem pages_cover_log (chat : list ChatMessage) (k : nat) (limit : Z) :
  0 <= limit ->
  Messages.pages_down chat k limit
  = drop (length chat - k * Z.to_nat limit) chat /\
  (Z.of_nat (length chat) <= Z.of_nat k * limit ->
   Messages.pages_down chat k limit = chat).
Proof.
  intros Hl.
  assert (Hall : forall j, Messages.pages_down chat j limit
                           = drop (length chat - j * Z.to_nat limit) chat).
  { induction j as [|j IH].
    - simpl. now rewrite Nat.sub_0_r, drop_all.
    - cbn [Messages.pages_down]. rewrite IH.
      rewrite getChatPage_closed by lia. cbn zeta.
      replace (Z.to_nat ((Z.of_nat (S j) - 1) * limit)) with (j * Z.to_nat limit)%nat by nia.
      set (n := length chat). set (L := Z.to_nat limit).
      rewrite <- (take_drop (n - j * L) chat) at 3.
      rewrite drop_app_le by (rewrite length_take; fold n; lia).
      f_equal. f_equal. lia. }
  split; [apply Hall|].
  intros Hk. rewrite Hall.
  replace (length chat - k * Z.to_nat limit)%nat with 0%nat by nia.
  apply drop_0.
Qed.

(** Three pages of two rebuild the log of five messages. *)
Lemma pages_cover_log_witness :
  Messages.pages_down Samples.five_messages 3 2 = Samples.five_messages.
Proof.
  apply (pages_cover_log Samples.five_messages 3 2); simpl; lia.
Defined.

Lemma getChatPage_last_two (chat : list ChatMessage) (m1 m2 : ChatMessage) :
  Chat.getChatPage (chat ++ [m1; m2]) 1 2 = [m1; m2].
Proof.
  rewrite getChatPage_closed by lia. cbn zeta.
  rewrite length_app. simpl length.
  replace (Z.to_nat ((1 - 1) * 2)) with 0%nat by lia.
  replace (length chat + 2 - 0 - Z.to_nat 2)%nat with (length chat) by lia.
  rewrite take_ge by (rewrite length_app; simpl; lia).
  now rewrite drop_app_length.
Qed.

(** After a message is sent, the first page of two holds exactly the
    message and the companion's answer, the message first. *)
Theorem sendMessage_then_read
    (b b' : HoneyBadger) (user content : string) (type : option string)
    (aiContent : string) (t_user t_ai : Z) :
  snd (Messages.sendMessage_loaded b user content type aiContent t_user t_ai) = Some b' ->
  map msg_senderId (Chat.getChatPage (chat b') 1 2) = [user; "badger"] /\
  map msg_content (Chat.getChatPage (chat b') 1 2) = [content; aiContent] /\
  map msg_timestamp (Chat.getChatPage (chat b') 1 2) = [t_user; t_ai].
Proof.
  unfold Messages.sendMessage_loaded.
  destruct (JS.includes _ _); [discriminate|].
  cbn [snd]. intros [= <-].
  cbn [chat Methods.addChatMessage set_chat msg_senderId msg_content msg_type].
  rewrite <- app_assoc. cbn [app].
  rewrite getChatPage_last_two. repeat split.
Qed.

(** bob answers in the five-message log. *)
Lemma sendMessage_then_read_witness :
  exists b',
    snd (Messages.sendMessage_loaded Scenes.chatty_badger "bob" "Done" None "Great" 6 7)
    = Some b' /\
    map msg_timestamp (Chat.getChatPage (chat b') 1 2) = [6; 7].
Proof.
  eexists. split; [reflexivity|].
  apply (sendMessage_then_read Scenes.chatty_badger _ "bob" "Done" None "Great" 6 7).
  reflexivity.
Defined.

(** ** The log stays chronological *)

Lemma chronological_snoc (l : list ChatMessage) (x : ChatMessage) :
  Messages.chronological l ->
  (forall m, last l = Some m -> msg_timestamp m <= msg_timestamp x) ->
  Messages.chronological (l ++ [x]).
Proof.
  induction l as [|a l IH]; intros Hc Hlast; [exact I|].
  destruct l as [|a' l].
  - simpl. split; [|exact I]. apply Hlast. reflexivity.
  - cbn [app Messages.chronological] in *. destruct Hc as [Ha Hc].
    split; [exact Ha|]. apply IH; [exact Hc|].
    intros m Hm. apply Hlast. exact Hm.
Qed.

(** With a clock that does not run backwards, the routes that append to the
    chat keep it in chronological order: a sent message with its answer, and
    the companion's answer to a submission (in the document the submission
    route saves last). *)
Theorem chat_stays_chronological (b b' : HoneyBadger) :
  Messages.chronological (chat b) ->
  (forall user content type aiContent t_user t_ai,
      (forall m, last (chat b) = Some m -> msg_timestamp m <= t_user) ->
      t_user <= t_ai ->
      snd (Messages.sendMessage_loaded b user content type aiContent t_user t_ai)
        = Some b' ->
      Messages.chronological (chat b')) /\
  (forall body uploadedFiles aiResponse t_stamp t_updated t_completed t_chat,
      (forall m, last (chat b) = Some m -> msg_timestamp m <= t_chat) ->
      last (snd (Tasks.submit_loaded b body uploadedFiles aiResponse
                   t_stamp t_updated t_completed t_chat)) = Some b' ->
      Messages.chronological (chat b')).
Proof.
  intros Hc. split.
  - intros user content type aiContent t_user t_ai Hlast Hle.
    unfold Messages.sendMessage_loaded.
    destruct (JS.includes _ _); [discriminate|].
    cbn [snd]. intros [= <-].
    cbn [chat Methods.addChatMessage set_chat msg_senderId msg_content msg_type].
    apply chronological_snoc; [apply chronological_snoc; assumption|].
    intros m. rewrite last_snoc. intros [= <-]. exact Hle.
  - intros body uploadedFiles aiResponse t_stamp t_updated t_completed t_chat Hlast Hrun.
    destruct (submit_loaded_last _ _ _ _ _ _ _ _ _ Hrun) as (files & _ & _ & Hb').
    cbv zeta in Hb'. destruct Hb' as [_ ->].
    cbn [chat set_chat]. now apply chronological_snoc.
Qed.

(** The five-message log, answered at times 6 and 7. *)
Lemma chat_stays_chronological_witness :
  exists b',
    snd (Messages.sendMessage_loaded Scenes.chatty_badger "bob" "Done" None "Great" 6 7)
    = Some b' /\
    Messages.chronological (chat b').
Proof.
  eexists. split; [reflexivity|].
  refine (proj1 (chat_stays_chronological Scenes.chatty_badger _ _)
            "bob" "Done" None "Great" 6 7 _ _ _).
  - simpl. lia.
  - intros m Hm. vm_compute in Hm. injection Hm as <-. simpl. lia.
  - lia.
  - reflexivity.
Defined.

(** ** Analytics *)

Lemma filter_partition_length {A : Type} (p : A -> bool) (l : list A) :
  (length (List.filter (fun x => negb (p x)) l) + length (List.filter p l))%nat
  = length l.
Proof.
  induction l as [|x l IH]; simpl; [reflexivity|].
  destruct (p x); simpl; lia.
Qed.

(** The analytics count every message once: the messages of users and those
    of the companion add up to the total, and the user count is the one the
    engagement level is computed from. *)
Theorem analytics_counts (badger : HoneyBadger) (createdAt now : Z) :
  let a := Messages.chatAnalytics badger createdAt now in
  (Messages.an_userMessages a + Messages.badgerMessages a)%nat = Messages.totalMessages a /\
  Messages.an_userMessages a = Chat.userMessages (chat badger).
Proof.
  split; [apply filter_partition_length | reflexivity].
Qed.

(** The engagement level decided on integers: with u messages of users and
    d = max(1, whole days begun since the first message), the level is "high"
    from 3d messages on, "medium" from d on, "low" from 1 on and "none" for
    0; d is 1 also when the first message is dated in the future. *)
Theorem engagement_thresholds (messages : list ChatMessage) (now : Z) :
  let u := Z.of_nat (Chat.userMessages messages) in
  let d := Chat.totalDays messages now in
  1 <= d /\
  Chat.calculateEngagementLevel messages now =
    (if 3 * d <=? u then "high"
     else if d <=? u then "medium"
     else if 0 <? u then "low"
     else "none") /\
  (forall first rest, messages = first :: rest -> now <= msg_timestamp first -> d = 1).
Proof.
  intros u d.
  assert (Hd : 1 <= d).
  { unfold d, Chat.totalDays. destruct messages; lia. }
  split; [exact Hd|]. split.
  - unfold Chat.calculateEngagementLevel.
    destruct messages as [|first rest].
    + simpl. reflexivity.
    + cbn [length Nat.eqb]. fold d.
      unfold Chat.messagesPerDay. fold u. fold d.
      assert (Hk : forall k, Qle_bool (inject_Z k) (inject_Z u / inject_Z d) = (k * d <=? u)).
      { intros k. destruct (k * d <=? u) eqn:Hle.
        - apply Z.leb_le in Hle. apply Qle_bool_iff.
          apply Qle_shift_div_l; [unfold Qlt; simpl; lia|].
          rewrite <- inject_Z_mult, <- Zle_Qle. exact Hle.
        - apply Z.leb_gt in Hle.
          destruct (Qle_bool _ _) eqn:Hq; [|reflexivity].
          apply Qle_bool_iff in Hq.
          assert (Hm : (inject_Z k * inject_Z d <= inject_Z u)%Q).
          { apply (Qmult_le_r _ _ (/ inject_Z d)).
            - apply Qinv_lt_0_compat. unfold Qlt. simpl. lia.
            - rewrite <- Qmult_assoc, Qmult_inv_r, Qmult_1_r; [exact Hq|].
              unfold Qeq. simpl. lia. }
          rewrite <- inject_Z_mult, <- Zle_Qle in Hm. lia. }
      change 3%Q with (inject_Z 3). change 1%Q with (inject_Z 1).
      rewrite !Hk. rewrite Z.mul_1_l.
      destruct (3 * d <=? u); [reflexivity|].
      destruct (d <=? u); [reflexivity|].
      assert (H0 : Qle_bool (inject_Z u / inject_Z d) 0 = (u <=? 0)).
      { destruct (u <=? 0) eqn:Hu.
        - apply Z.leb_le in Hu. apply Qle_bool_iff.
          apply Qle_shift_div_r; [unfold Qlt; simpl; lia|].
          rewrite Qmult_0_l. change 0%Q with (inject_Z 0). rewrite <- Zle_Qle. exact Hu.
        - apply Z.leb_gt in Hu.
          destruct (Qle_bool _ _) eqn:Hq; [|reflexivity].
          apply Qle_bool_iff in Hq.
          assert (Hm : (inject_Z u <= 0 * inject_Z d)%Q).
          { apply (Qmult_le_r _ _ (/ inject_Z d)).
            - apply Qinv_lt_0_compat. unfold Qlt. simpl. lia.
            - rewrite <- (Qmult_assoc 0), Qmult_inv_r, Qmult_1_r; [exact Hq|].
              unfold Qeq. simpl. lia. }
          rewrite Qmult_0_l in Hm. change 0%Q with (inject_Z 0) in Hm.
          rewrite <- Zle_Qle in Hm. lia. }
      rewrite H0.
      destruct (Z.ltb_spec 0 u), (Z.leb_spec u 0); try lia; reflexivity.
  - intros first rest -> Hfuture. unfold d, Chat.totalDays, Chat.ceil_div.
    assert (Hq : 0 <= - (now - msg_timestamp first) / (1000 * 60 * 60 * 24))
      by (apply Z.div_pos; lia).
    lia.
Qed.

(** A first message dated after the reading counts as one day. *)
Lemma engagement_thresholds_witness :
  Chat.totalDays [Samples.message "bob" 50] 10 = 1.
Proof.
  destruct (engagement_thresholds [Samples.message "bob" 50] 10) as (_ & _ & Hfuture).
  apply (Hfuture (Samples.message "bob" 50) []); [reflexivity | simpl; lia].
Defined.

Lemma adjacent_cons (a a' : ChatMessage) (l : list ChatMessage) :
  Messages.adjacent (a :: a' :: l) = (a, a') :: Messages.adjacent (a' :: l).
Proof. reflexivity. Qed.

Lemma adjacent_chronological (l : list ChatMessage) (p q : ChatMessage) :
  Messages.chronological l -> In (p, q) (Messages.adjacent l) ->
  msg_timestamp p <= msg_timestamp q.
Proof.
  induction l as [|a l IH]; [intros _ []|].
  destruct l as [|a' l]; [intros _ []|].
  rewrite adjacent_cons. cbn [Messages.chronological].
  intros [Ha Hc] [Heq | Hin].
  - injection Heq as <- <-. exact Ha.
  - now apply IH.
Qed.

Lemma response_fold_bounds (g : Z) (pairs : list (ChatMessage * ChatMessage)) :
  (forall p q, In (p, q) pairs -> 0 <= msg_timestamp q - msg_timestamp p <= g) ->
  forall t c, 0 <= t <= Z.of_nat c * g ->
  0 <= fst (fold_left Messages.response_step pairs (t, c))
    <= Z.of_nat (snd (fold_left Messages.response_step pairs (t, c))) * g.
Proof.
  induction pairs as [|[p q] pairs IH]; intros Hgap t c Ht; [exact Ht|].
  cbn [fold_left].
  assert (Hs : Messages.response_step (t, c) (p, q) =
               if Messages.is_badger q && negb (Messages.is_badger p)
               then (t + (msg_timestamp q - msg_timestamp p), S c) else (t, c))
    by reflexivity.
  rewrite Hs.
  specialize (Hgap p q (or_introl eq_refl)) as Hpq.
  destruct (Messages.is_badger q && negb (Messages.is_badger p));
    apply IH; try (intros p' q' Hin; apply Hgap; now right); lia.
Qed.

Lemma response_fold_none (pairs : list (ChatMessage * ChatMessage)) :
  (forall p q, In (p, q) pairs ->
     Messages.is_badger q && negb (Messages.is_badger p) = false) ->
  forall acc, fold_left Messages.response_step pairs acc = acc.
Proof.
  induction pairs as [|[p q] pairs IH]; intros Hno acc; [reflexivity|].
  cbn [fold_left]. destruct acc as [t c].
  assert (Hs : Messages.response_step (t, c) (p, q) =
               if Messages.is_badger q && negb (Messages.is_badger p)
               then (t + (msg_timestamp q - msg_timestamp p), S c) else (t, c))
    by reflexivity.
  rewrite Hs, (Hno p q (or_introl eq_refl)). apply IH.
  intros p' q' Hin. apply Hno. now right.
Qed.

(** The average response time is 0 when no message of the companion
    directly follows a message of a user; on a chronological log whose
    consecutive messages are at most g milliseconds apart it lies between 0
    and g/1000 rounded to the nearest second. *)
Theorem averageResponseTime_bounds (messages : list ChatMessage) :
  ((forall p q, In (p, q) (Messages.adjacent messages) ->
      Messages.is_badger q && negb (Messages.is_badger p) = false) ->
   Messages.calculateAverageResponseTime messages = 0) /\
  (forall g,
      Messages.chronological messages ->
      (forall p q, In (p, q) (Messages.adjacent messages) ->
         msg_timestamp q - msg_timestamp p <= g) ->
      0 <= g ->
      0 <= Messages.calculateAverageResponseTime messages <= (g + 500) / 1000).
Proof.
  unfold Messages.calculateAverageResponseTime, Messages.response_totals. split.
  - intros Hno. destruct (length messages <? 2)%nat; [reflexivity|].
    now rewrite (response_fold_none _ Hno).
  - intros g Hc Hgap Hg.
    assert (Hup : 0 <= (g + 500) / 1000) by (apply Z.div_pos; lia).
    destruct (length messages <? 2)%nat; [lia|].
    assert (Hb := response_fold_bounds g (Messages.adjacent messages)).
    assert (Hgaps : forall p q, In (p, q) (Messages.adjacent messages) ->
                      0 <= msg_timestamp q - msg_timestamp p <= g).
    { intros p q Hin. pose proof (adjacent_chronological _ p q Hc Hin).
      specialize (Hgap p q Hin). lia. }
    specialize (Hb Hgaps 0 0%nat ltac:(lia)).
    destruct (fold_left _ _ _) as [t c]. cbn [fst snd] in Hb.
    destruct (Nat.ltb_spec 0 c) as [Hpos | _]; [|lia].
    assert (Hcq : (0 < inject_Z (Z.of_nat c))%Q) by (unfold Qlt; simpl; lia).
    assert (Hlo : (0 <= inject_Z t / inject_Z (Z.of_nat c))%Q).
    { apply Qle_shift_div_l; [exact Hcq|]. rewrite Qmult_0_l.
      change 0%Q with (inject_Z 0). rewrite <- Zle_Qle. lia. }
    assert (Hhi : (inject_Z t / inject_Z (Z.of_nat c) <= inject_Z g)%Q).
    { apply Qle_shift_div_r; [exact Hcq|].
      rewrite <- inject_Z_mult, <- Zle_Qle. lia. }
    split.
    + change 0 with (Qfloor (0 / 1000 + (1 # 2))).
      apply Qfloor_resp_le, Qplus_le_l. unfold Qdiv.
      apply Qmult_le_compat_r; [exact Hlo | discriminate].
    + replace ((g + 500) / 1000) with (Qfloor (inject_Z g / 1000 + (1 # 2))).
      * apply Qfloor_resp_le, Qplus_le_l. unfold Qdiv at 1 3.
        apply Qmult_le_compat_r; [exact Hhi | discriminate].
      * unfold Qfloor. cbn -[Z.mul Z.add Z.div].
        change (Z.pos (1 * 1000 * 2)) with (1000 * 2).
        change (Z.pos (1 * 1000)) with 1000.
        replace (g * 1 * 2 + 1 * 1000) with ((g + 500) * 2) by lia.
        apply Z.div_mul_cancel_r; lia.
Qed.

(** bob's two messages answered after 2 and 4 seconds: 3 seconds on average. *)
Lemma averageResponseTime_bounds_witness :
  let log := [Samples.message "bob" 0; Samples.message "badger" 2000;
              Samples.message "bob" 10000; Samples.message "badger" 14000] in
  0 <= Messages.calculateAverageResponseTime log <= 8.
Proof.
  intros log.
  destruct (averageResponseTime_bounds log) as (_ & Hbound).
  replace 8 with ((8000 + 500) / 1000) by reflexivity.
  apply Hbound.
  - simpl. lia.
  - intros p q Hin. simpl in Hin.
    repeat destruct Hin as [Hin | Hin]; try contradiction;
      injection Hin as <- <-; simpl; lia.
  - lia.
Defined.

(** ** The submission-based evaluator *)

(** The percentage of the submission-based evaluator, for a task with
    requirements of which c of the n are met: a whole number from 0 to 100,
    as the schema of the progress asks; and, for fewer than 2^44 requirements,
    the exact rounding (200c + n) div 2n of 100c/n, except that when 100c/n
    lies half-way between two whole numbers it is that rounding or one less
    (23 of 40 give 57). *)
Theorem taskProgress_percentage_range (badger : HoneyBadger) (batch : list TaskSubmission) :
  requirements (task badger) <> [] ->
  let n := Z.of_nat (length (requirements (task badger))) in
  let c := Z.of_nat (length (List.filter (fun r => Tasks.requirement_met r batch)
                               (requirements (task badger)))) in
  exists p,
    Tasks.tp_percentage (Tasks.calculateTaskProgress badger batch) = JS.of_Z p /\
    0 <= p <= 100 /\
    (n < 2 ^ 44 ->
     (200 * c + n) / (2 * n) - 1 <= p <= (200 * c + n) / (2 * n) /\
     ((200 * c + n) mod (2 * n) <> 0 -> p = (200 * c + n) / (2 * n))).
Proof.
  intros Hne n c.
  destruct (taskProgress_percentage badger batch Hne) as (p & Hp & Hrange).
  exists p. split; [exact Hp|]. split; [exact Hrange|].
  intros Hn.
  assert (Hn0 : 0 < n).
  { unfold n. destruct (requirements (task badger)); [now contradiction Hne | simpl; lia]. }
  assert (Hc : 0 <= c <= n).
  { unfold c, n. pose proof (filter_length_bound (fun r => Tasks.requirement_met r batch)
                               (requirements (task badger))). lia. }
  destruct (percentage_sharp c n Hc (conj Hn0 Hn)) as (p' & Hp' & Hnear & Hsharp).
  assert (Hpp : p = p').
  { unfold Tasks.calculateTaskProgress in Hp. cbn [Tasks.tp_percentage] in Hp.
    rewrite count_completed_value in Hp. fold c in Hp. unfold JS.of_nat in Hp. fold n in Hp.
    replace (Z.min c (2 ^ 53)) with c in Hp by lia.
    rewrite Hp' in Hp. unfold JS.of_Z in Hp. injection Hp as Hp. lia. }
  subst p'. split; assumption.
Qed.

(** 23 of 40 requirements met: the exact rounding of 57.5 is 58, the
    doubles give 57.49999999999999 and 57. *)
Lemma taskProgress_percentage_range_witness :
  exists p,
    Tasks.tp_percentage
      (Tasks.calculateTaskProgress Scenes.forty_badger [Samples.submission "text" "done"])
    = JS.of_Z p /\
    p = 57 /\ (200 * 23 + 40) / (2 * 40) = 58.
Proof.
  destruct (taskProgress_percentage_range Scenes.forty_badger
              [Samples.submission "text" "done"]) as (p & Hp & _ & _); [discriminate|].
  exists p. split; [exact Hp|]. split; [|reflexivity].
  vm_compute in Hp. injection Hp as Hp. lia.
Defined.

Lemma taskProgress_completed_iff (badger : HoneyBadger) (batch : list TaskSubmission) :
  (0 < length (requirements (task badger)) < 200)%nat ->
  Tasks.tp_completed (Tasks.calculateTaskProgress badger batch)
  = forallb (fun r => Tasks.requirement_met r batch) (requirements (task badger)).
Proof.
  intros Hlen. rewrite <- all_counted_forallb.
  unfold Tasks.calculateTaskProgress. cbn [Tasks.tp_completed].
  rewrite count_completed_value. unfold JS.of_nat.
  set (reqs := requirements (task badger)) in *.
  set (met := List.filter (fun r => Tasks.requirement_met r batch) reqs).
  pose proof (filter_length_bound (fun r => Tasks.requirement_met r batch) reqs) as Hb.
  fold met in Hb.
  replace (Z.min (Z.of_nat (length met)) (2 ^ 53)) with (Z.of_nat (length met)) by lia.
  destruct (Nat.eqb_spec (length met) (length reqs)) as [Heq | Hneq].
  - rewrite Heq, percentage_whole by lia. reflexivity.
  - destruct (percentage_sharp (Z.of_nat (length met)) (Z.of_nat (length reqs)))
      as (p & -> & [_ Hup] & _); [lia | lia |].
    rewrite strict_eq_of_Z_eqb. apply Z.eqb_neq.
    assert (Hlt : (200 * Z.of_nat (length met) + Z.of_nat (length reqs))
                  / (2 * Z.of_nat (length reqs)) < 100).
    { apply Z.div_lt_upper_bound; lia. }
    lia.
Qed.

(** For a task with fewer than 200 requirements, the submission-based
    evaluator answers completed exactly when every requirement is met by the
    batch. (From 200 requirements on, rounding can reach 100 with one
    requirement unmet.) *)
Theorem taskProgress_completed_all_met (badger : HoneyBadger) (batch : list TaskSubmission) :
  (0 < length (requirements (task badger)) < 200)%nat ->
  (Tasks.tp_completed (Tasks.calculateTaskProgress badger batch) = true <->
   forall r, In r (requirements (task badger)) -> Tasks.requirement_met r batch = true).
Proof.
  intros Hlen. rewrite (taskProgress_completed_iff badger batch Hlen).
  rewrite forallb_forall. reflexivity.
Qed.

(** Text and photo both submitted: every requirement is met, so completed. *)
Lemma taskProgress_completed_all_met_witness :
  Tasks.tp_completed
    (Tasks.calculateTaskProgress Samples.text_photo_badger Samples.text_photo_batch) = true.
Proof.
  apply (taskProgress_completed_all_met Samples.text_photo_badger Samples.text_photo_batch).
  - simpl. lia.
  - intros r Hr. simpl in Hr. destruct Hr as [<- | [<- | []]]; reflexivity.
Defined.

Lemma fitness_requirement_unmet (r : TaskRequirement) (batch : list TaskSubmission) :
  In (rtype r) ["step-count"; "exercise-minutes"; "distance"; "calories"] ->
  forallb Tasks.valid_submission batch = true ->
  Tasks.requirement_met r batch = false.
Proof.
  intros Htype Hvalid. rewrite (requirement_met_string_contents r batch Hvalid).
  assert (Hoff : String.eqb (rtype r) "photo" || String.eqb (rtype r) "video"
                 || String.eqb (rtype r) "text" = false).
  { simpl in Htype. destruct Htype as [<- | [<- | [<- | [<- | []]]]]; reflexivity. }
  rewrite Hoff. clear.
  induction batch as [|s batch IH]; simpl; [reflexivity|].
  now rewrite andb_false_r.
Qed.

(** A requirement of a fitness type (step-count, exercise-minutes, distance,
    calories) is never met by a batch the submission route accepts, so a task
    with such a requirement, and fewer than 200 in all, is never completed by
    a submission. *)
Theorem submission_never_meets_fitness_requirement
    (badger : HoneyBadger) (body : list TaskSubmission) (r : TaskRequirement) :
  In r (requirements (task badger)) ->
  In (rtype r) ["step-count"; "exercise-minutes"; "distance"; "calories"] ->
  Tasks.schemas_submitTask body = true ->
  (length (requirements (task badger)) < 200)%nat ->
  forall uploadedFiles (t_stamp : nat -> Z),
    let batch :=
      imap (fun index => Tasks.process_submission uploadedFiles (t_stamp index) index)
        body in
    Tasks.requirement_met r batch = false /\
    Tasks.tp_completed (Tasks.calculateTaskProgress badger batch) = false.
Proof.
  intros Hin Htype Hschema Hlen uploadedFiles t_stamp batch.
  pose proof (processed_batch_valid body uploadedFiles t_stamp Hschema) as Hvalid.
  fold batch in Hvalid.
  pose proof (fitness_requirement_unmet r batch Htype Hvalid) as Hunmet.
  split; [exact Hunmet|].
  assert (Hpos : (0 < length (requirements (task badger)))%nat).
  { destruct (requirements (task badger)); [contradiction | simpl; lia]. }
  rewrite taskProgress_completed_iff by lia.
  apply not_true_is_false. intros Hall.
  rewrite forallb_forall in Hall. rewrite (Hall r Hin) in Hunmet. discriminate.
Qed.

(** The step-count task of the fitness example, with a data submission. *)
Lemma submission_never_meets_fitness_requirement_witness :
  Tasks.tp_completed
    (Tasks.calculateTaskProgress Samples.fitness_badger
       (imap (fun index => Tasks.process_submission [] 5 index)
          [Samples.submission "data" "12000"]))
  = false.
Proof.
  apply (submission_never_meets_fitness_requirement Samples.fitness_badger
           [Samples.submission "data" "12000"]
           (Samples.requirement "step-count" (JS.VNum (JS.of_Z 10000)))
           ltac:(simpl; tauto) ltac:(simpl; tauto) eq_refl ltac:(simpl; lia)
           [] (fun _ => 5)).
Defined.

(** ** What a submission stores *)

(** The documents saved by an accepted submission. The route saves twice:
    first the document with the new progress and status, then, once the
    companion has answered, the same document with the answer added to the
    chat. In the document saved last: the stamped batch is appended to the
    earlier submissions, which are kept as they were; each stamped submission
    keeps its type, carries the clock reading taken for it, and keeps its
    content unless it is a photo or a video; the chat gains the companion's
    answer, stamped with the last clock reading; lastUpdated is the reading
    taken for it; the requirements are untouched; the percentage is a whole
    number from 0 to 100; progress.completed implies percentage 100; and a
    status 'completed' comes with completedAt set, to its own reading, and
    progress complete. *)
Theorem submit_stored_document
    (b b' : HoneyBadger) (body : list TaskSubmission) (files : list string)
    (aiResponse : string) (t_stamp : nat -> Z) (t_updated t_completed t_chat : Z) :
  last (snd (Tasks.submit_loaded b body (Some files) aiResponse
               t_stamp t_updated t_completed t_chat)) = Some b' ->
  let processed :=
    imap (fun index => Tasks.process_submission files (t_stamp index) index) body in
  (exists stored,
     Tasks.submit_loaded b body (Some files) aiResponse t_stamp t_updated t_completed t_chat
     = (ok, [stored; b']) /\
     chat stored = chat b /\ task stored = task b' /\ status stored = status b' /\
     completedAt stored = completedAt b') /\
  submissions (progress (task b')) = (submissions (progress (task b)) ++ processed)%list /\
  length processed = length body /\
  (forall i s, body !! i = Some s ->
     exists s', processed !! i = Some s' /\ stype s' = stype s /\
                timestamp s' = t_stamp i /\
                (stype s <> "photo" -> stype s <> "video" -> content s' = content s)) /\
  chat b' = (chat b ++ [{| msg_senderId := "badger"; msg_content := aiResponse;
                           msg_type := "text"; msg_timestamp := t_chat |}])%list /\
  lastUpdated (progress (task b')) = t_updated /\
  requirements (task b') = requirements (task b) /\
  (exists p, percentage (progress (task b')) = JS.of_Z p /\ 0 <= p <= 100) /\
  (completed (progress (task b')) = true ->
   percentage (progress (task b')) = JS.of_Z 100) /\
  (status b' = "completed" ->
   completedAt b' = Some t_completed /\ completed (progress (task b')) = true).
Proof.
  intros Hrun processed.
  destruct (submit_loaded_last _ _ _ _ _ _ _ _ _ Hrun) as (files' & Hf & Hopen & Hlast).
  injection Hf as <-. cbv zeta in Hlast. fold processed in Hlast.
  destruct Hlast as [Hvalid ->].
  pose proof (submit_loaded_open b body files aiResponse t_stamp t_updated t_completed
                t_chat Hopen) as Hshape.
  cbv zeta in Hshape. fold processed in Hshape. rewrite Hvalid in Hshape.
  set (loaded := set_progress (set_submissions (submissions (progress (task b)) ++ processed)
                                 (progress (task b))) b) in *.
  set (res := Tasks.calculateTaskProgress loaded processed) in *.
  match goal with
  | |- context [Tasks.status_after_submit ?bd ?done t_completed] =>
      pose proof (status_after_submit_cases bd done t_completed) as Hcases;
      set (after := Tasks.status_after_submit bd done t_completed) in *
  end.
  cbn zeta in Hcases.
  destruct Hcases as (_ & Ht & Hchat & Hauto & Hother & Hprog & Hsame).
  assert (Hreqs : requirements (task loaded) <> []).
  { intros Hnone. pose proof (taskProgress_no_requirements loaded processed Hnone) as Hnan.
    fold res in Hnan. rewrite Hnan in Hvalid. discriminate. }
  split.
  { exists after. split; [exact Hshape|]. rewrite Hchat. repeat split. }
  cbn [task set_chat chat status completedAt]. rewrite Ht.
  cbn [task set_progress progress completed percentage submissions lastUpdated
       requirements chat verificationMethod status completedAt] in *.
  split; [reflexivity|]. split; [apply length_imap|].
  split; [|split; [reflexivity|split; [reflexivity|split; [reflexivity|split; [|split]]]]].
  - intros i s Hs. eexists. split.
    + unfold processed. rewrite list_lookup_imap, Hs. reflexivity.
    + cbn [stype timestamp content Tasks.process_submission].
      repeat split. intros Hp Hv.
      apply String.eqb_neq in Hp, Hv. now rewrite Hp, Hv.
  - exact (taskProgress_percentage loaded processed Hreqs).
  - apply taskProgress_completed_100.
  - intros Hst.
    destruct (Tasks.tp_completed res) eqn:Hdone.
    + destruct (String.eqb_spec (verificationMethod (task b)) "automatic") as [Hm | Hm].
      * destruct (Hauto eq_refl Hm) as [_ Hat]. split; [exact Hat | reflexivity].
      * destruct (Hother eq_refl Hm) as [Haw _]. rewrite Haw in Hst. discriminate.
    + exfalso.
      destruct (String.eqb_spec (status b) "received") as [Hr | Hr].
      * rewrite (Hprog eq_refl Hr) in Hst. discriminate.
      * rewrite (Hsame eq_refl Hr) in Hst. rewrite Hst in Hopen.
        simpl in Hopen. destruct Hopen as [H | [H | [H | []]]]; discriminate.
Qed.

(** bob's text and photo, the photo uploaded, with a clock that advances
    between the readings. *)
Lemma submit_stored_document_witness :
  exists b',
    last (snd (Tasks.submit_loaded Samples.text_photo_badger Samples.text_photo_batch
                 (Some ["https://bucket/0"; "https://bucket/1"]) "Well done!"
                 (fun index => 50 + Z.of_nat index) 52 53 60)) = Some b' /\
    length (submissions (progress (task b'))) = 2%nat /\
    lastUpdated (progress (task b')) = 52 /\
    map msg_timestamp (chat b') = [60].
Proof.
  destruct (last (snd (Tasks.submit_loaded Samples.text_photo_badger Samples.text_photo_batch
                 (Some ["https://bucket/0"; "https://bucket/1"]) "Well done!"
                 (fun index => 50 + Z.of_nat index) 52 53 60))) as [b'|] eqn:Hrun;
    [|vm_compute in Hrun; discriminate Hrun].
  exists b'. split; [reflexivity|].
  destruct (submit_stored_document Samples.text_photo_badger b' Samples.text_photo_batch
              ["https://bucket/0"; "https://bucket/1"] "Well done!"
              (fun index => 50 + Z.of_nat index) 52 53 60 Hrun)
    as (_ & Hsub & Hlen & _ & Hchat & Hupd & _).
  rewrite Hsub, length_app, Hlen, Hchat, Hupd. repeat split.
Defined.

(** ** The fitness service and the fitness evaluator *)

Lemma metric_sane (fd : Tasks.FitnessData) (type : string) (x : JS.number) :
  FitnessService.sane fd -> Tasks.metric fd type = Some x ->
  FitnessService.finite_nonneg x.
Proof.
  intros (Hs & He & Hd & Hc). unfold Tasks.metric.
  repeat match goal with
         | |- context [if ?c then _ else _] => destruct c
         end; intros [= <-]; assumption.
Qed.

Lemma round64_nonneg (x : Q) :
  (0 <= x)%Q ->
  JS.round64 x = JS.PosInf \/ exists r, JS.round64 x = JS.Fin r /\ (0 <= r)%Q.
Proof.
  intros Hx0. destruct (Qlt_le_zero_cases x Hx0) as [Hz | Hx].
  { right. exists 0%Q. split; [now apply round64_zero | apply Qle_refl]. }
  rewrite (round64_pos x Hx).
  destruct (JS.round_pos x) as [r|] eqn:Hr; [right | now left].
  exists (Qred r). split; [reflexivity|].
  destruct (round_pos_Some x r Hr) as [Hval _].
  rewrite Qred_correct, Hval.
  apply Qmult_le_0_compat; [|apply Qlt_le_weak, pow2_pos].
  rewrite <- (Zle_Qle 0). apply nearest_even_ge.
  apply Qle_shift_div_l; [apply pow2_pos|]. now rewrite Qmult_0_l.
Qed.

Lemma geb_min_one (d : JS.number) :
  JS.geb d (JS.of_Z 1) = true -> JS.geb (JS.min d (JS.of_Z 1)) (JS.of_Z 1) = true.
Proof.
  destruct d as [| | |q]; cbn; try discriminate; [reflexivity|].
  intros Hge. destruct (Qle_bool q (inject_Z 1)); [exact Hge | reflexivity].
Qed.

(** For a target and metrics that are finite doubles, the target positive
    and the metrics not negative, [validateFitnessGoal] reports the goal as
    met exactly when the fitness evaluator counts the requirement as complete
    (ratio at least 1): the quotient of two doubles rounds to 1 or more
    exactly when the metric is at least the target. A requirement of another
    type is never met. *)
Theorem validateFitnessGoal_agrees
    (ToNumber : string -> JS.number) (r : TaskRequirement) (fd : Tasks.FitnessData) :
  FitnessService.positive_target r ->
  FitnessService.sane fd ->
  FitnessService.met (FitnessService.validateFitnessGoal ToNumber r fd)
  = JS.geb (Tasks.requirement_progress ToNumber fd r) (JS.of_Z 1) /\
  (Tasks.metric fd (rtype r) = None ->
   FitnessService.met (FitnessService.validateFitnessGoal ToNumber r fd) = false).
Proof.
  intros (t & Htarget & Ht & Hdt) Hsane.
  unfold FitnessService.validateFitnessGoal, Tasks.requirement_progress.
  cbn [FitnessService.met]. rewrite Htarget. cbn [Tasks.to_number].
  assert (Hz : Qle_bool t 0 = false).
  { apply not_true_is_false. intros H. apply Qle_bool_iff in H.
    apply (Qlt_irrefl 0). eapply Qlt_le_trans; eassumption. }
  destruct (Tasks.metric fd (rtype r)) as [x|] eqn:Hm.
  - split; [|discriminate].
    pose proof (metric_sane fd _ x Hsane Hm) as Hx.
    destruct x as [| | |m]; try contradiction. destruct Hx as [Hm0 Hdm].
    cbn [JS.div].
    assert (Hnz : Qeq_bool t 0 = false).
    { apply not_true_is_false. intros H. apply Qeq_bool_iff in H.
      rewrite H in Ht. now apply Qlt_irrefl in Ht. }
    rewrite Hnz. cbn [JS.geb].
    destruct (Qlt_le_dec m t) as [Hlt | Hle].
    + destruct (round64_ratio_below_one m t Hm0 Hlt Hdm Hdt) as (q & -> & Hq0 & Hq1).
      unfold JS.of_Z. cbn [JS.min].
      assert (Hq : Qle_bool q (inject_Z 1) = true) by (apply Qle_bool_iff, Qlt_le_weak, Hq1).
      rewrite Hq. cbn [JS.geb].
      transitivity false.
      * apply not_true_is_false. intros H. apply Qle_bool_iff in H.
        apply (Qlt_irrefl m). eapply Qlt_le_trans; eassumption.
      * symmetry. apply not_true_is_false. intros H. apply Qle_bool_iff in H.
        apply (Qlt_irrefl q). eapply Qlt_le_trans; [exact Hq1 | exact H].
    + transitivity true; [now apply Qle_bool_iff|]. symmetry.
      apply geb_min_one. apply (round64_ge (m / t) 1); [reflexivity | | reflexivity].
      apply Qle_shift_div_l; [exact Ht | now rewrite Qmult_1_l].
  - split; [|intros _]; unfold JS.of_Z; cbn [JS.geb]; exact Hz.
Qed.

(** 5000 of 10000 steps: not met, and not counted as complete. *)
Lemma validateFitnessGoal_agrees_witness :
  FitnessService.met
    (FitnessService.validateFitnessGoal Samples.ToNumber_NaN
       (Samples.requirement "step-count" (JS.VNum (JS.of_Z 10000))) Samples.snapshot)
  = false.
Proof.
  destruct (validateFitnessGoal_agrees Samples.ToNumber_NaN
              (Samples.requirement "step-count" (JS.VNum (JS.of_Z 10000)))
              Samples.snapshot) as [Hmet _].
  - exists (inject_Z 10000). split; [reflexivity|]. split; [reflexivity|].
    vm_compute. reflexivity.
  - repeat split; try discriminate; vm_compute; reflexivity.
  - rewrite Hmet. vm_compute. reflexivity.
Defined.

Lemma max_finite (a b : JS.number) :
  FitnessService.finite_nonneg a -> FitnessService.finite_nonneg b ->
  FitnessService.finite_nonneg (FitnessService.max a b) /\
  FitnessService.le a (FitnessService.max a b) /\
  FitnessService.le b (FitnessService.max a b).
Proof.
  destruct a as [| | |x], b as [| | |y]; try contradiction.
  cbn [FitnessService.finite_nonneg FitnessService.max FitnessService.le].
  intros [Hx Hdx] [Hy Hdy].
  destruct (Qle_bool x y) eqn:Hle; cbn [FitnessService.finite_nonneg FitnessService.le].
  - apply Qle_bool_iff in Hle. repeat split; try assumption. apply Qle_refl.
  - assert (Hlt : (y < x)%Q).
    { apply Qnot_le_lt. intros H. apply Qle_bool_iff in H. congruence. }
    repeat split; try assumption; [apply Qle_refl | now apply Qlt_le_weak].
Qed.

Lemma le_trans (a b c : JS.number) :
  FitnessService.le a b -> FitnessService.le b c -> FitnessService.le a c.
Proof.
  destruct a, b, c; simpl; try contradiction. apply Qle_trans.
Qed.

Lemma le_refl (a : JS.number) :
  FitnessService.finite_nonneg a -> FitnessService.le a a.
Proof. destruct a; simpl; try contradiction. intros _. apply Qle_refl. Qed.

Lemma aggregate_sane (acc d : Tasks.FitnessData) :
  FitnessService.sane acc -> FitnessService.sane d ->
  FitnessService.sane (FitnessService.aggregate acc d) /\
  FitnessService.dominated acc (FitnessService.aggregate acc d) /\
  FitnessService.dominated d (FitnessService.aggregate acc d).
Proof.
  intros (A1 & A2 & A3 & A4) (D1 & D2 & D3 & D4).
  destruct (max_finite _ _ A1 D1) as (? & ? & ?).
  destruct (max_finite _ _ A2 D2) as (? & ? & ?).
  destruct (max_finite _ _ A3 D3) as (? & ? & ?).
  destruct (max_finite _ _ A4 D4) as (? & ? & ?).
  unfold FitnessService.sane, FitnessService.dominated, FitnessService.aggregate.
  cbn [Tasks.steps Tasks.exerciseMinutes Tasks.distance Tasks.calories].
  repeat split; assumption.
Qed.

Lemma dominated_trans (a b c : Tasks.FitnessData) :
  FitnessService.dominated a b -> FitnessService.dominated b c ->
  FitnessService.dominated a c.
Proof.
  intros (A1 & A2 & A3 & A4) (B1 & B2 & B3 & B4).
  repeat split; eapply le_trans; eassumption.
Qed.

Lemma dominated_refl (a : Tasks.FitnessData) :
  FitnessService.sane a -> FitnessService.dominated a a.
Proof. intros (A1 & A2 & A3 & A4). repeat split; now apply le_refl. Qed.

Lemma sync_fold (l : list FitnessService.Integration) (acc : Tasks.FitnessData) :
  FitnessService.sane acc ->
  (forall i d, In i l -> FitnessService.isActive i = true ->
     FitnessService.platformData i = Some d -> FitnessService.sane d) ->
  let result := fold_left FitnessService.sync_step l acc in
  FitnessService.sane result /\
  FitnessService.dominated acc result /\
  (forall i d, In i l -> FitnessService.isActive i = true ->
     FitnessService.platformData i = Some d -> FitnessService.dominated d result).
Proof.
  revert acc. induction l as [|i l IH]; intros acc Hacc Hall; cbn zeta.
  - split; [exact Hacc|]. split; [now apply dominated_refl | intros i d []].
  - cbn [fold_left].
    assert (Hstep : FitnessService.sane (FitnessService.sync_step acc i) /\
                    FitnessService.dominated acc (FitnessService.sync_step acc i) /\
                    (forall d, FitnessService.isActive i = true ->
                       FitnessService.platformData i = Some d ->
                       FitnessService.dominated d (FitnessService.sync_step acc i))).
    { unfold FitnessService.sync_step.
      destruct (FitnessService.isActive i) eqn:Ha;
        [destruct (FitnessService.platformData i) as [d|] eqn:Hd|].
      - destruct (aggregate_sane acc d Hacc (Hall i d (or_introl eq_refl) Ha Hd))
          as (Hs & Hda & Hdd).
        split; [exact Hs|]. split; [exact Hda|]. intros d' _ [= <-]. exact Hdd.
      - split; [exact Hacc|]. split; [now apply dominated_refl | intros d' _ H; discriminate].
      - split; [exact Hacc|]. split; [now apply dominated_refl | intros d' H; discriminate]. }
    destruct Hstep as (Hs & Hda & Hdi).
    destruct (IH (FitnessService.sync_step acc i) Hs) as (Hr & Hdr & Hrest).
    { intros j d Hj. apply Hall. now right. }
    split; [exact Hr|]. split; [eapply dominated_trans; eassumption|].
    intros j d [<- | Hj] Ha Hd.
    + eapply dominated_trans; [now apply Hdi | exact Hdr].
    + now apply (Hrest j d).
Qed.

(** Aggregating the platforms of a user: when every active platform that
    answered reports metrics that are finite doubles and not negative, so does
    the aggregate, and each of its metrics is at least what any such platform
    reported; without integrations the aggregate is all zeros. *)
Theorem syncUserData_aggregates (fitnessIntegrations : list FitnessService.Integration) :
  (forall i d, In i fitnessIntegrations -> FitnessService.isActive i = true ->
     FitnessService.platformData i = Some d -> FitnessService.sane d) ->
  FitnessService.sane (FitnessService.syncUserData fitnessIntegrations) /\
  (forall i d, In i fitnessIntegrations -> FitnessService.isActive i = true ->
     FitnessService.platformData i = Some d ->
     FitnessService.dominated d (FitnessService.syncUserData fitnessIntegrations)) /\
  FitnessService.syncUserData [] = FitnessService.no_data.
Proof.
  intros Hall. unfold FitnessService.syncUserData.
  destruct (sync_fold fitnessIntegrations FitnessService.no_data) as (Hs & _ & Hd).
  - repeat split; discriminate.
  - exact Hall.
  - split; [exact Hs|]. split; [exact Hd | reflexivity].
Qed.

(** Two platforms, 5000 and 12000 steps: the aggregate has at least 12000. *)
Lemma syncUserData_aggregates_witness :
  FitnessService.dominated Samples.full_snapshot
    (FitnessService.syncUserData [Scenes.strava; Scenes.fitbit]).
Proof.
  destruct (syncUserData_aggregates [Scenes.strava; Scenes.fitbit]) as (_ & Hd & _).
  - intros i d [<- | [<- | []]] _ [= <-];
      repeat split; try discriminate; vm_compute; reflexivity.
  - apply (Hd Scenes.fitbit); [simpl; tauto | reflexivity | reflexivity].
Defined.

Lemma ratio_in_unit ToNumber fd r :
  FitnessService.sane fd -> FitnessService.positive_target r ->
  exists q, Tasks.requirement_progress ToNumber fd r = JS.Fin q /\ (0 <= q)%Q /\ (q <= 1)%Q.
Proof.
  intros Hsane (t & Htarget & Ht & _). unfold Tasks.requirement_progress.
  destruct (Tasks.metric fd (rtype r)) as [x|] eqn:Hm.
  - pose proof (metric_sane fd _ x Hsane Hm) as Hx.
    destruct x as [| | |m]; try contradiction. destruct Hx as [Hx _].
    rewrite Htarget. cbn [Tasks.to_number JS.div].
    assert (Hnz : Qeq_bool t 0 = false).
    { apply not_true_is_false. intros H. apply Qeq_bool_iff in H.
      rewrite H in Ht. now apply Qlt_irrefl in Ht. }
    rewrite Hnz.
    assert (H0 : (0 <= m / t)%Q).
    { apply Qle_shift_div_l; [exact Ht | now rewrite Qmult_0_l]. }
    destruct (round64_nonneg (m / t) H0) as [-> | (q & -> & Hq)].
    + exists (inject_Z 1). split; [reflexivity|]. split; discriminate.
    + unfold JS.of_Z. cbn [JS.min].
      destruct (Qle_bool q (inject_Z 1)) eqn:Hle.
      * exists q. split; [reflexivity|]. split; [exact Hq | now apply Qle_bool_iff in Hle].
      * exists (inject_Z 1). split; [reflexivity|]. split; discriminate.
  - exists (inject_Z 0). split; [reflexivity|]. split; discriminate.
Qed.

(** The running sum of ratios between 0 and 1 stays between 0 and their
    number (and below 2^53, where a sum of doubles no larger than 1 stops
    growing). *)
Lemma sum_in_range (ratios : list JS.number) (a : Q) (A : Z) :
  (forall x, In x ratios -> exists q, x = JS.Fin q /\ (0 <= q)%Q /\ (q <= 1)%Q) ->
  0 <= A <= 2 ^ 53 -> (0 <= a)%Q -> (a <= inject_Z A)%Q ->
  exists s, fold_left JS.add ratios (JS.Fin a) = JS.Fin s /\
            (0 <= s)%Q /\
            (s <= inject_Z (Z.min (A + Z.of_nat (length ratios)) (2 ^ 53)))%Q.
Proof.
  revert a A. induction ratios as [|x ratios IH]; intros a A Hall HA Ha0 HaA.
  - exists a. split; [reflexivity|]. split; [exact Ha0|].
    cbn [length]. replace (Z.min (A + Z.of_nat 0) (2 ^ 53)) with A by lia. exact HaA.
  - destruct (Hall x (or_introl eq_refl)) as (q & -> & Hq0 & Hq1).
    cbn [fold_left JS.add].
    assert (Hsum0 : (0 <= a + q)%Q) by lra.
    assert (Hstep : exists r, JS.round64 (a + q) = JS.Fin r /\ (0 <= r)%Q /\
                              (r <= inject_Z (Z.min (A + 1) (2 ^ 53)))%Q).
    { destruct (Z.eq_dec A (2 ^ 53)) as [-> | HneA].
      - replace (Z.min (2 ^ 53 + 1) (2 ^ 53)) with (2 ^ 53) by lia.
        destruct (Qlt_le_dec (inject_Z (2 ^ 53)) (a + q)) as [Hover | Hunder].
        + exists (inject_Z (2 ^ 53)). split; [|split; discriminate].
          apply round64_stall; [now apply Qlt_le_weak|].
          rewrite inject_Z_plus. change (inject_Z 1) with 1%Q. lra.
        + apply round64_le; [exact Hsum0 | exact Hunder | apply is_double_Z; lia].
      - replace (Z.min (A + 1) (2 ^ 53)) with (A + 1) by lia.
        apply round64_le; [exact Hsum0 | | apply is_double_Z; lia].
        rewrite inject_Z_plus. change (inject_Z 1) with 1%Q. lra. }
    destruct Hstep as (r & -> & Hr0 & Hr1).
    destruct (IH r (Z.min (A + 1) (2 ^ 53))) as (s & Hs & Hs0 & Hs1);
      [intros y Hy; apply Hall; now right | lia | exact Hr0 | exact Hr1 |].
    exists s. split; [exact Hs|]. split; [exact Hs0|].
    cbn [length].
    replace (Z.min (A + Z.of_nat (S (length ratios))) (2 ^ 53))
      with (Z.min (Z.min (A + 1) (2 ^ 53) + Z.of_nat (length ratios)) (2 ^ 53)) by lia.
    exact Hs1.
Qed.

(** The percentage of the fitness evaluator on sane inputs. *)
Lemma fitnessProgress_percentage ToNumber (badger : HoneyBadger) (fd : Tasks.FitnessData) :
  requirements (task badger) <> [] ->
  FitnessService.sane fd ->
  (forall r, In r (requirements (task badger)) -> FitnessService.positive_target r) ->
  exists p, Tasks.fp_percentage (Tasks.calculateFitnessProgress ToNumber badger fd)
            = JS.of_Z p /\ 0 <= p <= 100.
Proof.
  intros Hne Hsane Htargets.
  unfold Tasks.calculateFitnessProgress.
  rewrite fitness_loop_value. cbn [Tasks.fp_percentage].
  destruct (sum_in_range (map (Tasks.requirement_progress ToNumber fd)
                            (requirements (task badger))) (inject_Z 0) 0)
    as (s & Hs & Hlo & Hhi).
  { intros x Hx. apply in_map_iff in Hx as (r & <- & Hr).
    apply ratio_in_unit; [exact Hsane | now apply Htargets]. }
  { lia. }
  { apply Qle_refl. }
  { apply Qle_refl. }
  change (JS.of_Z 0) with (JS.Fin (inject_Z 0)). rewrite Hs.
  rewrite length_map in Hhi.
  set (n := length (requirements (task badger))) in *.
  assert (Hn : (0 < n)%nat).
  { unfold n. destruct (requirements (task badger)); [now contradiction Hne | simpl; lia]. }
  unfold JS.of_nat. apply percentage_range; [lia | exact Hlo |].
  eapply Qle_trans; [exact Hhi|]. rewrite <- Zle_Qle. lia.
Qed.

(** With metrics that are finite doubles and not negative, and targets that
    are finite positive doubles, the percentage of the fitness evaluator is a
    whole number between 0 and 100, as the schema of the progress asks. *)
Theorem fitnessProgress_percentage_range
    (ToNumber : string -> JS.number) (badger : HoneyBadger) (fd : Tasks.FitnessData) :
  requirements (task badger) <> [] ->
  FitnessService.sane fd ->
  (forall r, In r (requirements (task badger)) -> FitnessService.positive_target r) ->
  exists p, Tasks.fp_percentage (Tasks.calculateFitnessProgress ToNumber badger fd)
            = JS.of_Z p /\ 0 <= p <= 100.
Proof. apply fitnessProgress_percentage. Qed.

(** The fitness example: 75 percent. *)
Lemma fitnessProgress_percentage_range_witness :
  exists p, Tasks.fp_percentage
              (Tasks.calculateFitnessProgress Samples.ToNumber_NaN Samples.fitness_badger
                 Samples.snapshot) = JS.of_Z p /\ 0 <= p <= 100.
Proof.
  apply (fitnessProgress_percentage_range Samples.ToNumber_NaN Samples.fitness_badger
           Samples.snapshot).
  - discriminate.
  - repeat split; try discriminate; vm_compute; reflexivity.
  - intros r [<- | [<- | []]]; eexists; (split; [reflexivity|]);
      (split; [reflexivity|]); vm_compute; reflexivity.
Defined.

(** ** The fitness sync *)

Lemma fitnessProgress_no_requirements ToNumber (badger : HoneyBadger) fd :
  requirements (task badger) = [] ->
  Tasks.fp_percentage (Tasks.calculateFitnessProgress ToNumber badger fd) = JS.NaN.
Proof.
  intros Hnil. unfold Tasks.calculateFitnessProgress. rewrite Hnil.
  vm_compute. reflexivity.
Qed.

(** What the fitness sync answers on a fitness task, by whether the computed
    percentage passes the schema. *)
Lemma syncFitness_loaded_fitness ToNumber (b : HoneyBadger) fd (t_updated t_completed : Z) :
  ttype (task b) = "fitness" ->
  let result := Tasks.calculateFitnessProgress ToNumber b fd in
  let measured :=
    set_progress
      (set_lastUpdated t_updated
         (set_completed (Tasks.fp_completed result)
            (set_percentage (Tasks.fp_percentage result) (progress (task b))))) b in
  Tasks.syncFitness_loaded ToNumber b (Some fd) t_updated t_completed
  = if percentage_valid (Tasks.fp_percentage result)
    then (ok,
          Some (if Tasks.fp_completed result && negb (String.eqb (status b) "completed")
                then set_completedAt (Some t_completed) (set_status "completed" measured)
                else measured))
    else (failure 500 "Failed to sync fitness data", None).
Proof.
  intros Hfit result measured. unfold Tasks.syncFitness_loaded. rewrite Hfit.
  change (negb (String.eqb "fitness" "fitness")) with false. cbv iota.
  fold result. unfold validates.
  change (status (set_progress _ (set_progress _ (set_progress _ b)))) with (status b).
  destruct (Tasks.fp_completed result && negb (String.eqb (status b) "completed"));
    reflexivity.
Qed.

(** The fitness sync checks the task type but not the status, and reads the
    clock once for lastUpdated and once more for completedAt. On a fitness
    task, when the computed percentage does not pass the schema (no number, or
    outside 0 to 100) the save fails and the route answers 500 storing
    nothing; this is the case of a task without requirements. Otherwise the
    document is stored with the new lastUpdated and the submissions kept: a
    snapshot that completes the task stores status 'completed' with progress
    complete at 100 whatever the status was, and sets completedAt unless the
    status was already 'completed'; a snapshot that does not complete it
    stores progress.completed = false and leaves status and completedAt as
    they were. With requirements, the percentage passes the schema whenever
    the snapshot completes the task, and whenever the metrics are finite
    doubles that are not negative and the targets finite positive doubles. *)
Theorem syncFitness_stored_document
    (ToNumber : string -> JS.number) (b : HoneyBadger) (fd : Tasks.FitnessData)
    (t_updated t_completed : Z) :
  ttype (task b) = "fitness" ->
  let result := Tasks.calculateFitnessProgress ToNumber b fd in
  let answer := Tasks.syncFitness_loaded ToNumber b (Some fd) t_updated t_completed in
  (percentage_valid (Tasks.fp_percentage result) = false ->
   answer = (failure 500 "Failed to sync fitness data", None)) /\
  (percentage_valid (Tasks.fp_percentage result) = true ->
   exists b',
     answer = (ok, Some b') /\
     lastUpdated (progress (task b')) = t_updated /\
     submissions (progress (task b')) = submissions (progress (task b)) /\
     percentage (progress (task b')) = Tasks.fp_percentage result /\
     (Tasks.fp_completed result = true ->
      status b' = "completed" /\
      completed (progress (task b')) = true /\
      percentage (progress (task b')) = JS.of_Z 100 /\
      (status b <> "completed" -> completedAt b' = Some t_completed) /\
      (status b = "completed" -> completedAt b' = completedAt b)) /\
     (Tasks.fp_completed result = false ->
      status b' = status b /\ completedAt b' = completedAt b /\
      completed (progress (task b')) = false)) /\
  (requirements (task b) = [] ->
   percentage_valid (Tasks.fp_percentage result) = false) /\
  (requirements (task b) <> [] -> Tasks.fp_completed result = true ->
   percentage_valid (Tasks.fp_percentage result) = true) /\
  (requirements (task b) <> [] -> FitnessService.sane fd ->
   (forall r, In r (requirements (task b)) -> FitnessService.positive_target r) ->
   percentage_valid (Tasks.fp_percentage result) = true).
Proof.
  intros Hfit result answer.
  pose proof (syncFitness_loaded_fitness ToNumber b fd t_updated t_completed Hfit) as Hrun.
  cbv zeta in Hrun. fold result answer in Hrun.
  assert (Hnil : requirements (task b) = [] ->
                 percentage_valid (Tasks.fp_percentage result) = false).
  { intros Hnil. unfold result.
    now rewrite (fitnessProgress_no_requirements ToNumber b fd Hnil). }
  split; [|split; [|split; [|split]]].
  - intros Hbad. rewrite Hrun, Hbad. reflexivity.
  - intros Hgood. rewrite Hgood in Hrun.
    eexists. split; [exact Hrun|].
    assert (Hne : requirements (task b) <> []).
    { intros Hn. rewrite (Hnil Hn) in Hgood. discriminate. }
    pose proof (fitnessProgress_completed_100 ToNumber b fd Hne) as H100.
    fold result in H100.
    destruct (Tasks.fp_completed result) eqn:Hdone.
    + specialize (H100 eq_refl).
      destruct (String.eqb_spec (status b) "completed") as [Hst | Hst];
        cbn [andb negb]; cbn; rewrite ?H100;
        repeat split; try assumption; try discriminate;
        intros Hc; contradiction.
    + cbn [andb]. cbn. repeat split; discriminate.
  - exact Hnil.
  - intros Hne Hdone. unfold result in *.
    rewrite (fitnessProgress_completed_100 ToNumber b fd Hne Hdone).
    now apply percentage_valid_range.
  - intros Hne Hsane Htargets.
    destruct (fitnessProgress_percentage ToNumber b fd Hne Hsane Htargets) as (p & Hp & Hr).
    fold result in Hp. rewrite Hp. now apply percentage_valid_range.
Qed.

(** A cancelled fitness badger and a snapshot that meets both requirements:
    stored as completed, completedAt from the second clock reading. *)
Lemma syncFitness_stored_document_witness :
  let b := Samples.badger "cancelled" "fitness" Samples.fitness_requirements "automatic" None in
  exists b',
    Tasks.syncFitness_loaded Samples.ToNumber_NaN b (Some Samples.full_snapshot) 9 10
    = (ok, Some b') /\
    status b' = "completed" /\ completedAt b' = Some 10 /\
    lastUpdated (progress (task b')) = 9.
Proof.
  intros b.
  destruct (syncFitness_stored_document Samples.ToNumber_NaN b Samples.full_snapshot 9 10)
    as (_ & Hgood & _ & Hvalid & _); [reflexivity|].
  assert (Hdone : Tasks.fp_completed
                    (Tasks.calculateFitnessProgress Samples.ToNumber_NaN b
                       Samples.full_snapshot) = true)
    by (vm_compute; reflexivity).
  destruct (Hgood (Hvalid ltac:(discriminate) Hdone))
    as (b' & Hrun & Hupdated & _ & _ & Hcompleted & _).
  destruct (Hcompleted Hdone) as (Hstatus & _ & _ & Hat & _).
  exists b'. split; [exact Hrun|]. split; [exact Hstatus|].
  split; [apply Hat; discriminate | exact Hupdated].
Defined.

(** ** Viewing and cancelling *)

(** Viewing is idempotent: a second view by the same user gives the same
    answer and stores the same collection; and a view changes nothing but
    the status of the viewed delivery, from 'sent' to 'received', when the
    viewer is its recipient. *)
Theorem view_idempotent (db : gmap string HoneyBadger) (id user : string) :
  well_keyed db ->
  Badgers.view (snd (Badgers.view db id user)) id user = Badgers.view db id user /\
  (forall j b, db !! j = Some b ->
     snd (Badgers.view db id user) !! j = Some b \/
     (j = id /\ status b = "sent" /\ recipientId b = user /\
      snd (Badgers.view db id user) !! j = Some (set_status "received" b))).
Proof.
  intros Hwk.
  destruct (findOne db id (Badgers.sender_or_recipient user)) as [bd|] eqn:Hfind.
  - pose proof Hfind as Hinv. apply findOne_inv in Hinv as [Hbd Hauth].
    pose proof (Hwk _ _ Hbd) as Hkey.
    destruct (String.eqb (recipientId bd) user && String.eqb (status bd) "sent")
      eqn:Hfirst.
    + assert (Hview : Badgers.view db id user
                      = (ok, <[id := set_status "received" bd]> db)).
      { unfold Badgers.view. rewrite Hfind. unfold Badgers.view_loaded.
        rewrite Hfirst. cbn [finish]. unfold save. cbn [_id set_status].
        now rewrite Hkey. }
      apply andb_true_iff in Hfirst as [Hrec Hsent].
      apply String.eqb_eq in Hrec, Hsent.
      rewrite Hview. cbn [snd]. split.
      * unfold Badgers.view.
        erewrite findOne_Some; [|apply lookup_insert_eq | exact Hauth].
        unfold Badgers.view_loaded. cbn [status set_status recipientId].
        rewrite andb_false_r. reflexivity.
      * intros j b Hj.
        destruct (decide (j = id)) as [-> | Hne].
        -- right. rewrite Hbd in Hj. injection Hj as <-.
           rewrite lookup_insert_eq. repeat split; assumption.
        -- left. rewrite lookup_insert_ne by congruence. exact Hj.
    + assert (Hview : Badgers.view db id user = (ok, db)).
      { unfold Badgers.view. rewrite Hfind. unfold Badgers.view_loaded.
        now rewrite Hfirst. }
      rewrite Hview. cbn [snd]. split; [exact Hview | intros j b Hj; now left].
  - assert (Hview : Badgers.view db id user = (failure 404 "Badger not found", db)).
    { unfold Badgers.view. now rewrite Hfind. }
    rewrite Hview. cbn [snd]. split; [exact Hview | intros j b Hj; now left].
Qed.

(** bob opens the badger alice sent him. *)
Lemma view_idempotent_witness :
  let db : gmap string HoneyBadger :=
    {[ "b1" := Samples.badger "sent" "custom" Samples.text_task "manual" None ]} in
  Badgers.view (snd (Badgers.view db "b1" "bob")) "b1" "bob" = Badgers.view db "b1" "bob".
Proof.
  intros db.
  apply (view_idempotent db "b1" "bob").
  apply (well_keyed_singleton (Samples.badger "sent" "custom" Samples.text_task "manual" None)).
Defined.

(** Cancelling, for the sender of a stored delivery: refused only when the
    status is 'completed'; otherwise the delivery is stored as 'cancelled',
    after which no status request of anybody changes the collection or
    succeeds, and a second cancel stores the same collection. Anybody but the
    sender is answered not found. *)
Theorem cancel_effects
    (db : gmap string HoneyBadger) (id user : string) (b : HoneyBadger) :
  db !! id = Some b ->
  _id b = id ->
  (Badgers.is_sender user b = false ->
   Badgers.cancel db id user = (failure 404 "Badger not found or not authorized", db)) /\
  (Badgers.is_sender user b = true ->
   (status b = "completed" ->
    Badgers.cancel db id user = (failure 400 "Cannot cancel completed badger", db)) /\
   (status b <> "completed" ->
    let db' := <[id := set_status "cancelled" b]> db in
    Badgers.cancel db id user = (ok, db') /\
    Badgers.cancel db' id user = (ok, db') /\
    (forall user' status' now,
        snd (Badgers.updateStatus db' id user' status' now) = db' /\
        success (fst (Badgers.updateStatus db' id user' status' now)) = false))).
Proof.
  intros Hlook Hid. split.
  - intros Hnot. unfold Badgers.cancel, findOne. now rewrite Hlook, Hnot.
  - intros Hsender. unfold Badgers.cancel at 1 2.
    rewrite (findOne_Some _ _ _ _ Hlook Hsender). unfold Badgers.cancel_loaded.
    split.
    + intros ->. reflexivity.
    + intros Hst. apply String.eqb_neq in Hst. rewrite Hst.
      cbn [finish]. unfold save. cbn [_id set_status]. rewrite Hid.
      split; [reflexivity|]. split.
      * unfold Badgers.cancel.
        erewrite findOne_Some; [|apply lookup_insert_eq | exact Hsender].
        unfold Badgers.cancel_loaded. cbn [status set_status].
        replace (String.eqb "cancelled" "completed") with false by reflexivity.
        cbn [finish]. unfold save. cbn [_id set_status]. rewrite Hid.
        now rewrite insert_insert_eq.
      * intros user' status' now. unfold Badgers.updateStatus, findOne.
        rewrite lookup_insert_eq.
        destruct (Badgers.sender_or_recipient user' (set_status "cancelled" b));
          [|split; reflexivity].
        unfold Badgers.updateStatus_loaded. cbn [status set_status].
        replace (Badgers.transition_allowed "cancelled" status') with false
          by reflexivity.
        split; reflexivity.
Qed.

(** alice cancels the badger bob has in progress. *)
Lemma cancel_effects_witness :
  let b := Samples.badger "in-progress" "custom" Samples.text_task "manual" None in
  Badgers.cancel {[ "b1" := b ]} "b1" "alice"
  = (ok, <["b1" := set_status "cancelled" b]> {[ "b1" := b ]}).
Proof.
  intros b.
  destruct (cancel_effects {[ "b1" := b ]} "b1" "alice" b) as (_ & Hsender);
    [reflexivity | reflexivity |].
  destruct (Hsender eq_refl) as (_ & Hcancel).
  apply Hcancel. discriminate.
Defined.

(** ** The per-user rate limit *)

Lemma serve_counting (user : string) (hits : list RateLimit.Hit) :
  forall (store : gmap string RateLimit.Counter) (c e : Z),
    store !! RateLimit.rate_key user
      = Some {| RateLimit.count := c; RateLimit.expires := e |} ->
    RateLimit.burst e hits ->
    RateLimit.serve user store hits
    = imap (fun i h => RateLimit.outcome_of (RateLimit.hit_max h) (c + Z.of_nat i + 1)) hits.
Proof.
  induction hits as [|h hits IH]; intros store c e Hkey Hburst; [reflexivity|].
  destruct Hburst as (Hlive & Hwin & Hrest).
  assert (Hstep :
    RateLimit.userRateLimit (RateLimit.hit_max h) (RateLimit.hit_window h) true
      (Some user) (RateLimit.hit_time h) store
    = (RateLimit.outcome_of (RateLimit.hit_max h) (c + 1),
       <[RateLimit.rate_key user :=
           {| RateLimit.count := c + 1;
              RateLimit.expires := RateLimit.hit_time h + RateLimit.hit_window h * 60 |}]>
         store)).
  { unfold RateLimit.userRateLimit, RateLimit.incrementCounter, RateLimit.live.
    rewrite Hkey. cbn [RateLimit.expires RateLimit.count].
    replace (RateLimit.hit_time h <? e) with true by (symmetry; apply Z.ltb_lt; lia).
    replace (RateLimit.hit_window h * 60 <=? 0) with false
      by (symmetry; apply Z.leb_gt; lia).
    unfold RateLimit.outcome_of.
    destruct (RateLimit.hit_max h <? c + 1); reflexivity. }
  cbn [RateLimit.serve]. rewrite Hstep. cbn [imap]. f_equal.
  - f_equal. lia.
  - erewrite IH; [|apply lookup_insert_eq | exact Hrest].
    apply imap_ext. intros i x _. simpl. f_equal. lia.
Qed.

(** The counter of a user is shared by all rate-limited routes and its
    expiry is pushed back by every request: as long as each request arrives
    before the window set by the previous one has run out, the i-th request
    since the counter started is let through exactly when i does not exceed
    the limit of its own route, with max - i as the remaining allowance; the
    counter starts again from 1 when the key is absent or has expired. *)
Theorem rate_limit_burst
    (user : string) (store : gmap string RateLimit.Counter)
    (h : RateLimit.Hit) (rest : list RateLimit.Hit) :
  RateLimit.live store (RateLimit.rate_key user) (RateLimit.hit_time h) = 0 ->
  0 < RateLimit.hit_window h ->
  RateLimit.burst (RateLimit.hit_time h + RateLimit.hit_window h * 60) rest ->
  RateLimit.serve user store (h :: rest)
  = imap (fun i r => RateLimit.outcome_of (RateLimit.hit_max r) (Z.of_nat i + 1))
      (h :: rest).
Proof.
  intros Hlive Hwin Hburst.
  assert (Hstep :
    RateLimit.userRateLimit (RateLimit.hit_max h) (RateLimit.hit_window h) true
      (Some user) (RateLimit.hit_time h) store
    = (RateLimit.outcome_of (RateLimit.hit_max h) 1,
       <[RateLimit.rate_key user :=
           {| RateLimit.count := 1;
              RateLimit.expires := RateLimit.hit_time h + RateLimit.hit_window h * 60 |}]>
         store)).
  { unfold RateLimit.userRateLimit, RateLimit.incrementCounter.
    rewrite Hlive.
    replace (RateLimit.hit_window h * 60 <=? 0) with false
      by (symmetry; apply Z.leb_gt; lia).
    unfold RateLimit.outcome_of. change (0 + 1) with 1.
    destruct (RateLimit.hit_max h <? 1); reflexivity. }
  cbn [RateLimit.serve]. rewrite Hstep. cbn [imap]. f_equal.
  erewrite serve_counting; [|apply lookup_insert_eq | exact Hburst].
  apply imap_ext. intros i x _. simpl. f_equal. lia.
Qed.

(** Three requests within a minute on a route that allows two per minute. *)
Lemma rate_limit_burst_witness :
  let hit t := {| RateLimit.hit_time := t; RateLimit.hit_max := 2;
                  RateLimit.hit_window := 1 |} in
  RateLimit.serve "bob" ∅ [hit 0; hit 10; hit 20]
  = [RateLimit.Next (Some 1); RateLimit.Next (Some 0); RateLimit.TooManyRequests].
Proof.
  intros hit.
  rewrite (rate_limit_burst "bob" ∅ (hit 0) [hit 10; hit 20]).
  - reflexivity.
  - reflexivity.
  - simpl. lia.
  - simpl. lia.
Defined.
